(** * Canvas agent: operation streamer, operation executor, group containment

    A shallow embedding of three parts of the canvas agent:

    - [CanvasOperationStreamer.ts]: the streaming parser that turns chunks of
      model output into canvas operations (module [Streamer]);
    - the canvas tools (operation executor): [executeAddNode],
      [executeUpdateNode], [executeDeleteNode], [executeAddEdge],
      [executeDeleteEdge], [executeCanvasOperations] (module [Executor]);
    - [CanvasLoader.ts]: the derivation of synthetic [contains] edges
      (module [Loader]).

    Conventions of the embedding.

    - A JavaScript string is a [string] (or a [list ascii] where the code
      scans it): the characters are the code units 0..255.
    - [undefined] / an absent property is [None].
    - A number that [parseInt] returns is a [jsnum]: [NaN], an infinity,
      [-0] or a double whose value is an integer; the coordinates the
      loader computes with are binary64 floating-point numbers.
    - The arrays of a canvas document are lists; the in-place mutation of
      [canvasData] is explicit state passing: every executor function
      returns the document it leaves behind together with its result. *)

From Stdlib Require Import String Ascii List Bool Arith ZArith Lia.
From Stdlib Require Import PrimFloat SpecFloat.
Import ListNotations.

Local Open Scope string_scope.
Local Open Scope list_scope.

(** ** JavaScript values shared by the three parts *)

(** The double quote character, and a string holding just it. *)
Definition dquote : ascii := "034"%char.
Definition dq : string := String dquote EmptyString.

(** Test inputs are written with single quotes; [q] turns every single
    quote into a double quote, so that [q "<a id='x'/>"] is the text
    [<a id="x"/>] with double quotes. *)
Fixpoint q (s : string) : string :=
  match s with
  | EmptyString => EmptyString
  | String c rest =>
      String (if Ascii.eqb c "'"%char then dquote else c) (q rest)
  end.

(** A number as the parser produces it.  [parseInt] returns [NaN], an
    infinity, [-0], or a finite double whose value is an integer:
    [JInt z] is the double of value [z] (and [+0] when [z] is 0).  The
    executor only copies numbers. *)
Inductive jsnum : Type :=
| JInt (z : Z)
| JNaN
| JInfinity (negative : bool)
| JNegZero.

(** Truthiness of an optional string: [undefined] and the empty string are
    falsy. *)
Definition truthy (o : option string) : bool :=
  match o with
  | Some (String _ _) => true
  | _ => false
  end.

(** [a || d] for an optional string [a] and a string [d]. *)
Definition or_else (o : option string) (d : string) : string :=
  match o with
  | Some (String c r) => String c r
  | _ => d
  end.

(** The value of a property that the code has just tested to be truthy
    (the empty string otherwise, which then is not used). *)
Definition defined (o : option string) : string :=
  match o with
  | Some s => s
  | None => EmptyString
  end.

(** [a || undefined]. *)
Definition or_undefined (o : option string) : option string :=
  match o with
  | Some (String c r) => Some (String c r)
  | _ => None
  end.

(** ** Operation types ([CanvasOperationStreamer.ts], lines 19-81) *)

Record AddNodeOperation : Type := mkAddNode {
  an_id : string;
  an_nodeType : string;   (* [attrs.type], cast without a check *)
  an_x : jsnum;
  an_y : jsnum;
  an_width : jsnum;
  an_height : jsnum;
  an_content : option string;
  an_file : option string;
  an_url : option string;
  an_label : option string;
  an_color : option string
}.

Record NodeUpdates : Type := mkUpdates {
  u_x : option jsnum;
  u_y : option jsnum;
  u_width : option jsnum;
  u_height : option jsnum;
  u_content : option string;
  u_color : option string;
  u_label : option string
}.

Record UpdateNodeOperation : Type := mkUpdateNode {
  un_id : string;
  un_updates : NodeUpdates
}.

Record AddEdgeOperation : Type := mkAddEdge {
  ae_id : string;
  ae_fromNode : string;
  ae_toNode : string;
  ae_fromSide : option string;
  ae_toSide : option string;
  ae_label : option string;
  ae_color : option string
}.

Inductive CanvasOperation : Type :=
| OpAddNode (op : AddNodeOperation)
| OpUpdateNode (op : UpdateNodeOperation)
| OpDeleteNode (id : string)
| OpAddEdge (op : AddEdgeOperation)
| OpDeleteEdge (id : string).

Definition isAddNode (op : CanvasOperation) : bool :=
  match op with OpAddNode _ => true | _ => false end.
Definition isUpdateNode (op : CanvasOperation) : bool :=
  match op with OpUpdateNode _ => true | _ => false end.
Definition isDeleteNode (op : CanvasOperation) : bool :=
  match op with OpDeleteNode _ => true | _ => false end.
Definition isAddEdge (op : CanvasOperation) : bool :=
  match op with OpAddEdge _ => true | _ => false end.
Definition isDeleteEdge (op : CanvasOperation) : bool :=
  match op with OpDeleteEdge _ => true | _ => false end.

(** ** The operation executor (canvas tools) *)

Module Executor.

(** *** The canvas document (JSON-Canvas) *)

Inductive NodeKind : Type := KText | KFile | KLink | KGroup.

Record CanvasNode : Type := mkNode {
  n_id : string;
  n_type : NodeKind;
  n_x : jsnum;
  n_y : jsnum;
  n_width : jsnum;
  n_height : jsnum;
  n_text : option string;
  n_file : option string;
  n_url : option string;
  n_label : option string;
  n_color : option string
}.

Record CanvasEdge : Type := mkEdge {
  e_id : string;
  e_fromNode : string;
  e_toNode : string;
  e_fromSide : option string;
  e_toSide : option string;
  e_label : option string;
  e_color : option string
}.

Record CanvasData : Type := mkCanvas {
  nodes : list CanvasNode;
  edges : list CanvasEdge
}.

Record OperationResult : Type := mkResult {
  success : bool;
  error : option string;
  affectedIds : option (list string)
}.

Definition ok (ids : list string) : OperationResult :=
  {| success := true; error := None; affectedIds := Some ids |}.

Definition failure (msg : string) : OperationResult :=
  {| success := false; error := Some msg; affectedIds := None |}.

(** *** Array helpers *)

Section ArrayHelpers.
Context {A : Type}.

(** [arr.findIndex(p)]: [None] stands for [-1]. *)
Fixpoint findIndex (p : A -> bool) (l : list A) : option nat :=
  match l with
  | [] => None
  | a :: rest =>
      if p a then Some 0
      else match findIndex p rest with
           | Some i => Some (S i)
           | None => None
           end
  end.

(** [arr.splice(i, 1)]. *)
Definition splice1 (i : nat) (l : list A) : list A :=
  firstn i l ++ skipn (S i) l.

(** [arr[i] = a] for an index inside the array. *)
Fixpoint setAt (i : nat) (a : A) (l : list A) : list A :=
  match l, i with
  | [], _ => []
  | _ :: rest, 0 => a :: rest
  | b :: rest, S j => b :: setAt j a rest
  end.

End ArrayHelpers.

Definition hasNode (id : string) (d : CanvasData) : bool :=
  existsb (fun n => String.eqb (n_id n) id) (nodes d).

Definition hasEdge (id : string) (d : CanvasData) : bool :=
  existsb (fun e => String.eqb (e_id e) id) (edges d).

(** The nodes, and the edges, that carry a given id. *)
Definition nodesWithId (i : string) (d : CanvasData) : list CanvasNode :=
  filter (fun n => String.eqb (n_id n) i) (nodes d).

Definition edgesWithId (i : string) (d : CanvasData) : list CanvasEdge :=
  filter (fun e => String.eqb (e_id e) i) (edges d).

(** *** Individual operations *)

Definition newNode (op : AddNodeOperation) (k : NodeKind) : CanvasNode :=
  {| n_id := an_id op; n_type := k;
     n_x := an_x op; n_y := an_y op;
     n_width := an_width op; n_height := an_height op;
     n_text := match k with KText => Some (or_else (an_content op) EmptyString) | _ => None end;
     n_file := match k with KFile => an_file op | _ => None end;
     n_url := match k with KLink => an_url op | _ => None end;
     n_label := match k with KGroup => an_label op | _ => None end;
     n_color := an_color op |}.

Definition pushNode (d : CanvasData) (n : CanvasNode) : CanvasData :=
  {| nodes := nodes d ++ [n]; edges := edges d |}.

Definition executeAddNode (canvasData : CanvasData) (op : AddNodeOperation)
  : CanvasData * OperationResult :=
  (* Check for duplicate ID *)
  if hasNode (an_id op) canvasData then
    (canvasData,
     failure ("Node with ID " ++ dq ++ an_id op ++ dq ++ " already exists"))
  else if String.eqb (an_nodeType op) "text" then
    (pushNode canvasData (newNode op KText), ok [an_id op])
  else if String.eqb (an_nodeType op) "file" then
    if negb (truthy (an_file op)) then
      (canvasData, failure "File path required for file node")
    else (pushNode canvasData (newNode op KFile), ok [an_id op])
  else if String.eqb (an_nodeType op) "link" then
    if negb (truthy (an_url op)) then
      (canvasData, failure "URL required for link node")
    else (pushNode canvasData (newNode op KLink), ok [an_id op])
  else if String.eqb (an_nodeType op) "group" then
    (pushNode canvasData (newNode op KGroup), ok [an_id op])
  else
    (canvasData, failure ("Unknown node type: " ++ an_nodeType op)).

Definition set_x (n : CanvasNode) (v : jsnum) : CanvasNode :=
  mkNode (n_id n) (n_type n) v (n_y n) (n_width n) (n_height n)
         (n_text n) (n_file n) (n_url n) (n_label n) (n_color n).
Definition set_y (n : CanvasNode) (v : jsnum) : CanvasNode :=
  mkNode (n_id n) (n_type n) (n_x n) v (n_width n) (n_height n)
         (n_text n) (n_file n) (n_url n) (n_label n) (n_color n).
Definition set_width (n : CanvasNode) (v : jsnum) : CanvasNode :=
  mkNode (n_id n) (n_type n) (n_x n) (n_y n) v (n_height n)
         (n_text n) (n_file n) (n_url n) (n_label n) (n_color n).
Definition set_height (n : CanvasNode) (v : jsnum) : CanvasNode :=
  mkNode (n_id n) (n_type n) (n_x n) (n_y n) (n_width n) v
         (n_text n) (n_file n) (n_url n) (n_label n) (n_color n).
Definition set_color (n : CanvasNode) (v : string) : CanvasNode :=
  mkNode (n_id n) (n_type n) (n_x n) (n_y n) (n_width n) (n_height n)
         (n_text n) (n_file n) (n_url n) (n_label n) (Some v).
Definition set_text (n : CanvasNode) (v : string) : CanvasNode :=
  mkNode (n_id n) (n_type n) (n_x n) (n_y n) (n_width n) (n_height n)
         (Some v) (n_file n) (n_url n) (n_label n) (n_color n).
Definition set_label (n : CanvasNode) (v : string) : CanvasNode :=
  mkNode (n_id n) (n_type n) (n_x n) (n_y n) (n_width n) (n_height n)
         (n_text n) (n_file n) (n_url n) (Some v) (n_color n).

(** [if (v !== undefined) node = set node v]. *)
Definition whenDefined {V : Type} (v : option V)
    (set : CanvasNode -> V -> CanvasNode) (node : CanvasNode) : CanvasNode :=
  match v with
  | Some x => set node x
  | None => node
  end.

Definition isText (n : CanvasNode) : bool :=
  match n_type n with KText => true | _ => false end.
Definition isGroup (n : CanvasNode) : bool :=
  match n_type n with KGroup => true | _ => false end.

(** The assignments of [executeUpdateNode], lines 273-285, in their order. *)
Definition applyUpdates (node : CanvasNode) (u : NodeUpdates) : CanvasNode :=
  let node := whenDefined (u_x u) set_x node in
  let node := whenDefined (u_y u) set_y node in
  let node := whenDefined (u_width u) set_width node in
  let node := whenDefined (u_height u) set_height node in
  let node := whenDefined (u_color u) set_color node in
  let node := if isText node then whenDefined (u_content u) set_text node else node in
  let node := if isGroup node then whenDefined (u_label u) set_label node else node in
  node.

Definition executeUpdateNode (canvasData : CanvasData) (op : UpdateNodeOperation)
  : CanvasData * OperationResult :=
  match findIndex (fun n => String.eqb (n_id n) (un_id op)) (nodes canvasData) with
  | None =>
      (canvasData,
       failure ("Node with ID " ++ dq ++ un_id op ++ dq ++ " not found"))
  | Some nodeIndex =>
      match nth_error (nodes canvasData) nodeIndex with
      | None => (canvasData, ok [un_id op])   (* not reached: the index is valid *)
      | Some node =>
          ({| nodes := setAt nodeIndex (applyUpdates node (un_updates op))
                             (nodes canvasData);
              edges := edges canvasData |},
           ok [un_id op])
      end
  end.

(** The test of the filter callback of [executeDeleteNode]. *)
Definition touches (id : string) (edge : CanvasEdge) : bool :=
  String.eqb (e_fromNode edge) id || String.eqb (e_toNode edge) id.

Definition executeDeleteNode (canvasData : CanvasData) (id : string)
  : CanvasData * OperationResult :=
  match findIndex (fun n => String.eqb (n_id n) id) (nodes canvasData) with
  | None =>
      (canvasData, failure ("Node with ID " ++ dq ++ id ++ dq ++ " not found"))
  | Some nodeIndex =>
      (* Remove the node *)
      let nodes' := splice1 nodeIndex (nodes canvasData) in
      (* Remove all edges connected to this node *)
      let removedEdgeIds :=
        map e_id (filter (touches id) (edges canvasData)) in
      let edges' := filter (fun e => negb (touches id e)) (edges canvasData) in
      ({| nodes := nodes'; edges := edges' |}, ok (id :: removedEdgeIds))
  end.

Definition newEdge (op : AddEdgeOperation) : CanvasEdge :=
  {| e_id := ae_id op;
     e_fromNode := ae_fromNode op;
     e_toNode := ae_toNode op;
     e_fromSide := Some (or_else (ae_fromSide op) "right");
     e_toSide := Some (or_else (ae_toSide op) "left");
     e_label := ae_label op;
     e_color := ae_color op |}.

Definition executeAddEdge (canvasData : CanvasData) (op : AddEdgeOperation)
  : CanvasData * OperationResult :=
  (* Validate nodes exist *)
  if negb (hasNode (ae_fromNode op) canvasData) then
    (canvasData,
     failure ("Source node " ++ dq ++ ae_fromNode op ++ dq ++ " not found"))
  else if negb (hasNode (ae_toNode op) canvasData) then
    (canvasData,
     failure ("Target node " ++ dq ++ ae_toNode op ++ dq ++ " not found"))
  else
    ({| nodes := nodes canvasData; edges := edges canvasData ++ [newEdge op] |},
     ok [ae_id op]).

Definition executeDeleteEdge (canvasData : CanvasData) (id : string)
  : CanvasData * OperationResult :=
  match findIndex (fun e => String.eqb (e_id e) id) (edges canvasData) with
  | None =>
      (canvasData, failure ("Edge with ID " ++ dq ++ id ++ dq ++ " not found"))
  | Some edgeIndex =>
      ({| nodes := nodes canvasData;
          edges := splice1 edgeIndex (edges canvasData) |},
       ok [id])
  end.

(** The [switch (operation.type)] of [executeCanvasOperation(s)]; its
    [default] branch is excluded by the type [CanvasOperation]. *)
Definition dispatch (canvasData : CanvasData) (operation : CanvasOperation)
  : CanvasData * OperationResult :=
  match operation with
  | OpAddNode op => executeAddNode canvasData op
  | OpUpdateNode op => executeUpdateNode canvasData op
  | OpDeleteNode id => executeDeleteNode canvasData id
  | OpAddEdge op => executeAddEdge canvasData op
  | OpDeleteEdge id => executeDeleteEdge canvasData id
  end.

(** Node ids are pairwise distinct and edge ids are pairwise distinct. *)
Definition uniqueIds (d : CanvasData) : Prop :=
  NoDup (map n_id (nodes d)) /\ NoDup (map e_id (edges d)).

(** Every edge of the document starts and ends at a node of the
    document. *)
Definition connected (d : CanvasData) : Prop :=
  forall e, In e (edges d) ->
    hasNode (e_fromNode e) d = true /\ hasNode (e_toNode e) d = true.

(** A small document used to run the executor: three nodes [A], [B], [C]
    and the edges [e1] (A to B), [e2] (C to A), [e3] (B to C). *)
Definition textNode (id : string) : CanvasNode :=
  {| n_id := id; n_type := KText;
     n_x := JInt 0; n_y := JInt 0; n_width := JInt 200; n_height := JInt 100;
     n_text := Some "note"; n_file := None; n_url := None; n_label := None;
     n_color := None |}.

Definition edgeOf (id from to : string) : CanvasEdge :=
  {| e_id := id; e_fromNode := from; e_toNode := to;
     e_fromSide := Some "right"; e_toSide := Some "left";
     e_label := None; e_color := None |}.

Definition triangle : CanvasData :=
  {| nodes := [textNode "A"; textNode "B"; textNode "C"];
     edges := [edgeOf "e1" "A" "B"; edgeOf "e2" "C" "A"; edgeOf "e3" "B" "C"] |}.

(** *** Canvas I/O and the batch executor *)

(** What [vault.getAbstractFileByPath] returns: a file, a folder or
    [null]. *)
Inductive AbstractFile : Type :=
| TFile (path : string)
| TFolder (path : string).

(** [s.endsWith(suffix)]. *)
Definition endsWith (s suffix : string) : bool :=
  Nat.leb (String.length suffix) (String.length s) &&
  String.eqb
    (substring (String.length s - String.length suffix) (String.length suffix) s)
    suffix.

(** One call of [writeCanvasFile], kept in a log beside the vault: the
    path, the document handed over, and the boolean the call returned. *)
Record WriteCall : Type := mkWriteCall {
  wc_path : string;
  wc_data : CanvasData;
  wc_ok : bool
}.

Record BatchResult : Type := mkBatch {
  results : list OperationResult;
  allSuccess : bool
}.

Section CanvasIO.

(** The vault and the JSON functions are outside the canvas tools; they are
    the parameters of this section.  For [vault_read] and [JSON_parse],
    [None] stands for a rejected promise or a thrown exception, which the
    [try]/[catch] of [readCanvasFile] turns into [null].  [vault_modify]
    returns the vault it leaves behind and whether it resolved; the
    [try]/[catch] of [writeCanvasFile] turns a rejection into [false]. *)
Variable Vault : Type.
Variable getAbstractFileByPath : Vault -> string -> option AbstractFile.
Variable vault_read : Vault -> string -> option string.
Variable vault_modify : Vault -> string -> string -> Vault * bool.
Variable JSON_parse : string -> option CanvasData.
Variable JSON_stringify : CanvasData -> string.

Record World : Type := mkWorld {
  w_vault : Vault;
  w_writes : list WriteCall
}.

Definition readCanvasFile (vault : Vault) (canvasPath : string)
  : option CanvasData :=
  match getAbstractFileByPath vault canvasPath with
  | Some (TFile path) =>
      if negb (endsWith path ".canvas") then None
      else match vault_read vault path with
           | Some content => JSON_parse content
           | None => None
           end
  | _ => None
  end.

Definition writeCanvasFile (w : World) (canvasPath : string) (data : CanvasData)
  : World * bool :=
  let '(vault', written) :=
    match getAbstractFileByPath (w_vault w) canvasPath with
    | Some (TFile path) =>
        vault_modify (w_vault w) path (JSON_stringify data)
    | _ => (w_vault w, false)
    end in
  ({| w_vault := vault';
      w_writes := w_writes w ++ [mkWriteCall canvasPath data written] |},
   written).

(** The [for] loop of [executeCanvasOperations]: one step dispatches an
    operation on the shared document and pushes its result. *)
Definition batchStep (acc : CanvasData * list OperationResult)
    (operation : CanvasOperation) : CanvasData * list OperationResult :=
  let '(canvasData, results) := acc in
  let '(canvasData', result) := dispatch canvasData operation in
  (canvasData', results ++ [result]).

Definition runOperations (canvasData : CanvasData)
    (operations : list CanvasOperation) : CanvasData * list OperationResult :=
  fold_left batchStep operations (canvasData, []).

(** The callback of [results.map] after a failed write: a success becomes
    a failure with the write error and keeps its other fields ([...r]); a
    failure is returned as it is. *)
Definition downgrade (r : OperationResult) : OperationResult :=
  if success r then
    {| success := false;
       error := Some "Failed to write canvas file";
       affectedIds := affectedIds r |}
  else r.

Definition executeCanvasOperations (w : World) (canvasPath : string)
    (operations : list CanvasOperation) : World * BatchResult :=
  match readCanvasFile (w_vault w) canvasPath with
  | None =>
      (w, {| results := [failure ("Failed to read canvas: " ++ canvasPath)];
             allSuccess := false |})
  | Some canvasData =>
      let '(canvasData, results) := runOperations canvasData operations in
      let allSuccess := forallb success results in
      (* Only write if at least one operation succeeded *)
      if existsb success results then
        let '(w', writeSuccess) := writeCanvasFile w canvasPath canvasData in
        if negb writeSuccess then
          (w', {| results := map downgrade results; allSuccess := false |})
        else (w', {| results := results; allSuccess := allSuccess |})
      else (w, {| results := results; allSuccess := allSuccess |})
  end.

(** [executeCanvasOperation]: one operation, read and written back on its
    own.  The failure returned after a failed write is a fresh object: it
    has no [affectedIds]. *)
Definition executeCanvasOperation (w : World) (canvasPath : string)
    (operation : CanvasOperation) : World * OperationResult :=
  match readCanvasFile (w_vault w) canvasPath with
  | None => (w, failure ("Failed to read canvas: " ++ canvasPath))
  | Some canvasData =>
      let '(canvasData, result) := dispatch canvasData operation in
      if success result then
        let '(w', writeSuccess) := writeCanvasFile w canvasPath canvasData in
        if negb writeSuccess then (w', failure "Failed to write canvas file")
        else (w', result)
      else (w, result)
  end.

End CanvasIO.

(** A vault with one canvas file, [a.canvas], whose content parses to
    [triangle]; the vault is a boolean that tells whether [modify]
    succeeds.  Used to run the batch executor. *)
Definition toyFile (v : bool) (path : string) : option AbstractFile :=
  if String.eqb path "a.canvas" then Some (TFile path) else None.
Definition toyRead (v : bool) (path : string) : option string := Some "{}".
Definition toyModify (v : bool) (path content : string) : bool * bool := (v, v).
Definition toyParse (content : string) : option CanvasData := Some triangle.
Definition toyStringify (d : CanvasData) : string := "{}".

(** A world whose vault refuses to be modified, and a batch that adds the
    node [n1] twice. *)
Definition toyWorld : World bool := {| w_vault := false; w_writes := [] |}.

Definition sampleBatch : list CanvasOperation :=
  let addN1 :=
    OpAddNode (mkAddNode "n1" "text" (JInt 0) (JInt 0) (JInt 200) (JInt 100)
                         (Some "hello") None None None None) in
  [addN1; addN1].

(** A vault that keeps what is written: the files are the pairs of a path
    and a content, the pair written last coming first.  The text of a
    document is the list of its node ids, and the text [A,B,C] parses to
    [triangle]. *)
Definition Disk : Type := list (string * string).

Fixpoint diskRead (v : Disk) (path : string) : option string :=
  match v with
  | [] => None
  | (p, content) :: rest =>
      if String.eqb p path then Some content else diskRead rest path
  end.

Definition diskFile (v : Disk) (path : string) : option AbstractFile :=
  match diskRead v path with
  | Some _ => Some (TFile path)
  | None => None
  end.

Definition diskModify (v : Disk) (path content : string) : Disk * bool :=
  ((path, content) :: v, true).

Definition diskStringify (d : CanvasData) : string :=
  String.concat "," (map n_id (nodes d)).

Definition diskParse (content : string) : option CanvasData :=
  if String.eqb content "A,B,C" then Some triangle else None.

Definition diskWorld : World Disk :=
  {| w_vault := [("a.canvas", "A,B,C")]; w_writes := [] |}.

End Executor.

(** ** The canvas loader: synthetic group edges ([CanvasLoader.ts]) *)

Module Loader.

Inductive NodeType : Type := file | text | link | group.

(** [RichNode].  The coordinates are JavaScript numbers read from JSON:
    binary64 floating-point numbers, with their rounding, infinities and
    [NaN]. *)
Record RichNode : Type := mkRichNode {
  id : string;
  x : float;
  y : float;
  width : float;
  height : float;
  type : NodeType;
  label : option string;
  color : option string;
  url : option string;
  nfile : option string;
  ntext : option string;
  content : string
}.

Record CanvasEdge : Type := mkCanvasEdge {
  eid : string;
  fromNode : string;
  toNode : string;
  fromSide : option string;
  toSide : option string;
  elabel : option string
}.

Definition isGroup (n : RichNode) : bool :=
  match type n with group => true | _ => false end.

(** [a >= b] on numbers is [b <= a], false when either is [NaN]. *)
Definition geb (a b : float) : bool := (b <=? a)%float.

(** The test of lines 122-125: the centre of [n] against the rectangle of
    [g], in floating-point arithmetic. *)
Definition inside (g n : RichNode) : bool :=
  let nodeX := (x n + width n / 2)%float in
  let nodeY := (y n + height n / 2)%float in
  geb nodeX (x g) && geb nodeY (y g) &&
  (nodeX <=? x g + width g)%float && (nodeY <=? y g + height g)%float.

Section DeriveGroupEdges.

(** [crypto.randomUUID()]: the identifier returned by the [k]-th call.  The
    number of calls made so far is threaded beside the [edges] array. *)
Variable randomUUID : nat -> string.

(** The body of the inner loop, for one group [g] and one node [n]. *)
Definition visitNode (g : RichNode) (acc : list CanvasEdge * nat)
    (n : RichNode) : list CanvasEdge * nat :=
  let '(edges, calls) := acc in
  if String.eqb (id n) (id g) then acc
  else if inside g n then
    (edges ++ [{| eid := randomUUID calls;
                  fromNode := id g;
                  toNode := id n;
                  fromSide := None;
                  toSide := None;
                  elabel := Some "contains" |}],
     S calls)
  else acc.

Definition deriveGroupEdges (nodes : list RichNode)
    (edges : list CanvasEdge) (calls : nat) : list CanvasEdge * nat :=
  let groups := filter isGroup nodes in
  fold_left (fun acc g => fold_left (visitNode g) nodes acc) groups
            (edges, calls).

(** The node [n] is visited for the group [g] and passes the test. *)
Definition contained (g n : RichNode) : bool :=
  negb (String.eqb (id n) (id g)) && inside g n.

(** The pairs (group, contained node) in the order the loops meet them. *)
Definition containments (nodes : list RichNode) : list (RichNode * RichNode) :=
  flat_map (fun g => map (pair g) (filter (contained g) nodes))
           (filter isGroup nodes).

(** The synthetic edges for a list of pairs, the first of them getting the
    identifier of call number [calls]. *)
Fixpoint containsEdges (calls : nat) (ps : list (RichNode * RichNode))
  : list CanvasEdge :=
  match ps with
  | [] => []
  | (g, n) :: rest =>
      {| eid := randomUUID calls; fromNode := id g; toNode := id n;
         fromSide := None; toSide := None; elabel := Some "contains" |}
      :: containsEdges (S calls) rest
  end.

End DeriveGroupEdges.

(** [{ ...n, content: c }]. *)
Definition withContent (n : RichNode) (c : string) : RichNode :=
  {| id := id n; x := x n; y := y n; width := width n; height := height n;
     type := type n; label := label n; color := color n; url := url n;
     nfile := nfile n; ntext := ntext n; content := c |}.

(** The [byId] object is a plain object made by [Object.fromEntries]: it
    has one own property per node id, defined in the order of the array,
    so that a later node replaces an earlier one of the same id, and it
    inherits from [Object.prototype].  [ownProperty] is the own property
    of a key, if any. *)
Fixpoint ownProperty (key : string) (entries : list (string * RichNode))
  : option RichNode :=
  match entries with
  | [] => None
  | (k, n) :: rest =>
      match ownProperty key rest with
      | Some m => Some m
      | None => if String.eqb k key then Some n else None
      end
  end.

(** The property names of [Object.prototype]. *)
Definition objectPrototypeNames : list string :=
  ["constructor"; "hasOwnProperty"; "isPrototypeOf"; "propertyIsEnumerable";
   "toLocaleString"; "toString"; "valueOf"; "__proto__";
   "__defineGetter__"; "__defineSetter__"; "__lookupGetter__";
   "__lookupSetter__"].

(** What reading a property of [byId] gives: a node, the member of
    [Object.prototype] of that name, or [undefined]. *)
Inductive Property : Type :=
| OwnNode (n : RichNode)
| Inherited (name : string)
| Undefined.

(** [byId[key]]: the own property, or else what the prototype has. *)
Definition lookupById (key : string) (entries : list (string * RichNode))
  : Property :=
  match ownProperty key entries with
  | Some n => OwnNode n
  | None =>
      if existsb (String.eqb key) objectPrototypeNames then Inherited key
      else Undefined
  end.

Record CanvasData : Type := mkCanvasData {
  nodes : list RichNode;
  edges : list CanvasEdge;
  byId : list (string * RichNode)
}.

Section Load.

(** The vault and [JSON.parse] are parameters.  [None] stands for a
    rejected promise or a thrown exception, which [load] lets through: the
    model of [load] then returns [None].  [JSON_parse] returns the [nodes]
    and [edges] properties of the parsed object, each possibly absent; a
    parsed node is a [RichNode] whose [content] is overwritten. *)
Variable Vault : Type.
Variable vault_read : Vault -> string -> option string.
Variable vault_cachedRead : Vault -> string -> option string.
Variable getAbstractFileByPath : Vault -> string -> option Executor.AbstractFile.
Variable JSON_parse :
  string -> option (option (list RichNode) * option (list CanvasEdge)).
Variable randomUUID : nat -> string.

(** The callback of [nodes.map] in [load]. *)
Definition enrich (vault : Vault) (n : RichNode) : option RichNode :=
  match type n, nfile n with
  | file, Some (String c rest) =>
      match getAbstractFileByPath vault (String c rest) with
      | Some (Executor.TFile path) =>
          match vault_cachedRead vault path with
          | Some md => Some (withContent n md)
          | None => None
          end
      | _ => Some (withContent n EmptyString)
      end
  | text, _ =>
      Some (withContent n
              (match ntext n with Some t => t | None => EmptyString end))
  | _, _ => Some (withContent n EmptyString)
  end.

(** [Promise.all]: all the results, or a rejection. *)
Fixpoint promiseAll {A : Type} (l : list (option A)) : option (list A) :=
  match l with
  | [] => Some []
  | None :: _ => None
  | Some a :: rest =>
      match promiseAll rest with
      | Some r => Some (a :: r)
      | None => None
      end
  end.

(** [load]; [path] is the path of the [TFile] argument and [calls] the
    number of identifiers [crypto.randomUUID] has produced so far. *)
Definition load (vault : Vault) (path : string) (calls : nat)
  : option (CanvasData * nat) :=
  match vault_read vault path with
  | None => None
  | Some raw =>
      match JSON_parse raw with
      | None => None
      | Some (parsedNodes, parsedEdges) =>
          let nodes := match parsedNodes with Some l => l | None => [] end in
          let edges := match parsedEdges with Some l => l | None => [] end in
          match promiseAll (map (enrich vault) nodes) with
          | None => None
          | Some richNodes =>
              let '(allEdges, calls') :=
                deriveGroupEdges randomUUID richNodes edges calls in
              Some ({| nodes := richNodes; edges := allEdges;
                       byId := map (fun n => (id n, n)) richNodes |},
                    calls')
          end
      end
  end.

End Load.

(** Two overlapping groups and a card whose centre is the top-left corner
    of the first group and lies inside the second one. *)
Definition sampleNode (i : string) (t : NodeType) (px py w h : float)
  : RichNode :=
  {| id := i; x := px; y := py; width := w; height := h; type := t;
     label := None; color := None; url := None; nfile := None;
     ntext := None; content := EmptyString |}.

Definition sampleNodes : list RichNode :=
  [sampleNode "g1" group 0 0 100 100;
   sampleNode "g2" group (-50) (-50) 80 80;
   sampleNode "card" text (-10) (-10) 20 20].

(** A group and two nodes that share the id [n]: the centre of the first
    is in the group, the centre of the second is not. *)
Definition twinNodes : list RichNode :=
  [sampleNode "g" group 0 0 100 100;
   sampleNode "n" text 40 40 20 20;
   sampleNode "n" text 500 500 20 20].

(** A group that spans 0 to 2^53 and a node at 2^53 of width 2: the
    centre of the node is 2^53 + 1 as a real number and 2^53 as a double. *)
Definition wideNodes : list RichNode :=
  [sampleNode "g" group 0 0 9007199254740992 9007199254740992;
   sampleNode "n" text 9007199254740992 0 2 0].

(** A generator that never repeats itself: the [k]-th identifier is [k]
    times the letter [u]. *)
Definition tallyUUID (k : nat) : string :=
  string_of_list_ascii (repeat "u"%char k).

Definition sampleUUID (k : nat) : string :=
  match k with 0 => "u0" | 1 => "u1" | _ => "u2" end.

(** A vault for running [load]: every path names a file, the canvas file
    parses to a file node, a text node and a group, and the vault is a
    boolean that tells whether notes can be read. *)
Definition toyCanvasNodes : list RichNode :=
  [{| id := "doc"; x := 0; y := 0; width := 10; height := 10; type := file;
      label := None; color := None; url := None; nfile := Some "a.md";
      ntext := None; content := EmptyString |};
   {| id := "card"; x := 0; y := 0; width := 10; height := 10; type := text;
      label := None; color := None; url := None; nfile := None;
      ntext := Some "hello"; content := EmptyString |};
   sampleNode "box" group 0 0 100 100].

Definition toyLoad (notesReadable : bool) : option (CanvasData * nat) :=
  load bool
    (fun _ _ => Some "{}")
    (fun v _ => if v then Some "# note" else None)
    (fun _ p => Some (Executor.TFile p))
    (fun _ => Some (Some toyCanvasNodes, None))
    sampleUUID notesReadable "c.canvas" 0.

End Loader.

(** ** The streaming parser ([CanvasOperationStreamer.ts]) *)

Module Streamer.

(** *** Regular expressions

    The constructs that occur in the patterns of the streamer, with the
    backtracking semantics of ECMAScript: a sequence, the greedy
    quantifiers [*], [+] and [?], capture groups and the negative
    lookahead [(?! )].  The matcher is written in continuation-passing
    style, as the specification of the language is: the continuation is
    what remains of the pattern, and a quantifier first tries one more
    iteration and falls back to the continuation when that fails. *)

Inductive regex : Type :=
| Eps
| Chr (c : ascii)
| Cls (p : ascii -> bool)
| Seq (r1 r2 : regex)
| Star (r : regex)
| Opt (r : regex)
| Grp (n : nat) (r : regex)
| NotAhead (r : regex).

Definition plus (r : regex) : regex := Seq r (Star r).

Fixpoint lit (s : string) : regex :=
  match s with
  | EmptyString => Eps
  | String c rest => Seq (Chr c) (lit rest)
  end.

Definition seqs (rs : list regex) : regex := fold_right Seq Eps rs.

(** Captures: the most recent binding of a group comes first. *)
Definition caps : Type := list (nat * list ascii).

Fixpoint capture (n : nat) (c : caps) : option (list ascii) :=
  match c with
  | [] => None
  | (m, v) :: rest => if Nat.eqb m n then Some v else capture n rest
  end.

Definition MatchState : Type := (list ascii * caps)%type.
Definition Continuation : Type := list ascii -> caps -> option MatchState.

(** The iterations of a greedy [*] whose body is matched by [body]: try one
    more iteration, which must consume something, and fall back to the
    continuation [k].  An iteration that consumes nothing is rejected, as
    in ECMAScript; so [length s] iterations are all a [*] can make on [s],
    and [n] counts them down from there. *)
Fixpoint starLoop
    (body : list ascii -> caps -> Continuation -> option MatchState)
    (k : Continuation) (n : nat) (s : list ascii) (c : caps)
  : option MatchState :=
  match n with
  | 0 => k s c
  | S n' =>
      match body s c
              (fun s' c' =>
                 if Nat.ltb (length s') (length s)
                 then starLoop body k n' s' c'
                 else None) with
      | Some res => Some res
      | None => k s c
      end
  end.

(** [rmatch r s c k]: match [r] at the head of [s], then continue with [k]
    on what is left. *)
Fixpoint rmatch (r : regex) (s : list ascii) (c : caps) (k : Continuation)
  {struct r} : option MatchState :=
  match r with
  | Eps => k s c
  | Chr a =>
      match s with
      | b :: s' => if Ascii.eqb a b then k s' c else None
      | [] => None
      end
  | Cls p =>
      match s with
      | b :: s' => if p b then k s' c else None
      | [] => None
      end
  | Seq r1 r2 => rmatch r1 s c (fun s' c' => rmatch r2 s' c' k)
  | Star r1 => starLoop (rmatch r1) k (length s) s c
  | Opt r1 =>
      match rmatch r1 s c
              (fun s' c' =>
                 if Nat.ltb (length s') (length s) then k s' c' else None) with
      | Some res => Some res
      | None => k s c
      end
  | Grp n r1 =>
      rmatch r1 s c
        (fun s' c' => k s' ((n, firstn (length s - length s') s) :: c'))
  | NotAhead r1 =>
      match rmatch r1 s c (fun s' c' => Some (s', c')) with
      | Some _ => None
      | None => k s c
      end
  end.

(** A pattern that cannot match the empty text: some character of it has
    to be read. *)
Fixpoint consuming (r : regex) : bool :=
  match r with
  | Chr _ | Cls _ => true
  | Seq r1 r2 => consuming r1 || consuming r2
  | Grp _ r1 => consuming r1
  | Eps | Star _ | Opt _ | NotAhead _ => false
  end.

(** [s'] is what a match of [r] on [s] leaves: not longer than [s], and
    shorter when [r] is consuming. *)
Definition shrinks (r : regex) (s s' : list ascii) : Prop :=
  length s' <= length s /\ (consuming r = true -> length s' < length s).

(** The result of [RegExp.prototype.exec]: where the match starts, the
    matched text [match[0]], the captures, and where it ends (the new
    [lastIndex] of a global pattern). *)
Record RegExpMatch : Type := mkMatch {
  m_index : nat;
  m_text : list ascii;
  m_groups : caps;
  m_end : nat
}.

(** The text of group [n], the empty text if the group did not take part. *)
Definition group (n : nat) (m : RegExpMatch) : list ascii :=
  match capture n (m_groups m) with
  | Some v => v
  | None => []
  end.

(** Try the positions [i], [i+1], ... of the input in turn; [s] is the
    input from position [i] on. *)
Fixpoint search (r : regex) (s : list ascii) (i : nat) : option RegExpMatch :=
  match rmatch r s [] (fun s' c' => Some (s', c')) with
  | Some (s', c') =>
      let n := length s - length s' in
      Some {| m_index := i; m_text := firstn n s;
              m_groups := c'; m_end := i + n |}
  | None =>
      match s with
      | [] => None
      | _ :: s' => search r s' (S i)
      end
  end.

(** [pattern.exec(input)] for a global pattern whose [lastIndex] is
    [lastIndex]. *)
Definition exec (pattern : regex) (input : list ascii) (lastIndex : nat)
  : option RegExpMatch :=
  if Nat.ltb (length input) lastIndex then None
  else search pattern (skipn lastIndex input) lastIndex.

(** *** Character classes and string helpers *)

Definition code (c : ascii) : nat := nat_of_ascii c.

(** White space and line terminators among the code units 0..255: this is
    [\s], and what [trim] and [parseInt] skip. *)
Definition isWhite (c : ascii) : bool :=
  existsb (Nat.eqb (code c)) [9; 10; 11; 12; 13; 32; 160].

Definition isDigit (c : ascii) : bool :=
  Nat.leb 48 (code c) && Nat.leb (code c) 57.

(** [\w]. *)
Definition isWord (c : ascii) : bool :=
  isDigit c
  || (Nat.leb 65 (code c) && Nat.leb (code c) 90)
  || (Nat.leb 97 (code c) && Nat.leb (code c) 122)
  || Nat.eqb (code c) 95.

(** [[^a]]. *)
Definition isNot (a : ascii) (c : ascii) : bool := negb (Ascii.eqb c a).

Definition ws : regex := Cls isWhite.

Fixpoint skipWhite (s : list ascii) : list ascii :=
  match s with
  | c :: rest => if isWhite c then skipWhite rest else s
  | [] => []
  end.

(** [s.trim()]. *)
Definition trim (s : list ascii) : list ascii :=
  rev (skipWhite (rev (skipWhite s))).

Fixpoint isPrefix (p s : list ascii) : bool :=
  match p, s with
  | [], _ => true
  | a :: p', b :: s' => Ascii.eqb a b && isPrefix p' s'
  | _ :: _, [] => false
  end.

(** [s.replace(p, empty)] for a string [p]: the first occurrence of [p] is
    removed. *)
Fixpoint replaceFirst (p s : list ascii) : list ascii :=
  if isPrefix p s then skipn (length p) s
  else match s with
       | [] => []
       | c :: rest => c :: replaceFirst p rest
       end.

(** [b'] is [b] with one occurrence of the text [t] taken out. *)
Definition CutOut (t b b' : list ascii) : Prop :=
  exists pre post, b = pre ++ t ++ post /\ b' = pre ++ post.

(** [b'] is what is left of [b] when the texts [ts] are taken out of it,
    one after the other. *)
Fixpoint CutAll (ts : list (list ascii)) (b b' : list ascii) : Prop :=
  match ts with
  | [] => b' = b
  | t :: rest => exists b1, CutOut t b b1 /\ CutAll rest b1 b'
  end.

(** A text that runs from a [<] to a [>]. *)
Definition isTag (t : list ascii) : Prop :=
  exists body, t = "<"%char :: body ++ [">"%char].

(** The longest prefix of decimal digits, and the rest. *)
Fixpoint spanDigits (s : list ascii) : list ascii * list ascii :=
  match s with
  | c :: rest =>
      if isDigit c then let '(ds, r) := spanDigits rest in (c :: ds, r)
      else ([], s)
  | [] => ([], [])
  end.

(** The mathematical integer a run of decimal digits denotes: what
    [parseInt] computes before it turns it into a Number. *)
Definition digitsValue (ds : list ascii) : Z :=
  fold_left (fun acc c => (10 * acc + Z.of_nat (code c - 48))%Z) ds 0%Z.

(** The value of the double nearest to a positive integer [a], a tie
    going to the even mantissa: [a] itself when it has at most 53 bits;
    otherwise its 53 leading bits, rounded up or down by the bits that are
    cut off, followed by as many zero bits. *)
Definition nearestDouble (a : Z) : Z :=
  let e := (Z.log2 a - 52)%Z in
  if (e <=? 0)%Z then a
  else
    let mantissa := (a / 2 ^ e)%Z in
    let cut := (a mod 2 ^ e)%Z in
    let half := (2 ^ (e - 1))%Z in
    let up := (half <? cut)%Z || ((half =? cut)%Z && Z.odd mantissa) in
    ((if up then mantissa + 1 else mantissa) * 2 ^ e)%Z.

(** The Number for an integer given by its sign and its magnitude, the
    last step of [parseInt]: [-0] for a zero with a minus sign, the
    nearest double otherwise, which is an infinity from 2^1024 on (the
    largest double is 2^1024 - 2^971). *)
Definition toNumber (negative : bool) (mathInt : Z) : jsnum :=
  if (mathInt =? 0)%Z then (if negative then JNegZero else JInt 0)
  else
    let r := nearestDouble mathInt in
    if (2 ^ 1024 <=? r)%Z then JInfinity negative
    else JInt (if negative then - r else r).

(** The number a binary64 value of the Standard Library denotes, for the
    values [toNumber] is compared with: zeros, infinities and finite
    values with a non-negative exponent or an integer value. *)
Definition specNumber (f : spec_float) : jsnum :=
  match f with
  | S754_zero s => if s then JNegZero else JInt 0
  | S754_infinity s => JInfinity s
  | S754_nan => JNaN
  | S754_finite s m e =>
      let magnitude :=
        if (0 <=? e)%Z then (Z.pos m * 2 ^ e)%Z else (Z.pos m / 2 ^ (- e))%Z in
      JInt (if s then - magnitude else magnitude)
  end.

(** Integers on which [toNumber] is compared with the rounding of the
    Standard Library's binary64: small ones, the first integers a double
    cannot hold, ties, and the neighbourhood of the largest double. *)
Definition roundingSamples : list Z :=
  [0; 1; 42; 200; 2 ^ 53 - 1; 2 ^ 53; 2 ^ 53 + 1; 2 ^ 53 + 2; 2 ^ 53 + 3;
   2 ^ 54 + 2; 2 ^ 54 + 3; 2 ^ 54 + 6; 10 ^ 22; 10 ^ 23; 10 ^ 30 + 7;
   2 ^ 1024 - 2 ^ 971; 2 ^ 1024 - 2 ^ 970 - 1; 2 ^ 1024 - 2 ^ 970;
   2 ^ 1024; 10 ^ 400]%Z.

(** [parseInt(s, 10)]: leading white space is skipped, one sign is read,
    then the longest run of decimal digits; no digit gives [NaN].  The
    result is the Number for the integer the digits denote, with the
    sign: that integer up to 2^53, the nearest double beyond.  (The
    language lets an engine round less exactly from the 21st significant
    digit on; V8 rounds to the nearest double.) *)
Definition parseInt (s : string) : jsnum :=
  let s := skipWhite (list_ascii_of_string s) in
  let '(negative, s) :=
    match s with
    | c :: rest =>
        if Ascii.eqb c "-" then (true, rest)
        else if Ascii.eqb c "+" then (false, rest)
        else (false, s)
    | [] => (false, s)
    end in
  match fst (spanDigits s) with
  | [] => JNaN
  | ds => toNumber negative (digitsValue ds)
  end.

(** The text of a sign: a minus, a plus, or nothing. *)
Definition signText (negative plusSign : bool) : list ascii :=
  if negative then ["-"%char] else if plusSign then ["+"%char] else [].

(** What a numeric field [v] of an [add_node] operation is, given the
    attribute [a] it is read from and its default.  An attribute value is
    white space [w], a sign, digits [ds] and a rest, each possibly empty.

    - The attribute is absent or empty: [v] is the default.
    - There are digits: [v] is the Number for the integer they denote,
      with the sign.  Up to 2^53 it is that integer ([-0] for a zero
      with a minus sign); beyond, it is an infinity or a double that
      differs from the integer by at most half the weight of the last of
      the 53 leading bits.
    - There are none (the value is not parsable as an integer): [v] is
      [NaN]. *)
Definition numericAttribute (a : option string) (default : Z) (v : jsnum)
  : Prop :=
  (a = None \/ a = Some EmptyString -> v = JInt default)
  /\ (forall (w : list ascii) (negative plusSign : bool)
             (ds rest : list ascii),
        a = Some (string_of_list_ascii
                    (w ++ signText negative plusSign ++ ds ++ rest)) ->
        forallb isWhite w = true ->
        ds <> [] -> forallb isDigit ds = true ->
        match rest with [] => True | c :: _ => isDigit c = false end ->
        v = toNumber negative (digitsValue ds)
        /\ ((0 < digitsValue ds <= 2 ^ 53)%Z ->
            v = JInt ((if negative then -1 else 1) * digitsValue ds))
        /\ (digitsValue ds = 0%Z ->
            v = if negative then JNegZero else JInt 0)
        /\ ((2 ^ 53 < digitsValue ds)%Z ->
            v = JInfinity negative
            \/ exists r,
                 v = JInt ((if negative then -1 else 1) * r)
                 /\ (2 * Z.abs (r - digitsValue ds)
                     <= 2 ^ (Z.log2 (digitsValue ds) - 52))%Z
                 /\ (r mod 2 ^ (Z.log2 (digitsValue ds) - 52) = 0)%Z))
  /\ (forall (w : list ascii) (negative plusSign : bool) (rest : list ascii),
        a = Some (string_of_list_ascii
                    (w ++ signText negative plusSign ++ rest)) ->
        w ++ signText negative plusSign ++ rest <> [] ->
        forallb isWhite w = true ->
        match rest with
        | [] => True
        | c :: _ =>
            isDigit c = false
            /\ (signText negative plusSign = [] ->
                isWhite c = false /\ c <> "+"%char /\ c <> "-"%char)
        end ->
        v = JNaN).

(** *** Attributes *)

Definition str (s : list ascii) : string := string_of_list_ascii s.

(** The [attrs] object: the binding added last comes first and hides an
    older one of the same key. *)
Definition Attrs : Type := list (string * string).

Fixpoint attr (key : string) (attrs : Attrs) : option string :=
  match attrs with
  | [] => None
  | (k, v) :: rest => if String.eqb k key then Some v else attr key rest
  end.

(** The pattern of [parseAttributes]: one or more word characters in
    group 1, an equals sign, a double quote, any characters other than a
    double quote in group 2, a double quote (global). *)
Definition attrPattern : regex :=
  seqs [Grp 1 (plus (Cls isWord)); Chr "="; Chr dquote;
        Grp 2 (Star (Cls (isNot dquote))); Chr dquote].

(** The [while] loop of [parseAttributes].  [fuel] bounds the number of
    calls of [exec]; [None] means the bound was too small, which
    [parseAttributes] excludes by its choice of the bound. *)
Fixpoint parseAttributesLoop (fuel : nat) (tagContent : list ascii)
    (lastIndex : nat) (attrs : Attrs) : option Attrs :=
  match fuel with
  | 0 => None
  | S fuel' =>
      match exec attrPattern tagContent lastIndex with
      | None => Some attrs
      | Some m =>
          parseAttributesLoop fuel' tagContent (m_end m)
            ((str (group 1 m), str (group 2 m)) :: attrs)
      end
  end.

Definition parseAttributes (tagContent : list ascii) : option Attrs :=
  parseAttributesLoop (S (S (length tagContent))) tagContent 0 [].

(** *** The six tag shapes *)

(** The pattern for [add_node] with inner content: the text [<add_node],
    white space, one or more characters other than [>] in group 1, [>],
    then group 2: characters other than [<], followed by any number of
    pieces made of a [<] that does not start [</add_node>] and characters
    other than [<]; then the text [</add_node>] (global). *)
Definition addNodeWithContentPattern : regex :=
  seqs [lit "<add_node"; plus ws; Grp 1 (plus (Cls (isNot ">"))); Chr ">";
        Grp 2 (Seq (Star (Cls (isNot "<")))
                   (Star (seqs [Chr "<"; NotAhead (lit "/add_node>");
                                Star (Cls (isNot "<"))])));
        lit "</add_node>"].

(** The five self-closing patterns: the tag text, white space, one or more
    characters other than [/] in group 1, the text [/>] (global). *)
Definition selfClosing (tag : string) : regex :=
  seqs [lit tag; plus ws; Grp 1 (plus (Cls (isNot "/"))); lit "/>"].

Definition addNodeSelfClosingPattern : regex := selfClosing "<add_node".
Definition updateNodePattern : regex := selfClosing "<update_node".
Definition deleteNodePattern : regex := selfClosing "<delete_node".
Definition addEdgePattern : regex := selfClosing "<add_edge".
Definition deleteEdgePattern : regex := selfClosing "<delete_edge".

(** The pattern of the [canvas_edit] tag: the text [<canvas_edit], white
    space, [path=], a quoted non-empty text in group 1, and optionally
    white space, [summary=] and a quoted text in group 2. *)
Definition canvasEditPattern : regex :=
  seqs [lit "<canvas_edit"; plus ws; lit "path="; Chr dquote;
        Grp 1 (plus (Cls (isNot dquote))); Chr dquote;
        Opt (seqs [plus ws; lit "summary="; Chr dquote;
                   Grp 2 (Star (Cls (isNot dquote))); Chr dquote])].

(** The body of each [while] loop, after [parseAttributes]: the operation
    to push, or [None] when the required attributes are missing.  The
    second component counts the identifiers generated so far. *)
Definition Builder : Type :=
  Attrs -> RegExpMatch -> nat -> option (CanvasOperation * nat).

Definition addNodeOf (attrs : Attrs) (content : option string)
  : AddNodeOperation :=
  {| an_id := defined (attr "id" attrs);
     an_nodeType := defined (attr "type" attrs);
     an_x := parseInt (or_else (attr "x" attrs) "0");
     an_y := parseInt (or_else (attr "y" attrs) "0");
     an_width := parseInt (or_else (attr "width" attrs) "200");
     an_height := parseInt (or_else (attr "height" attrs) "100");
     an_content := content;
     an_file := or_undefined (attr "file" attrs);
     an_url := or_undefined (attr "url" attrs);
     an_label := or_undefined (attr "label" attrs);
     an_color := or_undefined (attr "color" attrs) |}.

Definition buildAddNodeWithContent : Builder := fun attrs m gen =>
  let innerContent := str (trim (group 2 m)) in
  if truthy (attr "id" attrs) && truthy (attr "type" attrs) then
    Some (OpAddNode (addNodeOf attrs (or_undefined (Some innerContent))), gen)
  else None.

Definition buildAddNodeSelfClosing : Builder := fun attrs _ gen =>
  if truthy (attr "id" attrs) && truthy (attr "type" attrs) then
    Some (OpAddNode (addNodeOf attrs None), gen)
  else None.

Definition buildUpdateNode : Builder := fun attrs _ gen =>
  if truthy (attr "id" attrs) then
    Some (OpUpdateNode
            {| un_id := defined (attr "id" attrs);
               un_updates :=
                 {| u_x := option_map parseInt (attr "x" attrs);
                    u_y := option_map parseInt (attr "y" attrs);
                    u_width := option_map parseInt (attr "width" attrs);
                    u_height := option_map parseInt (attr "height" attrs);
                    u_content := attr "content" attrs;
                    u_color := attr "color" attrs;
                    u_label := attr "label" attrs |} |},
          gen)
  else None.

Definition buildDeleteNode : Builder := fun attrs _ gen =>
  if truthy (attr "id" attrs) then
    Some (OpDeleteNode (defined (attr "id" attrs)), gen)
  else None.

Definition buildDeleteEdge : Builder := fun attrs _ gen =>
  if truthy (attr "id" attrs) then
    Some (OpDeleteEdge (defined (attr "id" attrs)), gen)
  else None.

Section Extraction.

(** The identifier built from [Date.now()] and [Math.random()] for an
    [add_edge] tag without [id]: [generatedEdgeId k] is the one the [k]-th
    evaluation of the template produces. *)
Variable generatedEdgeId : nat -> string.

Definition buildAddEdge : Builder := fun attrs _ gen =>
  if truthy (attr "from" attrs) && truthy (attr "to" attrs) then
    let '(id, gen') :=
      if truthy (attr "id" attrs) then (defined (attr "id" attrs), gen)
      else (generatedEdgeId gen, S gen) in
    Some (OpAddEdge
            {| ae_id := id;
               ae_fromNode := defined (attr "from" attrs);
               ae_toNode := defined (attr "to" attrs);
               ae_fromSide := or_undefined (attr "fromSide" attrs);
               ae_toSide := or_undefined (attr "toSide" attrs);
               ae_label := or_undefined (attr "label" attrs);
               ae_color := or_undefined (attr "color" attrs) |},
          gen')
  else None.

(** What one [while] loop works on: [this.buffer], the [lastIndex] of its
    pattern, the [operations] array and the count of generated ids. *)
Record Scan : Type := mkScan {
  sc_buffer : list ascii;
  sc_lastIndex : nat;
  sc_operations : list CanvasOperation;
  sc_generated : nat
}.

(** [while ((match = pattern.exec(this.buffer)) !== null) { ... }].  A
    match that yields an operation is removed from the buffer and the scan
    restarts at 0; a match that yields none stays and the scan goes on
    behind it.  When [exec] fails it resets [lastIndex] to 0. [fuel] bounds
    the number of iterations; [None] means the bound was too small. *)
Fixpoint whileExec (fuel : nat) (pattern : regex) (build : Builder)
    (st : Scan) : option Scan :=
  match fuel with
  | 0 => None
  | S fuel' =>
      match exec pattern (sc_buffer st) (sc_lastIndex st) with
      | None =>
          Some {| sc_buffer := sc_buffer st; sc_lastIndex := 0;
                  sc_operations := sc_operations st;
                  sc_generated := sc_generated st |}
      | Some m =>
          match parseAttributes (group 1 m) with
          | None => None
          | Some attrs =>
              match build attrs m (sc_generated st) with
              | Some (op, gen') =>
                  whileExec fuel' pattern build
                    {| sc_buffer := replaceFirst (m_text m) (sc_buffer st);
                       sc_lastIndex := 0;
                       sc_operations := sc_operations st ++ [op];
                       sc_generated := gen' |}
              | None =>
                  whileExec fuel' pattern build
                    {| sc_buffer := sc_buffer st;
                       sc_lastIndex := m_end m;
                       sc_operations := sc_operations st;
                       sc_generated := sc_generated st |}
              end
          end
      end
  end.

(** [Exhausted pattern build buffer gen i]: scanning [buffer] with
    [pattern] from position [i] on meets only matches from which [build]
    makes no operation, until [exec] finds nothing: this is the state in
    which the [while] loop ends. *)
Inductive Exhausted (pattern : regex) (build : Builder)
    (buffer : list ascii) (gen : nat) : nat -> Prop :=
| exhausted_end (i : nat) :
    exec pattern buffer i = None ->
    Exhausted pattern build buffer gen i
| exhausted_skip (i : nat) (m : RegExpMatch) (attrs : Attrs) :
    exec pattern buffer i = Some m ->
    parseAttributes (group 1 m) = Some attrs ->
    build attrs m gen = None ->
    Exhausted pattern build buffer gen (m_end m) ->
    Exhausted pattern build buffer gen i.

(** [op] is an operation that [build] makes from the attributes [attrs] of
    a match [m] of [pattern]. *)
Definition BuiltFrom (pattern : regex) (build : Builder)
    (m : RegExpMatch) (attrs : Attrs) (op : CanvasOperation) : Prop :=
  (exists input i, exec pattern input i = Some m)
  /\ parseAttributes (group 1 m) = Some attrs
  /\ exists gen gen', build attrs m gen = Some (op, gen').

Definition Built (pattern : regex) (build : Builder) (op : CanvasOperation)
  : Prop :=
  exists m attrs, BuiltFrom pattern build m attrs op.

(** [op] is the operation that one of the six loops makes from the match
    [m] of its pattern. *)
Definition TagOf (m : RegExpMatch) (op : CanvasOperation) : Prop :=
  exists attrs,
    BuiltFrom addNodeWithContentPattern buildAddNodeWithContent m attrs op
    \/ BuiltFrom addNodeSelfClosingPattern buildAddNodeSelfClosing m attrs op
    \/ BuiltFrom updateNodePattern buildUpdateNode m attrs op
    \/ BuiltFrom deleteNodePattern buildDeleteNode m attrs op
    \/ BuiltFrom addEdgePattern buildAddEdge m attrs op
    \/ BuiltFrom deleteEdgePattern buildDeleteEdge m attrs op.

(** A bound on the iterations of a loop started on a buffer of length [n]:
    every iteration either shortens the buffer or moves [lastIndex]
    forward. *)
Definition iterations (n : nat) : nat := S (n * n + 2 * n).

Definition scanShape (pattern : regex) (build : Builder) (st : Scan)
  : option Scan :=
  whileExec (iterations (length (sc_buffer st))) pattern build st.

(** The loop of one shape takes the scan from [st] to [st'], pushes the
    operations [l] and leaves the buffer exhausted for that shape. *)
Definition ScansShape (pattern : regex) (build : Builder) (st st' : Scan)
    (l : list CanvasOperation) : Prop :=
  scanShape pattern build st = Some st'
  /\ sc_operations st' = sc_operations st ++ l
  /\ sc_lastIndex st' = 0
  /\ Exhausted pattern build (sc_buffer st') (sc_generated st') 0.

Definition andThen (a : option Scan) (f : Scan -> option Scan) : option Scan :=
  match a with
  | Some st => f st
  | None => None
  end.

(** The streamer object. *)
Record Streamer : Type := mkStreamer {
  buffer : list ascii;
  currentCanvasPath : option string;
  summary : string;
  generated : nat
}.

(** The six loops of [extractCompletedOperations], in their order. *)
Definition extractCompletedOperations (this : Streamer)
  : option (Streamer * list CanvasOperation) :=
  let st := {| sc_buffer := buffer this; sc_lastIndex := 0;
               sc_operations := []; sc_generated := generated this |} in
  match
    andThen (scanShape addNodeWithContentPattern buildAddNodeWithContent st)
    (fun st => andThen (scanShape addNodeSelfClosingPattern buildAddNodeSelfClosing st)
    (fun st => andThen (scanShape updateNodePattern buildUpdateNode st)
    (fun st => andThen (scanShape deleteNodePattern buildDeleteNode st)
    (fun st => andThen (scanShape addEdgePattern buildAddEdge st)
    (fun st => scanShape deleteEdgePattern buildDeleteEdge st)))))
  with
  | Some st =>
      Some ({| buffer := sc_buffer st;
               currentCanvasPath := currentCanvasPath this;
               summary := summary this;
               generated := sc_generated st |},
            sc_operations st)
  | None => None
  end.

(** The first part of [processChunk]: the chunk is appended, then path and
    summary are taken from the [canvas_edit] tag unless already known. *)
Definition captureCanvasEdit (this : Streamer) : Streamer :=
  if negb (truthy (currentCanvasPath this)) || negb (truthy (Some (summary this)))
  then
    match exec canvasEditPattern (buffer this) 0 with
    | Some canvasEditMatch =>
        {| buffer := buffer this;
           currentCanvasPath :=
             if negb (truthy (currentCanvasPath this))
             then Some (str (group 1 canvasEditMatch))
             else currentCanvasPath this;
           summary :=
             if negb (truthy (Some (summary this)))
                && truthy (option_map str (capture 2 (m_groups canvasEditMatch)))
             then str (group 2 canvasEditMatch)
             else summary this;
           generated := generated this |}
    | None => this
    end
  else this.

(** [processChunk]: the operations the generator yields, in order, and the
    streamer it leaves behind. *)
Definition processChunk (this : Streamer) (chunk : string)
  : option (Streamer * list CanvasOperation) :=
  let this := {| buffer := buffer this ++ list_ascii_of_string chunk;
                 currentCanvasPath := currentCanvasPath this;
                 summary := summary this;
                 generated := generated this |} in
  extractCompletedOperations (captureCanvasEdit this).


(** [reset]: buffer, path and summary are cleared (the count of generated
    identifiers is not part of the object and goes on). *)
Definition reset (this : Streamer) : Streamer :=
  {| buffer := []; currentCanvasPath := None; summary := EmptyString;
     generated := generated this |}.

(** A fresh streamer ([new CanvasOperationStreamer()], or after [reset]). *)
Definition fresh : Streamer :=
  {| buffer := []; currentCanvasPath := None; summary := EmptyString; generated := 0 |}.

(** The scan a call of [processChunk] starts from. *)
Definition startScan (this : Streamer) (chunk : string) : Scan :=
  {| sc_buffer := buffer this ++ list_ascii_of_string chunk;
     sc_lastIndex := 0;
     sc_operations := [];
     sc_generated := generated this |}.

(** Feed the chunks one call after the other and collect what the calls
    yield. *)
Fixpoint feedAll (this : Streamer) (chunks : list string)
  : option (Streamer * list CanvasOperation) :=
  match chunks with
  | [] => Some (this, [])
  | chunk :: rest =>
      match processChunk this chunk with
      | None => None
      | Some (this', ops) =>
          match feedAll this' rest with
          | None => None
          | Some (this'', ops') => Some (this'', ops ++ ops')
          end
      end
  end.

End Extraction.

(** *** Utility functions *)

(** [s.includes(p)]. *)
Fixpoint includes (p s : list ascii) : bool :=
  isPrefix p s
  || match s with
     | [] => false
     | _ :: rest => includes p rest
     end.

Definition containsCanvasEdit (text : string) : bool :=
  includes (list_ascii_of_string "<canvas_edit") (list_ascii_of_string text).

(** The pattern of [extractCanvasPath]: the text [<canvas_edit], white
    space, [path=] and a quoted non-empty text in group 1. *)
Definition canvasPathPattern : regex :=
  seqs [lit "<canvas_edit"; plus ws; lit "path="; Chr dquote;
        Grp 1 (plus (Cls (isNot dquote))); Chr dquote].

Definition extractCanvasPath (text : string) : option string :=
  match exec canvasPathPattern (list_ascii_of_string text) 0 with
  | Some m => Some (str (group 1 m))
  | None => None
  end.

(** The text holds no [/]; an absent text holds none. *)
Definition slashFree (s : string) : Prop :=
  forallb (isNot "/") (list_ascii_of_string s) = true.

Definition slashFreeOpt (o : option string) : Prop :=
  match o with
  | Some s => slashFree s
  | None => True
  end.

(** The operation yielded for the tag [<add_node id=a type=group x=abc
    width=300/>] (attribute values in double quotes). *)
Definition groupWithBadX : AddNodeOperation :=
  mkAddNode "a" "group" JNaN (JInt 0) (JInt 300) (JInt 100)
            None None None None None.

(** The operation yielded for the tag [<add_node id=b type=group
    x=9007199254740993/>]: the attribute is 2^53 + 1, the field the
    double 2^53. *)
Definition groupWithBigX : AddNodeOperation :=
  mkAddNode "b" "group" (JInt 9007199254740992) (JInt 0) (JInt 200)
            (JInt 100) None None None None None.

(** A generator of edge ids used to run the streamer on examples. *)
Definition sampleEdgeId (k : nat) : string :=
  match k with 0 => "edge_1_a" | _ => "edge_2_b" end.

End Streamer.

(** * Properties *)

(** ** Arrays *)

Section ArrayFacts.
Import Executor.
Context {A : Type}.

Lemma findIndex_None (p : A -> bool) (l : list A) :
  findIndex p l = None <-> existsb p l = false.
Proof.
  induction l as [|a l IH]; simpl; [tauto|].
  destruct (p a); simpl; [split; discriminate|].
  destruct (findIndex p l); [|tauto].
  split; [discriminate|]. intros H. apply IH in H. discriminate.
Qed.

(** [findIndex] returns the position of the first element that satisfies
    the test. *)
Lemma findIndex_Some (p : A -> bool) (l : list A) (i : nat) :
  findIndex p l = Some i ->
  exists l1 a l2,
    l = l1 ++ a :: l2 /\ length l1 = i /\ p a = true /\
    (forall b, In b l1 -> p b = false).
Proof.
  revert i. induction l as [|a l IH]; simpl; intros i H; [discriminate|].
  destruct (p a) eqn:Hpa.
  - injection H as <-. exists [], a, l. repeat split; auto.
    intros b [].
  - destruct (findIndex p l) as [j|] eqn:Hj; [|discriminate].
    injection H as <-.
    destruct (IH j eq_refl) as (l1 & b & l2 & -> & Hlen & Hb & Hl1).
    exists (a :: l1), b, l2. repeat split; simpl; auto.
    intros c [<-|Hc]; auto.
Qed.

Lemma findIndex_found (p : A -> bool) (l : list A) :
  existsb p l = true -> exists i, findIndex p l = Some i.
Proof.
  intros H. destruct (findIndex p l) as [i|] eqn:Hi; [eauto|].
  apply findIndex_None in Hi. congruence.
Qed.

Lemma splice1_middle (l1 l2 : list A) (a : A) :
  splice1 (length l1) (l1 ++ a :: l2) = l1 ++ l2.
Proof.
  unfold splice1. induction l1 as [|c l1 IH]; simpl; [reflexivity|].
  f_equal. exact IH.
Qed.

Lemma setAt_middle (l1 l2 : list A) (a b : A) :
  setAt (length l1) b (l1 ++ a :: l2) = l1 ++ b :: l2.
Proof. induction l1 as [|c l1 IH]; simpl; [reflexivity|]. now rewrite IH. Qed.

Lemma nth_error_middle (l1 l2 : list A) (a : A) :
  nth_error (l1 ++ a :: l2) (length l1) = Some a.
Proof. induction l1 as [|c l1 IH]; simpl; auto. Qed.

End ArrayFacts.

(** ** The operation executor *)

Section ExecutorFacts.
Import Executor.

Lemma hasNode_true (id : string) (d : CanvasData) :
  hasNode id d = true <-> exists n, In n (nodes d) /\ n_id n = id.
Proof.
  unfold hasNode. rewrite existsb_exists.
  split; intros (n & Hin & H); exists n; split; auto;
    now apply String.eqb_eq.
Qed.

Lemma hasNode_false (id : string) (d : CanvasData) :
  hasNode id d = false <-> forall n, In n (nodes d) -> n_id n <> id.
Proof.
  split.
  - intros H n Hin Heq.
    assert (hasNode id d = true) by (apply hasNode_true; eauto).
    congruence.
  - intros H. destruct (hasNode id d) eqn:E; [|reflexivity].
    apply hasNode_true in E. destruct E as (n & Hin & Heq).
    now destruct (H n Hin).
Qed.

(** The first node with a given id splits the [nodes] array. *)
Lemma first_node_with_id (id : string) (d : CanvasData) :
  (exists n, In n (nodes d) /\ n_id n = id) ->
  exists l1 n l2,
    nodes d = l1 ++ n :: l2 /\ n_id n = id /\
    (forall m, In m l1 -> n_id m <> id) /\
    findIndex (fun n => String.eqb (n_id n) id) (nodes d) = Some (length l1).
Proof.
  intros H. apply hasNode_true in H.
  destruct (findIndex_found _ _ H) as (i & Hi).
  destruct (findIndex_Some _ _ _ Hi) as (l1 & n & l2 & Hsplit & Hlen & Hn & Hl1).
  exists l1, n, l2. repeat split; auto.
  - now apply String.eqb_eq.
  - intros m Hm. apply String.eqb_neq. auto.
  - now rewrite Hlen.
Qed.

Lemma no_node_with_id (id : string) (d : CanvasData) :
  (forall n, In n (nodes d) -> n_id n <> id) ->
  findIndex (fun n => String.eqb (n_id n) id) (nodes d) = None.
Proof. intros H. apply findIndex_None. now apply hasNode_false. Qed.

Lemma applyUpdates_id (n : CanvasNode) (u : NodeUpdates) :
  n_id (applyUpdates n u) = n_id n.
Proof.
  unfold applyUpdates, whenDefined, isText, isGroup.
  destruct u as [ux uy uw uh uc ucol ul], n as [i k x y w h t f l lb c].
  destruct ux, uy, uw, uh, ucol, uc, ul, k; reflexivity.
Qed.

Lemma filter_untouched_edges (A i : string) (es : list CanvasEdge) :
  ~ In i (map e_id (filter (touches A) es)) ->
  filter (fun e => String.eqb (e_id e) i)
         (filter (fun e => negb (touches A e)) es)
  = filter (fun e => String.eqb (e_id e) i) es.
Proof.
  induction es as [|e es IH]; simpl; intros H; [reflexivity|].
  destruct (touches A e) eqn:Ht; simpl in *.
  - destruct (String.eqb (e_id e) i) eqn:Hi.
    + apply String.eqb_eq in Hi. tauto.
    + apply IH. tauto.
  - destruct (String.eqb (e_id e) i); rewrite IH; auto.
Qed.


(** C7. AddNode with the id of a node that is already in the document fails
    with the duplicate-id error and returns the document as it was: no node
    is added, no node and no edge is changed. *)
Theorem add_node_duplicate_id_rejected (d : CanvasData) (op : AddNodeOperation) :
  (exists n, In n (nodes d) /\ n_id n = an_id op) ->
  executeAddNode d op =
    (d, {| success := false;
           error := Some ("Node with ID " ++ dq ++ an_id op ++ dq
                            ++ " already exists")%string;
           affectedIds := None |}).
Proof.
  intros H. apply hasNode_true in H.
  unfold executeAddNode. now rewrite H.
Qed.

Lemma add_node_duplicate_id_rejected_witness :
  let op := mkAddNode "A" "text" (JInt 5) (JInt 5) (JInt 10) (JInt 10)
                      (Some "again") None None None None in
  executeAddNode triangle op =
    (triangle,
     {| success := false;
        error := Some ("Node with ID " ++ dq ++ "A" ++ dq ++ " already exists")%string;
        affectedIds := None |}).
Proof.
  intros op. apply (add_node_duplicate_id_rejected triangle op).
  exists (textNode "A"). split; [simpl; auto | reflexivity].
Defined.

(** C3. DeleteNode on a document that has a node with id [A] succeeds: the
    (first) node with id [A] leaves the [nodes] array and the other nodes
    stay as they are and in their order; the edges that remain are exactly
    those whose [fromNode] and [toNode] both differ from [A], unchanged and
    in their order; [affectedIds] is [A] followed by the ids of the removed
    edges.  When node ids are unique no node with id [A] is left.  With
    edges [e1] (A to B), [e2] (C to A), [e3] (B to C) the edges left are
    [e3] alone and [affectedIds] is [A, e1, e2].  On a document without a
    node [A] the operation fails with the not-found error and changes
    nothing. *)
Theorem delete_node_cascade (d : CanvasData) (A : string) :
  ((exists n, In n (nodes d) /\ n_id n = A) ->
   exists l1 n l2,
     nodes d = l1 ++ n :: l2 /\ n_id n = A /\
     (forall m, In m l1 -> n_id m <> A) /\
     executeDeleteNode d A =
       ({| nodes := l1 ++ l2;
           edges := filter (fun e => negb (touches A e)) (edges d) |},
        {| success := true; error := None;
           affectedIds := Some (A :: map e_id (filter (touches A) (edges d))) |})
     /\ (forall e, In e (edges (fst (executeDeleteNode d A))) <->
                   In e (edges d) /\ e_fromNode e <> A /\ e_toNode e <> A)
     /\ (NoDup (map n_id (nodes d)) ->
         forall m, In m (nodes (fst (executeDeleteNode d A))) -> n_id m <> A)
     /\ (forall e1 e2 e3 B C,
           edges d = [e1; e2; e3] ->
           e_fromNode e1 = A -> e_toNode e1 = B ->
           e_fromNode e2 = C -> e_toNode e2 = A ->
           e_fromNode e3 = B -> e_toNode e3 = C ->
           B <> A -> C <> A ->
           edges (fst (executeDeleteNode d A)) = [e3] /\
           affectedIds (snd (executeDeleteNode d A))
             = Some [A; e_id e1; e_id e2]))
  /\
  ((forall n, In n (nodes d) -> n_id n <> A) ->
   executeDeleteNode d A =
     (d, {| success := false;
            error := Some ("Node with ID " ++ dq ++ A ++ dq ++ " not found")%string;
            affectedIds := None |})).
Proof.
  split.
  - intros H.
    destruct (first_node_with_id A d H) as (l1 & n & l2 & Hn & Hid & Hl1 & Hi).
    assert (Hrun : executeDeleteNode d A =
       ({| nodes := l1 ++ l2;
           edges := filter (fun e => negb (touches A e)) (edges d) |},
        {| success := true; error := None;
           affectedIds := Some (A :: map e_id (filter (touches A) (edges d))) |})).
    { unfold executeDeleteNode. rewrite Hi, Hn, splice1_middle. reflexivity. }
    exists l1, n, l2. rewrite Hrun. simpl.
    split; [exact Hn|]. split; [exact Hid|]. split; [exact Hl1|].
    split; [reflexivity|]. split; [|split].
    + intros e. rewrite filter_In. unfold touches.
      rewrite negb_true_iff, orb_false_iff, !String.eqb_neq. tauto.
    + intros Hnd m Hm Hm_id.
      rewrite Hn, map_app in Hnd. simpl in Hnd.
      apply NoDup_remove_2 in Hnd. apply Hnd.
      rewrite Hid, <- Hm_id, <- map_app. now apply in_map.
    + intros e1 e2 e3 B C He H1 H2 H3 H4 H5 H6 HB HC.
      rewrite He. unfold touches. simpl.
      rewrite H1, H2, H3, H4, H5, H6, String.eqb_refl.
      apply String.eqb_neq in HB, HC. rewrite HB, HC. simpl. auto.
  - intros H. unfold executeDeleteNode.
    now rewrite (no_node_with_id A d H).
Qed.

Lemma delete_node_cascade_witness :
  (edges (fst (executeDeleteNode triangle "A")) = [edgeOf "e3" "B" "C"] /\
   affectedIds (snd (executeDeleteNode triangle "A")) = Some ["A"; "e1"; "e2"])
  /\ executeDeleteNode triangle "Z" =
       (triangle,
        {| success := false;
           error := Some ("Node with ID " ++ dq ++ "Z" ++ dq ++ " not found")%string;
           affectedIds := None |}).
Proof.
  split.
  - destruct (proj1 (delete_node_cascade triangle "A"))
      as (l1 & n & l2 & _ & _ & _ & _ & _ & _ & Hex).
    + exists (textNode "A"). split; [simpl; auto | reflexivity].
    + apply (Hex (edgeOf "e1" "A" "B") (edgeOf "e2" "C" "A")
                 (edgeOf "e3" "B" "C") "B" "C");
        try reflexivity; discriminate.
  - apply (proj2 (delete_node_cascade triangle "Z")).
    intros n [<-|[<-|[<-|[]]]]; discriminate.
Defined.

(** C8. UpdateNode on a document that has a node with id [i] succeeds with
    [affectedIds = [i]] and replaces the first node with that id by a node
    that differs from it only in the fields the payload carries: [x], [y],
    [width], [height] and [color] are taken from the payload when present,
    for every kind; [content] replaces the text only of a Text node and
    [label] the label only of a Group node; id, kind, file and url, and
    every field whose update is absent, keep their value.  The other nodes
    and the edges are untouched.  Without a node [i] the operation fails
    with the not-found error and changes nothing. *)
Theorem update_node_partial_merge (d : CanvasData) (op : UpdateNodeOperation) :
  ((exists n, In n (nodes d) /\ n_id n = un_id op) ->
   exists l1 n l2 n',
     nodes d = l1 ++ n :: l2 /\ n_id n = un_id op /\
     (forall m, In m l1 -> n_id m <> un_id op) /\
     executeUpdateNode d op =
       ({| nodes := l1 ++ n' :: l2; edges := edges d |},
        {| success := true; error := None; affectedIds := Some [un_id op] |})
     /\ n_id n' = n_id n /\ n_type n' = n_type n
     /\ n_file n' = n_file n /\ n_url n' = n_url n
     /\ n_x n' = match u_x (un_updates op) with Some v => v | None => n_x n end
     /\ n_y n' = match u_y (un_updates op) with Some v => v | None => n_y n end
     /\ n_width n' =
          match u_width (un_updates op) with Some v => v | None => n_width n end
     /\ n_height n' =
          match u_height (un_updates op) with Some v => v | None => n_height n end
     /\ n_color n' =
          match u_color (un_updates op) with Some v => Some v | None => n_color n end
     /\ n_text n' =
          match n_type n, u_content (un_updates op) with
          | KText, Some v => Some v
          | _, _ => n_text n
          end
     /\ n_label n' =
          match n_type n, u_label (un_updates op) with
          | KGroup, Some v => Some v
          | _, _ => n_label n
          end)
  /\
  ((forall n, In n (nodes d) -> n_id n <> un_id op) ->
   executeUpdateNode d op =
     (d, {| success := false;
            error := Some ("Node with ID " ++ dq ++ un_id op ++ dq
                             ++ " not found")%string;
            affectedIds := None |})).
Proof.
  split.
  - intros H.
    destruct (first_node_with_id _ d H) as (l1 & n & l2 & Hn & Hid & Hl1 & Hi).
    exists l1, n, l2, (applyUpdates n (un_updates op)).
    split; [exact Hn|]. split; [exact Hid|]. split; [exact Hl1|]. split.
    + unfold executeUpdateNode.
      rewrite Hi, Hn, nth_error_middle, setAt_middle. reflexivity.
    + unfold applyUpdates, whenDefined, isText, isGroup.
      destruct (un_updates op) as [ux uy uw uh uc ucol ul].
      destruct n as [i k x y w h t f l lb c]. simpl.
      destruct ux, uy, uw, uh, ucol, uc, ul, k; simpl; repeat split.
  - intros H. unfold executeUpdateNode.
    now rewrite (no_node_with_id _ d H).
Qed.

Lemma update_node_partial_merge_witness :
  let op := mkUpdateNode "B"
              (mkUpdates (Some (JInt 40)) None None None
                         (Some "new text") None (Some "ignored")) in
  (snd (executeUpdateNode triangle op) =
     {| success := true; error := None; affectedIds := Some ["B"] |}
   /\ edges (fst (executeUpdateNode triangle op)) = edges triangle)
  /\ executeUpdateNode triangle (mkUpdateNode "Z" (un_updates op)) =
       (triangle,
        {| success := false;
           error := Some ("Node with ID " ++ dq ++ "Z" ++ dq ++ " not found")%string;
           affectedIds := None |}).
Proof.
  intros op. split.
  - destruct (proj1 (update_node_partial_merge triangle op))
      as (l1 & n & l2 & n' & Hn & Hid & Hl1 & Hrun & _).
    + exists (textNode "B"). split; [simpl; auto | reflexivity].
    + rewrite Hrun. split; reflexivity.
  - apply (proj2 (update_node_partial_merge triangle
                    (mkUpdateNode "Z" (un_updates op)))).
    intros n [<-|[<-|[<-|[]]]]; discriminate.
Defined.

(** C10. A successful operation leaves alone whatever it does not report:
    for every id outside [affectedIds] the nodes with that id, and the
    edges with that id, are the same before and after.  Moreover AddNode
    only appends one node and keeps the edges; UpdateNode replaces one node
    in place by a node of the same id and keeps the edges; AddEdge keeps
    the nodes and only appends one edge; DeleteEdge keeps the nodes and
    takes one edge of that id out of the array. *)
Theorem executor_frame (d d' : CanvasData) (operation : CanvasOperation)
    (r : OperationResult) :
  dispatch d operation = (d', r) ->
  success r = true ->
  exists ids,
    affectedIds r = Some ids
    /\ (forall i, ~ In i ids ->
          nodesWithId i d' = nodesWithId i d /\
          edgesWithId i d' = edgesWithId i d)
    /\ match operation with
       | OpAddNode op =>
           (exists n, n_id n = an_id op /\ nodes d' = nodes d ++ [n])
           /\ edges d' = edges d
       | OpUpdateNode op =>
           (exists l1 n l2 n',
              nodes d = l1 ++ n :: l2 /\ nodes d' = l1 ++ n' :: l2 /\
              n_id n = un_id op /\ n_id n' = un_id op)
           /\ edges d' = edges d
       | OpDeleteNode id => True
       | OpAddEdge op =>
           nodes d' = nodes d
           /\ exists e, e_id e = ae_id op /\ edges d' = edges d ++ [e]
       | OpDeleteEdge id =>
           nodes d' = nodes d
           /\ exists l1 e l2,
                edges d = l1 ++ e :: l2 /\ edges d' = l1 ++ l2 /\ e_id e = id
       end.
Proof.
  intros Hrun Hok. destruct operation as [op|op|id|op|id]; simpl in Hrun.
  - (* add_node *)
    assert (Hpush : forall k,
      (pushNode d (newNode op k), ok [an_id op]) = (d', r) ->
      exists ids, affectedIds r = Some ids
        /\ (forall i, ~ In i ids ->
              nodesWithId i d' = nodesWithId i d /\
              edgesWithId i d' = edgesWithId i d)
        /\ (exists n, n_id n = an_id op /\ nodes d' = nodes d ++ [n])
           /\ edges d' = edges d).
    { intros k E. injection E as <- <-. exists [an_id op].
      split; [reflexivity|]. split.
      - intros i Hi. unfold nodesWithId, edgesWithId. simpl.
        rewrite filter_app. simpl.
        destruct (String.eqb (an_id op) i) eqn:E.
        + apply String.eqb_eq in E. simpl in Hi. tauto.
        + now rewrite app_nil_r.
      - split; [|reflexivity]. exists (newNode op k). split; reflexivity. }
    unfold executeAddNode in Hrun.
    destruct (hasNode (an_id op) d);
      [injection Hrun as <- <-; discriminate|].
    destruct (String.eqb (an_nodeType op) "text"); [eauto|].
    destruct (String.eqb (an_nodeType op) "file").
    { destruct (negb (truthy (an_file op)));
        [injection Hrun as <- <-; discriminate | eauto]. }
    destruct (String.eqb (an_nodeType op) "link").
    { destruct (negb (truthy (an_url op)));
        [injection Hrun as <- <-; discriminate | eauto]. }
    destruct (String.eqb (an_nodeType op) "group"); [eauto|].
    injection Hrun as <- <-; discriminate.
  - (* update_node *)
    unfold executeUpdateNode in Hrun.
    destruct (findIndex _ (nodes d)) as [i|] eqn:Hi;
      [|injection Hrun as <- <-; discriminate].
    destruct (findIndex_Some _ _ _ Hi)
      as (l1 & n & l2 & Hn & Hlen & Hid & Hl1).
    apply String.eqb_eq in Hid.
    rewrite Hn, <- Hlen, nth_error_middle, setAt_middle in Hrun.
    injection Hrun as <- <-. exists [un_id op].
    split; [reflexivity|]. split.
    + intros j Hj. unfold nodesWithId, edgesWithId. simpl.
      rewrite Hn, !filter_app. simpl.
      rewrite applyUpdates_id, Hid.
      destruct (String.eqb (un_id op) j) eqn:E; [|split; reflexivity].
      apply String.eqb_eq in E. simpl in Hj. tauto.
    + split; [|reflexivity].
      exists l1, n, l2, (applyUpdates n (un_updates op)).
      rewrite applyUpdates_id. auto.
  - (* delete_node *)
    unfold executeDeleteNode in Hrun.
    destruct (findIndex _ (nodes d)) as [i|] eqn:Hi;
      [|injection Hrun as <- <-; discriminate].
    destruct (findIndex_Some _ _ _ Hi)
      as (l1 & n & l2 & Hn & Hlen & Hid & Hl1).
    apply String.eqb_eq in Hid.
    rewrite Hn, <- Hlen, splice1_middle in Hrun.
    injection Hrun as <- <-. eexists. split; [reflexivity|].
    split; [|exact I].
    intros j Hj. simpl in Hj. unfold nodesWithId, edgesWithId. simpl. split.
    + rewrite Hn, !filter_app. simpl.
      destruct (String.eqb (n_id n) j) eqn:E; [|reflexivity].
      apply String.eqb_eq in E. rewrite Hid in E. tauto.
    + apply filter_untouched_edges. tauto.
  - (* add_edge *)
    unfold executeAddEdge in Hrun.
    destruct (negb (hasNode (ae_fromNode op) d));
      [injection Hrun as <- <-; discriminate|].
    destruct (negb (hasNode (ae_toNode op) d));
      [injection Hrun as <- <-; discriminate|].
    injection Hrun as <- <-. exists [ae_id op].
    split; [reflexivity|]. split.
    + intros j Hj. unfold nodesWithId, edgesWithId. simpl.
      rewrite filter_app. simpl.
      destruct (String.eqb (ae_id op) j) eqn:E.
      * apply String.eqb_eq in E. simpl in Hj. tauto.
      * now rewrite app_nil_r.
    + split; [reflexivity|]. exists (newEdge op). split; reflexivity.
  - (* delete_edge *)
    unfold executeDeleteEdge in Hrun.
    destruct (findIndex _ (edges d)) as [i|] eqn:Hi;
      [|injection Hrun as <- <-; discriminate].
    destruct (findIndex_Some _ _ _ Hi)
      as (l1 & e & l2 & He & Hlen & Hid & Hl1).
    apply String.eqb_eq in Hid.
    rewrite He, <- Hlen, splice1_middle in Hrun.
    injection Hrun as <- <-. exists [id].
    split; [reflexivity|]. split.
    + intros j Hj. unfold nodesWithId, edgesWithId. simpl.
      rewrite He, !filter_app. simpl.
      destruct (String.eqb (e_id e) j) eqn:E; [|split; reflexivity].
      apply String.eqb_eq in E. rewrite Hid in E. simpl in Hj. tauto.
    + split; [reflexivity|]. exists l1, e, l2. auto.
Qed.

Lemma executor_frame_witness :
  exists ids,
    affectedIds (snd (dispatch triangle (OpDeleteEdge "e2"))) = Some ids
    /\ (forall i, ~ In i ids ->
          nodesWithId i (fst (dispatch triangle (OpDeleteEdge "e2")))
            = nodesWithId i triangle /\
          edgesWithId i (fst (dispatch triangle (OpDeleteEdge "e2")))
            = edgesWithId i triangle).
Proof.
  destruct (executor_frame triangle
              (fst (dispatch triangle (OpDeleteEdge "e2")))
              (OpDeleteEdge "e2")
              (snd (dispatch triangle (OpDeleteEdge "e2"))))
    as (ids & Hids & Hframe & _).
  - reflexivity.
  - reflexivity.
  - exists ids. split; assumption.
Defined.

Lemma NoDup_snoc {A : Type} (l : list A) (a : A) :
  NoDup l -> ~ In a l -> NoDup (l ++ [a]).
Proof.
  intros Hl Ha. apply NoDup_app; auto.
  - repeat constructor. intros [].
  - intros x Hx [<-|[]]. auto.
Qed.

(** Filtering the edges keeps their ids pairwise distinct. *)
Lemma kept_edges_unique (keep : CanvasEdge -> bool) (es : list CanvasEdge) :
  NoDup (map e_id es) -> NoDup (map e_id (filter keep es)).
Proof.
  induction es as [|e es IH]; simpl; intros H; [constructor|].
  inversion H as [|? ? Hnotin Hrest]; subst.
  destruct (keep e); simpl; auto.
  constructor; auto.
  intros Hin. apply Hnotin.
  apply in_map_iff in Hin. destruct Hin as (e' & He' & Hin).
  apply filter_In in Hin. apply in_map_iff. exists e'. tauto.
Qed.

(** Every operation keeps node ids and edge ids pairwise distinct, AddEdge
    under the proviso that its id is not the id of an edge of the
    document. *)
Lemma unique_ids_preserved (d d' : CanvasData) (operation : CanvasOperation)
    (r : OperationResult) :
  dispatch d operation = (d', r) ->
  uniqueIds d ->
  match operation with
  | OpAddEdge op => hasEdge (ae_id op) d = false
  | _ => True
  end ->
  uniqueIds d'.
Proof.
  unfold uniqueIds. intros Hrun [Hn He] Hfresh.
  destruct operation as [op|op|id|op|id]; simpl in Hrun.
  - unfold executeAddNode in Hrun.
    destruct (hasNode (an_id op) d) eqn:Hhas; [now injection Hrun as <- _|].
    assert (Hpush : forall k, uniqueIds (pushNode d (newNode op k))).
    { intros k. split; simpl; [|assumption].
      rewrite map_app. simpl. apply NoDup_snoc; [assumption|].
      intros Hin. apply in_map_iff in Hin. destruct Hin as (n & Hid & Hin).
      rewrite hasNode_false in Hhas. exact (Hhas n Hin Hid). }
    destruct (String.eqb (an_nodeType op) "text");
      [injection Hrun as <- _; apply Hpush|].
    destruct (String.eqb (an_nodeType op) "file").
    { destruct (negb (truthy (an_file op))); injection Hrun as <- _;
        [auto | apply Hpush]. }
    destruct (String.eqb (an_nodeType op) "link").
    { destruct (negb (truthy (an_url op))); injection Hrun as <- _;
        [auto | apply Hpush]. }
    destruct (String.eqb (an_nodeType op) "group"); injection Hrun as <- _;
      [apply Hpush | auto].
  - unfold executeUpdateNode in Hrun.
    destruct (findIndex _ (nodes d)) as [i|] eqn:Hi;
      [|now injection Hrun as <- _].
    destruct (findIndex_Some _ _ _ Hi) as (l1 & n & l2 & Hsplit & Hlen & _).
    rewrite Hsplit, <- Hlen, nth_error_middle, setAt_middle in Hrun.
    injection Hrun as <- _. simpl. split; [|assumption].
    rewrite Hsplit in Hn. rewrite map_app in *. simpl in *.
    now rewrite applyUpdates_id.
  - unfold executeDeleteNode in Hrun.
    destruct (findIndex _ (nodes d)) as [i|] eqn:Hi;
      [|now injection Hrun as <- _].
    destruct (findIndex_Some _ _ _ Hi) as (l1 & n & l2 & Hsplit & Hlen & _).
    rewrite Hsplit, <- Hlen, splice1_middle in Hrun.
    injection Hrun as <- _. simpl. split.
    + rewrite Hsplit in Hn. rewrite map_app in *. simpl in Hn.
      now apply NoDup_remove_1 in Hn.
    + now apply kept_edges_unique.
  - unfold executeAddEdge in Hrun.
    destruct (negb (hasNode (ae_fromNode op) d)); [now injection Hrun as <- _|].
    destruct (negb (hasNode (ae_toNode op) d)); [now injection Hrun as <- _|].
    injection Hrun as <- _. simpl. split; [assumption|].
    rewrite map_app. simpl. apply NoDup_snoc; [assumption|].
    intros Hin. apply in_map_iff in Hin. destruct Hin as (e & Hid & Hin).
    assert (hasEdge (ae_id op) d = true); [|congruence].
    unfold hasEdge. apply existsb_exists. exists e.
    split; [assumption | now apply String.eqb_eq].
  - unfold executeDeleteEdge in Hrun.
    destruct (findIndex _ (edges d)) as [i|] eqn:Hi;
      [|now injection Hrun as <- _].
    destruct (findIndex_Some _ _ _ Hi) as (l1 & e & l2 & Hsplit & Hlen & _).
    rewrite Hsplit, <- Hlen, splice1_middle in Hrun.
    injection Hrun as <- _. simpl. split; [assumption|].
    rewrite Hsplit in He. rewrite map_app in *. simpl in He.
    now apply NoDup_remove_1 in He.
Qed.

(** C4. [executeAddEdge] does not look at the edge ids of the document
    (where [executeAddNode] checks the node ids): on the document with the
    edges [e1], [e2], [e3], whose ids are pairwise distinct, AddEdge with
    id [e1] succeeds and appends a second edge with id [e1]. *)
Theorem add_edge_duplicate_id_accepted :
  let op := mkAddEdge "e1" "B" "C" None None None None in
  uniqueIds triangle
  /\ success (snd (executeAddEdge triangle op)) = true
  /\ map e_id (edges (fst (executeAddEdge triangle op)))
       = ["e1"; "e2"; "e3"; "e1"]
  /\ ~ uniqueIds (fst (executeAddEdge triangle op)).
Proof.
  intros op. split; [|split; [reflexivity|split; [reflexivity|]]].
  - split; simpl; repeat constructor; simpl; intuition discriminate.
  - intros [_ H]. simpl in H. inversion H as [|? ? Hnotin _]; subst.
    apply Hnotin. simpl. auto.
Qed.

End ExecutorFacts.

(** ** The batch executor *)

Section BatchFacts.
Import Executor.

Variable Vault : Type.
Variable getAbstractFileByPath : Vault -> string -> option AbstractFile.
Variable vault_read : Vault -> string -> option string.
Variable vault_modify : Vault -> string -> string -> Vault * bool.
Variable JSON_parse : string -> option CanvasData.
Variable JSON_stringify : CanvasData -> string.

Local Abbreviation readCanvasFile :=
  (readCanvasFile Vault getAbstractFileByPath vault_read JSON_parse).
Local Abbreviation writeCanvasFile :=
  (writeCanvasFile Vault getAbstractFileByPath vault_modify JSON_stringify).
Local Abbreviation executeCanvasOperations :=
  (executeCanvasOperations Vault getAbstractFileByPath vault_read
     vault_modify JSON_parse JSON_stringify).

Lemma fold_batchStep (ops : list CanvasOperation) (d : CanvasData)
    (rs : list OperationResult) :
  fold_left batchStep ops (d, rs)
  = (fst (runOperations d ops), rs ++ snd (runOperations d ops)).
Proof.
  unfold runOperations. revert d rs.
  induction ops as [|op ops IH]; intros d rs; simpl.
  - now rewrite app_nil_r.
  - destruct (dispatch d op) as [d1 r1]. simpl.
    rewrite (IH d1 (rs ++ [r1])), (IH d1 [r1]). simpl.
    now rewrite <- app_assoc.
Qed.

Lemma runOperations_cons (d : CanvasData) (op : CanvasOperation)
    (ops : list CanvasOperation) :
  runOperations d (op :: ops)
  = (fst (runOperations (fst (dispatch d op)) ops),
     snd (dispatch d op) :: snd (runOperations (fst (dispatch d op)) ops)).
Proof.
  unfold runOperations at 1. simpl.
  destruct (dispatch d op) as [d1 r1]. simpl.
  now rewrite fold_batchStep.
Qed.

Lemma runOperations_length (ops : list CanvasOperation) (d : CanvasData) :
  length (snd (runOperations d ops)) = length ops.
Proof.
  revert d. induction ops as [|op ops IH]; intros d; [reflexivity|].
  rewrite runOperations_cons. simpl. now rewrite IH.
Qed.

(** The [i]-th result is that of the [i]-th operation on the document the
    first [i] operations have left, and the document it leaves is the one
    the next operation starts from. *)
Lemma runOperations_nth (ops : list CanvasOperation) (d : CanvasData)
    (i : nat) (op : CanvasOperation) :
  nth_error ops i = Some op ->
  nth_error (snd (runOperations d ops)) i
    = Some (snd (dispatch (fst (runOperations d (firstn i ops))) op))
  /\ fst (runOperations d (firstn (S i) ops))
     = fst (dispatch (fst (runOperations d (firstn i ops))) op).
Proof.
  revert d i. induction ops as [|o ops IH]; intros d i H.
  - destruct i; discriminate.
  - destruct i as [|i].
    + injection H as ->. rewrite runOperations_cons. simpl firstn.
      rewrite runOperations_cons. simpl. auto.
    + simpl in H. rewrite runOperations_cons.
      change (firstn (S (S i)) (o :: ops)) with (o :: firstn (S i) ops).
      change (firstn (S i) (o :: ops)) with (o :: firstn i ops).
      rewrite !runOperations_cons. simpl.
      exact (IH (fst (dispatch d o)) i H).
Qed.

(** An operation that fails leaves the document as it found it. *)
Lemma dispatch_failure_unchanged (d : CanvasData) (op : CanvasOperation) :
  success (snd (dispatch d op)) = false -> fst (dispatch d op) = d.
Proof.
  destruct op as [op|op|id|op|id]; simpl.
  - unfold executeAddNode.
    repeat match goal with
           | |- context [if ?b then _ else _] => destruct b
           end; simpl; congruence.
  - unfold executeUpdateNode.
    destruct (findIndex _ _); [|reflexivity].
    destruct (nth_error _ _); simpl; congruence.
  - unfold executeDeleteNode.
    destruct (findIndex _ _); simpl; congruence.
  - unfold executeAddEdge.
    repeat match goal with
           | |- context [if ?b then _ else _] => destruct b
           end; simpl; congruence.
  - unfold executeDeleteEdge.
    destruct (findIndex _ _); simpl; congruence.
Qed.

Lemma downgrade_all_fail (rs : list OperationResult) :
  forallb success (map downgrade rs) = true -> rs = [].
Proof.
  destruct rs as [|r rs]; [reflexivity|]. simpl.
  unfold downgrade at 1. destruct (success r) eqn:E; simpl; [discriminate|].
  rewrite E. discriminate.
Qed.

(** C2. When the canvas file can be read, [executeCanvasOperations] runs
    the operations one after the other on the one document: the [i]-th
    result is the result of the [i]-th operation on the document left by
    the operations before it, and an operation that fails leaves that
    document as it is, so what earlier operations did stays.  If some
    operation succeeded, the document left by the whole batch is written
    back once: the vault left behind is the vault [vault.modify] returns
    for the file found at [canvasPath] and the text [JSON.stringify] makes
    of that document, and that one call of [writeCanvasFile] is all the
    batch adds to the log.  If no operation succeeded, vault and log are
    as they were.  If [vault.modify] fails, every successful result is
    replaced by a failure with the error [Failed to write canvas file]
    (its other fields kept), the failures are kept as they are, and
    [allSuccess] is false; if it succeeds or is not attempted, the results
    are returned as they are and [allSuccess] is true exactly when every
    result is a success. *)
Theorem batch_best_effort (w : World Vault) (canvasPath : string)
    (operations : list CanvasOperation) (canvasData : CanvasData) :
  readCanvasFile (w_vault _ w) canvasPath = Some canvasData ->
  let docAfter := fun ops => fst (runOperations canvasData ops) in
  let rs := snd (runOperations canvasData operations) in
  let w' := fst (executeCanvasOperations w canvasPath operations) in
  let out := snd (executeCanvasOperations w canvasPath operations) in
  length rs = length operations
  /\ (forall i op,
        nth_error operations i = Some op ->
        nth_error rs i
          = Some (snd (dispatch (docAfter (firstn i operations)) op))
        /\ docAfter (firstn (S i) operations)
           = fst (dispatch (docAfter (firstn i operations)) op)
        /\ (success (snd (dispatch (docAfter (firstn i operations)) op)) = false ->
            docAfter (firstn (S i) operations) = docAfter (firstn i operations)))
  /\ (existsb success rs = true ->
      exists file,
        getAbstractFileByPath (w_vault _ w) canvasPath = Some (TFile file)
        /\ let modified :=
             vault_modify (w_vault _ w) file
                          (JSON_stringify (docAfter operations)) in
           w_vault _ w' = fst modified
           /\ w_writes _ w'
              = w_writes _ w
                ++ [mkWriteCall canvasPath (docAfter operations) (snd modified)]
           /\ (snd modified = true ->
               results out = rs /\ allSuccess out = forallb success rs)
           /\ (snd modified = false ->
               results out =
                 map (fun r =>
                        if success r
                        then {| success := false;
                                error := Some "Failed to write canvas file";
                                affectedIds := affectedIds r |}
                        else r) rs
               /\ allSuccess out = false))
  /\ (existsb success rs = false ->
      w' = w /\ results out = rs /\ allSuccess out = forallb success rs)
  /\ (allSuccess out = true <->
      forall r, In r (results out) -> success r = true).
Proof.
  intros Hread docAfter rs w' out.
  split; [apply runOperations_length|].
  split.
  { intros i op Hop.
    destruct (runOperations_nth operations canvasData i op Hop) as [H1 H2].
    split; [exact H1|]. split; [exact H2|].
    intros Hfail. unfold docAfter. rewrite H2.
    now apply dispatch_failure_unchanged. }
  subst w' out. unfold Executor.executeCanvasOperations.
  rewrite Hread.
  assert (Hfile : exists file,
            getAbstractFileByPath (w_vault Vault w) canvasPath
            = Some (TFile file)).
  { unfold Executor.readCanvasFile in Hread.
    destruct (getAbstractFileByPath (w_vault Vault w) canvasPath)
      as [[file|folder]|]; try discriminate.
    now exists file. }
  destruct Hfile as (file & Hfile).
  assert (Hfinal : docAfter operations
                   = fst (runOperations canvasData operations))
    by reflexivity.
  assert (Hrs : rs = snd (runOperations canvasData operations))
    by reflexivity.
  clearbody rs docAfter.
  destruct (runOperations canvasData operations) as [final rs0].
  simpl in Hfinal, Hrs. subst rs0.
  destruct (existsb success rs) eqn:Hsome.
  - unfold Executor.writeCanvasFile. rewrite Hfile, Hfinal.
    destruct (vault_modify (w_vault Vault w) file (JSON_stringify final))
      as [vault' written] eqn:Hmod.
    split; [|split; [discriminate|]].
    + intros _. exists file. split; [reflexivity|].
      cbv zeta. rewrite Hmod. cbn [fst snd].
      destruct written; simpl; (split; [reflexivity|]);
        (split; [reflexivity|]);
        (split; [intros E | intros E]); try discriminate; auto.
    + destruct written; simpl.
      * rewrite forallb_forall. reflexivity.
      * split; [discriminate|]. intros H.
        assert (Hall : forallb success (map downgrade rs) = true)
          by (apply forallb_forall; exact H).
        apply downgrade_all_fail in Hall. subst rs. discriminate.
  - simpl. split; [discriminate|]. split; [auto|].
    rewrite forallb_forall. reflexivity.
Qed.

End BatchFacts.

Lemma batch_best_effort_witness :
  let w' :=
    fst (Executor.executeCanvasOperations Executor.Disk Executor.diskFile
           Executor.diskRead Executor.diskModify Executor.diskParse
           Executor.diskStringify Executor.diskWorld "a.canvas"
           Executor.sampleBatch) in
  exists file,
    Executor.diskFile (Executor.w_vault _ Executor.diskWorld) "a.canvas"
    = Some (Executor.TFile file)
    /\ Executor.w_vault _ w'
       = fst (Executor.diskModify (Executor.w_vault _ Executor.diskWorld) file
                (Executor.diskStringify
                   (fst (Executor.runOperations Executor.triangle
                           Executor.sampleBatch))))
    /\ Executor.diskRead (Executor.w_vault _ w') "a.canvas" = Some "A,B,C,n1"
    /\ length (Executor.w_writes _ w') = 1.
Proof.
  destruct (batch_best_effort Executor.Disk Executor.diskFile
              Executor.diskRead Executor.diskModify Executor.diskParse
              Executor.diskStringify Executor.diskWorld "a.canvas"
              Executor.sampleBatch Executor.triangle eq_refl)
    as (_ & _ & Hwrite & _).
  destruct (Hwrite eq_refl) as (file & Hfile & Hvault & Hlog & _).
  exists file. split; [exact Hfile|]. split; [exact Hvault|].
  split.
  - rewrite Hvault. injection Hfile as <-. reflexivity.
  - rewrite Hlog. reflexivity.
Defined.

(** ** Group containment *)

Section LoaderFacts.
Import Loader.

Variable randomUUID : nat -> string.

Local Abbreviation visitNode := (visitNode randomUUID).
Local Abbreviation deriveGroupEdges := (deriveGroupEdges randomUUID).
Local Abbreviation containsEdges := (containsEdges randomUUID).

Lemma containsEdges_app (c : nat) (ps qs : list (RichNode * RichNode)) :
  containsEdges c (ps ++ qs)
  = containsEdges c ps ++ containsEdges (c + length ps) qs.
Proof.
  revert c. induction ps as [|[g n] ps IH]; intros c; simpl.
  - now rewrite Nat.add_0_r.
  - rewrite IH. now rewrite Nat.add_succ_r.
Qed.

(** One visit appends an edge exactly when the node is [contained]. *)
Lemma visitNode_contained (g n : RichNode) (es : list CanvasEdge) (c : nat) :
  visitNode g (es, c) n
  = if contained g n
    then (es ++ containsEdges c [(g, n)], S c)
    else (es, c).
Proof.
  unfold Loader.visitNode, contained.
  destruct (String.eqb (id n) (id g)); simpl; [reflexivity|].
  destruct (inside g n); reflexivity.
Qed.

(** The inner loop, for one group. *)
Lemma visit_nodes (g : RichNode) (ns : list RichNode)
    (es : list CanvasEdge) (c : nat) :
  fold_left (visitNode g) ns (es, c)
  = (es ++ containsEdges c (map (pair g) (filter (contained g) ns)),
     c + length (filter (contained g) ns)).
Proof.
  revert es c. induction ns as [|n ns IH]; intros es c.
  - simpl. now rewrite app_nil_r, Nat.add_0_r.
  - cbn [fold_left filter]. rewrite visitNode_contained.
    destruct (contained g n); [|apply IH].
    rewrite IH, <- app_assoc. cbn [map length].
    now rewrite Nat.add_succ_r.
Qed.

(** The two loops together append the edges of [containments]. *)
Lemma deriveGroupEdges_spec (nodes : list RichNode)
    (edges : list CanvasEdge) (calls : nat) :
  deriveGroupEdges nodes edges calls
  = (edges ++ containsEdges calls (containments nodes),
     calls + length (containments nodes)).
Proof.
  unfold Loader.deriveGroupEdges, containments.
  generalize (filter isGroup nodes) as gs. intros gs.
  revert edges calls. induction gs as [|g gs IH]; intros edges calls; simpl.
  - now rewrite app_nil_r, Nat.add_0_r.
  - rewrite visit_nodes, IH, containsEdges_app, length_app, !length_map.
    now rewrite <- app_assoc, Nat.add_assoc.
Qed.

Lemma in_containsEdges (c : nat) (ps : list (RichNode * RichNode))
    (e : CanvasEdge) :
  In e (containsEdges c ps) ->
  exists g n, In (g, n) ps /\ fromNode e = id g /\ toNode e = id n
              /\ elabel e = Some "contains".
Proof.
  revert c. induction ps as [|[g n] ps IH]; intros c; simpl; [tauto|].
  intros [<-|H].
  - exists g, n. simpl. auto.
  - destruct (IH _ H) as (g' & n' & Hin & Hrest). exists g', n'. auto.
Qed.

Lemma containsEdges_in (c : nat) (ps : list (RichNode * RichNode))
    (g n : RichNode) :
  In (g, n) ps ->
  exists e, In e (containsEdges c ps) /\ fromNode e = id g /\ toNode e = id n
            /\ elabel e = Some "contains".
Proof.
  revert c. induction ps as [|[g' n'] ps IH]; intros c; simpl; [tauto|].
  intros [E|H].
  - injection E as -> ->. eexists. split; [left; reflexivity|]. simpl. auto.
  - destruct (IH (S c) H) as (e & Hin & Hrest). exists e. auto.
Qed.

Lemma in_containments (nodes : list RichNode) (g n : RichNode) :
  In (g, n) (containments nodes) <->
  In g nodes /\ type g = group /\ In n nodes /\ id n <> id g
  /\ inside g n = true.
Proof.
  unfold containments. rewrite in_flat_map. split.
  - intros (g' & Hg & Hin). apply in_map_iff in Hin.
    destruct Hin as (n' & E & Hn). injection E as -> ->.
    apply filter_In in Hg, Hn. unfold contained, isGroup in *.
    destruct Hg as [Hg Hk], Hn as [Hn Hc].
    apply andb_true_iff in Hc. destruct Hc as [Hne Hins].
    apply negb_true_iff, String.eqb_neq in Hne.
    destruct (type g); try discriminate. auto.
  - intros (Hg & Hk & Hn & Hne & Hins). exists g. split.
    + apply filter_In. unfold isGroup. now rewrite Hk.
    + apply in_map, filter_In. split; [assumption|].
      unfold contained. rewrite Hins.
      apply String.eqb_neq in Hne. now rewrite Hne.
Qed.

(** The test [inside] is the inclusive comparison on all four sides. *)
Lemma inside_iff (g n : RichNode) :
  inside g n = true <->
  ((x g <=? x n + width n / 2) = true
   /\ (x n + width n / 2 <=? x g + width g) = true
   /\ (y g <=? y n + height n / 2) = true
   /\ (y n + height n / 2 <=? y g + height g) = true)%float.
Proof.
  unfold inside, geb. rewrite !andb_true_iff. tauto.
Qed.

Lemma same_id_same_node (nodes : list RichNode) (n m : RichNode) :
  NoDup (map id nodes) -> In n nodes -> In m nodes -> id n = id m -> n = m.
Proof.
  induction nodes as [|a l IH]; simpl; intros Hnd Hn Hm E; [tauto|].
  inversion Hnd as [|? ? Hnotin Hrest]; subst.
  destruct Hn as [<-|Hn], Hm as [<-|Hm]; auto.
  - exfalso. apply Hnotin. rewrite E. now apply in_map.
  - exfalso. apply Hnotin. rewrite <- E. now apply in_map.
Qed.


Lemma filter_none {A : Type} (p : A -> bool) (l : list A) :
  (forall a, In a l -> p a = false) -> filter p l = [].
Proof.
  induction l as [|a l IH]; simpl; intros H; [reflexivity|].
  rewrite (H a (or_introl eq_refl)). apply IH. auto.
Qed.

Lemma nodes_with_id (nodes : list RichNode) (n : RichNode) :
  NoDup (map id nodes) -> In n nodes ->
  filter (fun m => String.eqb (id m) (id n)) nodes = [n].
Proof.
  induction nodes as [|a l IH]; simpl; intros Hnd Hn; [tauto|].
  inversion Hnd as [|? ? Hnotin Hrest]; subst.
  destruct Hn as [->|Hn].
  - rewrite String.eqb_refl. f_equal.
    apply filter_none. intros m Hm.
    apply String.eqb_neq. intros E.
    apply Hnotin. rewrite <- E. now apply in_map.
  - destruct (String.eqb (id a) (id n)) eqn:E; [|auto].
    apply String.eqb_eq in E. exfalso. apply Hnotin.
    rewrite E. now apply in_map.
Qed.

Lemma filter_comm {A : Type} (p r : A -> bool) (l : list A) :
  filter p (filter r l) = filter r (filter p l).
Proof.
  induction l as [|a l IH]; simpl; [reflexivity|].
  destruct (p a) eqn:Hp, (r a) eqn:Hr; simpl; rewrite ?Hp, ?Hr, IH;
    reflexivity.
Qed.

Lemma count_edges_to (i : string) (c : nat) (ps : list (RichNode * RichNode)) :
  length (filter (fun e => String.eqb (toNode e) i) (containsEdges c ps))
  = length (filter (fun p => String.eqb (id (snd p)) i) ps).
Proof.
  revert c. induction ps as [|[g n] ps IH]; intros c; simpl; [reflexivity|].
  destruct (String.eqb (id n) i); simpl; now rewrite IH.
Qed.

Lemma count_containments (nodes : list RichNode) (n : RichNode) :
  NoDup (map id nodes) -> In n nodes ->
  length (filter (fun p => String.eqb (id (snd p)) (id n)) (containments nodes))
  = length (filter (fun g => contained g n) (filter isGroup nodes)).
Proof.
  intros Hnd Hn. unfold containments.
  induction (filter isGroup nodes) as [|g gs IH]; simpl; [reflexivity|].
  rewrite filter_app, length_app, IH. clear IH.
  assert (E : filter (fun p => String.eqb (id (snd p)) (id n))
                     (map (pair g) (filter (contained g) nodes))
              = map (pair g)
                    (filter (contained g)
                       (filter (fun m => String.eqb (id m) (id n)) nodes))).
  { rewrite (filter_comm (contained g)).
    induction (filter (contained g) nodes) as [|m ms IHm]; simpl;
      [reflexivity|].
    destruct (String.eqb (id m) (id n)); simpl; now rewrite IHm. }
  rewrite E, (nodes_with_id nodes n Hnd Hn). simpl.
  destruct (contained g n); reflexivity.
Qed.

(** C9 (amended). With node ids pairwise distinct, [deriveGroupEdges]
    appends to the [edges] array a list of edges, all labelled
    [contains], such that for every group [g] and every node [n] of the
    document with another id an appended edge goes from [g.id] to [n.id]
    if and only if the centre of [n], as the code computes it in
    floating-point arithmetic, lies in the rectangle of [g], all four
    bounds included.  So a node whose centre is the corner [(g.x, g.y)]
    of a group gets its edge, when the corner is a number and the
    opposite borders of the group are not before it; and the number of
    appended edges that point to a node is the number of groups (other
    than itself) that contain it. *)
Theorem contains_edges_inclusive (nodes : list RichNode)
    (edges : list CanvasEdge) (calls : nat) :
  NoDup (map id nodes) ->
  exists derived,
    fst (deriveGroupEdges nodes edges calls) = edges ++ derived
    /\ (forall e, In e derived -> elabel e = Some "contains")
    /\ (forall g n,
          In g nodes -> In n nodes -> type g = group -> id n <> id g ->
          ((exists e, In e derived /\ fromNode e = id g /\ toNode e = id n
                      /\ elabel e = Some "contains")
           <->
           ((x g <=? x n + width n / 2) = true
            /\ (x n + width n / 2 <=? x g + width g) = true
            /\ (y g <=? y n + height n / 2) = true
            /\ (y n + height n / 2 <=? y g + height g) = true)%float))
    /\ (forall g n,
          In g nodes -> In n nodes -> type g = group -> id n <> id g ->
          (x n + width n / 2)%float = x g ->
          (y n + height n / 2)%float = y g ->
          (x g <=? x g)%float = true -> (y g <=? y g)%float = true ->
          (x g <=? x g + width g)%float = true ->
          (y g <=? y g + height g)%float = true ->
          exists e, In e derived /\ fromNode e = id g /\ toNode e = id n
                    /\ elabel e = Some "contains")
    /\ (forall n,
          In n nodes ->
          length (filter (fun e => String.eqb (toNode e) (id n)) derived)
          = length (filter (fun g => isGroup g
                                     && negb (String.eqb (id n) (id g))
                                     && inside g n) nodes)).
Proof.
  intros Hnd. exists (containsEdges calls (containments nodes)).
  assert (Hiff : forall g n,
    In g nodes -> In n nodes -> type g = group -> id n <> id g ->
    ((exists e, In e (containsEdges calls (containments nodes))
                /\ fromNode e = id g /\ toNode e = id n
                /\ elabel e = Some "contains")
     <-> inside g n = true)).
  { intros g n Hg Hn Hk Hne. split.
    - intros (e & Hin & Hfrom & Hto & _).
      destruct (in_containsEdges _ _ _ Hin) as (g' & n' & Hp & Hf' & Ht' & _).
      apply in_containments in Hp.
      destruct Hp as (Hg' & _ & Hn' & _ & Hins).
      assert (g' = g)
        by (apply (same_id_same_node nodes); auto; congruence).
      assert (n' = n)
        by (apply (same_id_same_node nodes); auto; congruence).
      now subst.
    - intros Hins. apply containsEdges_in, in_containments. auto. }
  split; [now rewrite deriveGroupEdges_spec|].
  split.
  { intros e He. destruct (in_containsEdges _ _ _ He) as (? & ? & ? & ? & ? & ?).
    assumption. }
  split.
  { intros g n Hg Hn Hk Hne. rewrite <- inside_iff. now apply Hiff. }
  split.
  { intros g n Hg Hn Hk Hne Hx Hy Hgx Hgy Hw Hh. apply Hiff; auto.
    apply inside_iff. rewrite Hx, Hy. auto. }
  intros n Hn.
  rewrite count_edges_to, (count_containments nodes n Hnd Hn).
  clear. induction nodes as [|g l IH]; [reflexivity|].
  cbn [filter]. destruct (isGroup g); cbn [filter andb]; [|exact IH].
  change (negb (String.eqb (id n) (id g)) && inside g n)
    with (contained g n).
  destruct (contained g n); cbn [length]; now rewrite IH.
Qed.

End LoaderFacts.

Lemma contains_edges_inclusive_witness :
  exists derived,
    fst (Loader.deriveGroupEdges Loader.sampleUUID Loader.sampleNodes [] 0)
      = [] ++ derived
    /\ exists e, In e derived /\ Loader.fromNode e = "g1"
                 /\ Loader.toNode e = "card"
                 /\ Loader.elabel e = Some "contains".
Proof.
  destruct (contains_edges_inclusive Loader.sampleUUID Loader.sampleNodes [] 0)
    as (derived & Hd & _ & _ & Hcorner & _).
  - simpl. repeat constructor; simpl; intuition discriminate.
  - exists derived. split; [exact Hd|].
    apply (Hcorner (Loader.sampleNode "g1" Loader.group 0 0 100 100)
                   (Loader.sampleNode "card" Loader.text (-10) (-10) 20 20)).
    + simpl. auto.
    + simpl. auto.
    + reflexivity.
    + discriminate.
    + reflexivity.
    + reflexivity.
    + reflexivity.
    + reflexivity.
    + reflexivity.
    + reflexivity.
Defined.

(** C9, as stated, fails when two nodes share an id.  In [twinNodes] the
    group [g] gets an edge to the id [n] for the first node of that id,
    whose centre (50, 50) is in the group; the second node of that id has
    another id than the group, its centre (510, 510) is not in the
    rectangle of the group, and yet an edge labelled [contains] goes from
    the id of the group to its id. *)
Lemma contains_edge_for_twin_outside :
  let g := Loader.sampleNode "g" Loader.group 0 0 100 100 in
  let far := Loader.sampleNode "n" Loader.text 500 500 20 20 in
  let derived :=
    fst (Loader.deriveGroupEdges Loader.sampleUUID Loader.twinNodes [] 0) in
  In g Loader.twinNodes /\ In far Loader.twinNodes
  /\ Loader.type g = Loader.group /\ Loader.id far <> Loader.id g
  /\ (exists e, In e derived /\ Loader.fromNode e = Loader.id g
                /\ Loader.toNode e = Loader.id far
                /\ Loader.elabel e = Some "contains")
  /\ (Loader.x far + Loader.width far / 2
      <=? Loader.x g + Loader.width g)%float = false
  /\ ~ ((exists e, In e derived /\ Loader.fromNode e = Loader.id g
                   /\ Loader.toNode e = Loader.id far
                   /\ Loader.elabel e = Some "contains")
        <->
        ((Loader.x g <=? Loader.x far + Loader.width far / 2) = true
         /\ (Loader.x far + Loader.width far / 2
             <=? Loader.x g + Loader.width g) = true
         /\ (Loader.y g <=? Loader.y far + Loader.height far / 2) = true
         /\ (Loader.y far + Loader.height far / 2
             <=? Loader.y g + Loader.height g) = true)%float).
Proof.
  intros g far derived.
  assert (Hedge : exists e, In e derived /\ Loader.fromNode e = Loader.id g
                            /\ Loader.toNode e = Loader.id far
                            /\ Loader.elabel e = Some "contains").
  { eexists. split; [left; reflexivity|]. repeat split. }
  split; [left; reflexivity|].
  split; [right; right; left; reflexivity|].
  split; [reflexivity|]. split; [discriminate|].
  split; [exact Hedge|]. split; [reflexivity|].
  intros [Hto _]. destruct (Hto Hedge) as (_ & Hx & _).
  discriminate Hx.
Qed.

(** The test follows the rounding of the code: in [wideNodes] the centre
    of the node is 2^53 + 1 as a real number, beyond the border 2^53 of
    the group, but the code computes the double 2^53 for it and derives
    the edge. *)
Example contains_edge_by_rounding :
  fst (Loader.deriveGroupEdges Loader.sampleUUID Loader.wideNodes [] 0)
  = [{| Loader.eid := "u0"; Loader.fromNode := "g"; Loader.toNode := "n";
        Loader.fromSide := None; Loader.toSide := None;
        Loader.elabel := Some "contains" |}].
Proof. reflexivity. Qed.

(** ** Regular expressions: what a match consumes *)

Section RegexFacts.
Import Streamer.

Lemma starLoop_progress
    (body : list ascii -> caps -> Continuation -> option MatchState)
    (k : Continuation) (res : MatchState) :
  (forall s c k', body s c k' = Some res ->
     exists s' c', k' s' c' = Some res /\ length s' <= length s) ->
  forall n s c,
    starLoop body k n s c = Some res ->
    exists s' c', k s' c' = Some res /\ length s' <= length s.
Proof.
  intros Hbody. induction n as [|n IH]; intros s c H; simpl in H.
  - eauto.
  - destruct (body s c _) as [res'|] eqn:E.
    + injection H as ->.
      destruct (Hbody _ _ _ E) as (s1 & c1 & Hk & Hlen).
      destruct (Nat.ltb (length s1) (length s)); [|discriminate].
      destruct (IH _ _ Hk) as (s2 & c2 & Hk2 & Hlen2).
      exists s2, c2. split; [assumption | lia].
    + eauto.
Qed.

(** A successful match hands to its continuation a text that is not longer
    than the input, and shorter when the pattern is consuming. *)
Lemma rmatch_progress (r : regex) :
  forall s c k res,
    rmatch r s c k = Some res ->
    exists s' c', k s' c' = Some res /\ shrinks r s s'.
Proof.
  unfold shrinks.
  induction r as [|a|p|r1 IH1 r2 IH2|r1 IH1|r1 IH1|n r1 IH1|r1 IH1];
    intros s c k res H; simpl in H.
  - exists s, c. repeat split; auto; discriminate.
  - destruct s as [|b s']; [discriminate|].
    destruct (Ascii.eqb a b); [|discriminate].
    exists s', c. simpl. repeat split; auto.
  - destruct s as [|b s']; [discriminate|].
    destruct (p b); [|discriminate].
    exists s', c. simpl. repeat split; auto.
  - destruct (IH1 _ _ _ _ H) as (s1 & c1 & H1 & Hle1 & Hlt1).
    destruct (IH2 _ _ _ _ H1) as (s2 & c2 & H2 & Hle2 & Hlt2).
    exists s2, c2. simpl. split; [assumption|]. split; [lia|].
    intros Hc. apply orb_true_iff in Hc. destruct Hc as [Hc|Hc].
    + specialize (Hlt1 Hc). lia.
    + specialize (Hlt2 Hc). lia.
  - destruct (starLoop_progress (rmatch r1) k res) with (n := length s)
        (s := s) (c := c) as (s' & c' & Hk & Hlen); auto.
    + intros s0 c0 k' Hb. destruct (IH1 _ _ _ _ Hb) as (s1 & c1 & ? & ? & _).
      eauto.
    + exists s', c'. simpl. repeat split; auto; discriminate.
  - destruct (rmatch r1 s c _) as [res'|] eqn:E.
    + injection H as ->.
      destruct (IH1 _ _ _ _ E) as (s1 & c1 & Hk & Hle & _).
      destruct (Nat.ltb (length s1) (length s)); [|discriminate].
      exists s1, c1. simpl. repeat split; auto; discriminate.
    + exists s, c. simpl. repeat split; auto; discriminate.
  - destruct (IH1 _ _ _ _ H) as (s1 & c1 & Hk & Hle & Hlt).
    simpl. eauto.
  - destruct (rmatch r1 s c _); [discriminate|].
    exists s, c. simpl. repeat split; auto; discriminate.
Qed.

Lemma search_unfold (r : regex) (s : list ascii) (i : nat) :
  search r s i =
  match rmatch r s [] (fun s' c' => Some (s', c')) with
  | Some (s', c') =>
      Some {| m_index := i; m_text := firstn (length s - length s') s;
              m_groups := c'; m_end := i + (length s - length s') |}
  | None =>
      match s with
      | [] => None
      | _ :: s' => search r s' (S i)
      end
  end.
Proof. destruct s; reflexivity. Qed.

Lemma isPrefix_firstn (n : nat) (s : list ascii) :
  isPrefix (firstn n s) s = true.
Proof.
  revert n. induction s as [|a s IH]; intros [|n]; simpl; auto.
  now rewrite Ascii.eqb_refl, IH.
Qed.

Lemma isPrefix_length (p s : list ascii) :
  isPrefix p s = true -> length p <= length s.
Proof.
  revert s. induction p as [|a p IH]; intros [|b s]; simpl; try lia;
    try discriminate.
  intros H. apply andb_true_iff in H. destruct H as [_ H].
  apply IH in H. lia.
Qed.

(** Removing the first occurrence of a text that occurs somewhere shortens
    the buffer by the length of that text. *)
Lemma replaceFirst_length (p s : list ascii) (i : nat) :
  isPrefix p (skipn i s) = true ->
  length (replaceFirst p s) + length p = length s.
Proof.
  revert i. induction s as [|a s IH]; intros i H.
  - rewrite skipn_nil in H. destruct p; [reflexivity | discriminate].
  - cbn [replaceFirst]. destruct (isPrefix p (a :: s)) eqn:E.
    + apply isPrefix_length in E. rewrite length_skipn. lia.
    + destruct i as [|i]; [simpl in H; congruence|].
      simpl in H. simpl. rewrite <- (IH i H). lia.
Qed.

(** What [search] returns lies in the input, behind the start position. *)
Lemma search_bounds (r : regex) (s : list ascii) (i : nat) (m : RegExpMatch) :
  search r s i = Some m ->
  i <= m_index m /\
  m_end m = m_index m + length (m_text m) /\
  m_end m <= i + length s /\
  isPrefix (m_text m) (skipn (m_index m - i) s) = true /\
  (consuming r = true -> m_index m < m_end m).
Proof.
  assert (Hhit : forall s i s' c',
    rmatch r s [] (fun s' c' => Some (s', c')) = Some (s', c') ->
    let n := length s - length s' in
    i + n = i + length (firstn n s) /\ i + n <= i + length s /\
    isPrefix (firstn n s) (skipn (i - i) s) = true /\
    (consuming r = true -> i < i + n)).
  { intros s0 i0 s' c' E n.
    destruct (rmatch_progress _ _ _ _ _ E) as (s1 & c1 & Hk & Hle & Hlt).
    injection Hk as -> ->.
    rewrite Nat.sub_diag. change (skipn 0 s0) with s0.
    rewrite isPrefix_firstn, length_firstn. subst n.
    repeat split; try lia. intros Hc. specialize (Hlt Hc). lia. }
  revert i. induction s as [|a s IH]; intros i H;
    rewrite search_unfold in H;
    (destruct (rmatch r _ [] _) as [[s' c']|] eqn:E;
     [ injection H as <-; cbn [m_index m_text m_end];
       split; [lia | exact (Hhit _ i _ _ E)]
     | ]).
  - discriminate.
  - destruct (IH _ H) as (H1 & H2 & H3 & H4 & H5).
    repeat split; try lia; auto.
    + simpl. lia.
    + replace (m_index m - i) with (S (m_index m - S i)) by lia.
      exact H4.
Qed.

Lemma exec_bounds (r : regex) (input : list ascii) (lastIndex : nat)
    (m : RegExpMatch) :
  exec r input lastIndex = Some m ->
  lastIndex <= m_index m /\
  m_end m <= length input /\
  isPrefix (m_text m) (skipn (m_index m) input) = true /\
  m_end m = m_index m + length (m_text m) /\
  (consuming r = true -> m_index m < m_end m).
Proof.
  unfold exec. destruct (Nat.ltb (length input) lastIndex) eqn:E;
    [discriminate|].
  apply Nat.ltb_ge in E. intros H.
  destruct (search_bounds _ _ _ _ H) as (H1 & H2 & H3 & H4 & H5).
  rewrite length_skipn in H3. rewrite skipn_skipn in H4.
  replace (m_index m - lastIndex + lastIndex) with (m_index m) in H4 by lia.
  repeat split; auto; lia.
Qed.

End RegexFacts.

(** ** The streaming parser *)

Section StreamerFacts.
Import Streamer.

Variable generatedEdgeId : nat -> string.

Local Abbreviation buildAddEdge := (buildAddEdge generatedEdgeId).
Local Abbreviation extractCompletedOperations :=
  (extractCompletedOperations generatedEdgeId).
Local Abbreviation processChunk := (processChunk generatedEdgeId).

(** *** The loops end *)

Lemma attrPattern_consuming : consuming attrPattern = true.
Proof. reflexivity. Qed.

Lemma parseAttributesLoop_total (fuel : nat) (tagContent : list ascii) :
  forall lastIndex attrs,
    length tagContent - lastIndex < fuel ->
    exists attrs', parseAttributesLoop fuel tagContent lastIndex attrs = Some attrs'.
Proof.
  induction fuel as [|fuel IH]; intros lastIndex attrs Hfuel; [lia|].
  simpl. destruct (exec attrPattern tagContent lastIndex) as [m|] eqn:E;
    [|eauto].
  destruct (exec_bounds _ _ _ _ E) as (H1 & H2 & _ & _ & H5).
  specialize (H5 attrPattern_consuming).
  apply IH. lia.
Qed.

(** [parseAttributes] returns an attribute map for every tag content. *)
Lemma parseAttributes_total (tagContent : list ascii) :
  exists attrs, parseAttributes tagContent = Some attrs.
Proof. apply parseAttributesLoop_total. lia. Qed.

(** The loop of a consuming pattern ends within the bound: an iteration
    either shortens the buffer or moves [lastIndex] forward.  The scan it
    ends in has only gained operations that the builder made, and its
    buffer is exhausted for the pattern. *)
Lemma whileExec_spec (pattern : regex) (build : Builder) :
  consuming pattern = true ->
  forall fuel st,
    length (sc_buffer st) * length (sc_buffer st)
      + 2 * length (sc_buffer st) - sc_lastIndex st < fuel ->
    (Exhausted pattern build (sc_buffer st) (sc_generated st) (sc_lastIndex st) ->
     Exhausted pattern build (sc_buffer st) (sc_generated st) 0) ->
    exists st' l,
      whileExec fuel pattern build st = Some st'
      /\ sc_operations st' = sc_operations st ++ l
      /\ Forall (Built pattern build) l
      /\ sc_lastIndex st' = 0
      /\ Exhausted pattern build (sc_buffer st') (sc_generated st') 0.
Proof.
  intros Hcons. induction fuel as [|fuel IH]; intros st Hfuel Hreach; [lia|].
  cbn [whileExec].
  destruct (exec pattern (sc_buffer st) (sc_lastIndex st)) as [m|] eqn:E.
  - destruct (exec_bounds _ _ _ _ E) as (H1 & H2 & H3 & H4 & H5).
    specialize (H5 Hcons).
    destruct (parseAttributes_total (group 1 m)) as (attrs & Hattrs).
    rewrite Hattrs.
    destruct (build attrs m (sc_generated st)) as [[op gen']|] eqn:Hb.
    + pose proof (replaceFirst_length _ _ _ H3) as Hlen.
      destruct (IH {| sc_buffer := replaceFirst (m_text m) (sc_buffer st);
                      sc_lastIndex := 0;
                      sc_operations := sc_operations st ++ [op];
                      sc_generated := gen' |})
        as (st' & l & Hrun & Hops & Hbuilt & Hli & Hex).
      * cbn [sc_buffer sc_lastIndex]. nia.
      * auto.
      * exists st', (op :: l). split; [exact Hrun|]. split.
        { rewrite Hops. cbn [sc_operations]. now rewrite <- app_assoc. }
        split; [|auto]. constructor; [|assumption].
        exists m, attrs. split; [eauto|]. split; [exact Hattrs|]. eauto.
    + destruct (IH {| sc_buffer := sc_buffer st;
                      sc_lastIndex := m_end m;
                      sc_operations := sc_operations st;
                      sc_generated := sc_generated st |})
        as (st' & l & Hrun & Hops & Hbuilt & Hli & Hex).
      * cbn [sc_buffer sc_lastIndex]. nia.
      * cbn [sc_buffer sc_lastIndex sc_generated]. intros Hend.
        apply Hreach. now apply exhausted_skip with (m := m) (attrs := attrs).
      * exists st', l. auto.
  - exists {| sc_buffer := sc_buffer st; sc_lastIndex := 0;
              sc_operations := sc_operations st;
              sc_generated := sc_generated st |}, [].
    split; [reflexivity|]. cbn. rewrite app_nil_r.
    split; [reflexivity|]. split; [constructor|]. split; [reflexivity|].
    apply Hreach. now constructor.
Qed.

Lemma scanShape_spec (pattern : regex) (build : Builder) (st : Scan) :
  consuming pattern = true ->
  sc_lastIndex st = 0 ->
  exists st' l, ScansShape pattern build st st' l /\ Forall (Built pattern build) l.
Proof.
  intros Hcons Hli.
  destruct (whileExec_spec pattern build Hcons
              (iterations (length (sc_buffer st))) st)
    as (st' & l & Hrun & Hops & Hbuilt & Hli' & Hex).
  - unfold iterations. lia.
  - now rewrite Hli.
  - exists st', l. unfold ScansShape, scanShape. auto.
Qed.


(** *** What each loop pushes *)

Lemma built_addNodeWithContent (op : CanvasOperation) (m : RegExpMatch)
    (attrs : Attrs) :
  BuiltFrom addNodeWithContentPattern buildAddNodeWithContent m attrs op ->
  exists content, op = OpAddNode (addNodeOf attrs content).
Proof.
  intros (_ & _ & gen & gen' & H). unfold buildAddNodeWithContent in H.
  destruct (truthy (attr "id" attrs) && truthy (attr "type" attrs));
    [|discriminate].
  injection H as <- _. eauto.
Qed.

Lemma built_addNodeSelfClosing (op : CanvasOperation) (m : RegExpMatch)
    (attrs : Attrs) :
  BuiltFrom addNodeSelfClosingPattern buildAddNodeSelfClosing m attrs op ->
  op = OpAddNode (addNodeOf attrs None).
Proof.
  intros (_ & _ & gen & gen' & H). unfold buildAddNodeSelfClosing in H.
  destruct (truthy (attr "id" attrs) && truthy (attr "type" attrs));
    [|discriminate].
  now injection H as <- _.
Qed.

Lemma built_kinds :
  (forall op, Built addNodeWithContentPattern buildAddNodeWithContent op ->
              isAddNode op = true)
  /\ (forall op, Built addNodeSelfClosingPattern buildAddNodeSelfClosing op ->
                 isAddNode op = true)
  /\ (forall op, Built updateNodePattern buildUpdateNode op ->
                 isUpdateNode op = true)
  /\ (forall op, Built deleteNodePattern buildDeleteNode op ->
                 isDeleteNode op = true)
  /\ (forall op, Built addEdgePattern buildAddEdge op -> isAddEdge op = true)
  /\ (forall op, Built deleteEdgePattern buildDeleteEdge op ->
                 isDeleteEdge op = true).
Proof.
  repeat split; intros op (m & attrs & _ & _ & gen & gen' & H).
  - unfold buildAddNodeWithContent in H.
    destruct (_ && _); [now injection H as <- _ | discriminate].
  - unfold buildAddNodeSelfClosing in H.
    destruct (_ && _); [now injection H as <- _ | discriminate].
  - unfold buildUpdateNode in H.
    destruct (truthy _); [now injection H as <- _ | discriminate].
  - unfold buildDeleteNode in H.
    destruct (truthy _); [now injection H as <- _ | discriminate].
  - unfold Streamer.buildAddEdge in H.
    destruct (_ && _); [|discriminate].
    destruct (truthy (attr "id" attrs)); now injection H as <- _.
  - unfold buildDeleteEdge in H.
    destruct (truthy _); [now injection H as <- _ | discriminate].
Qed.

Lemma Forall_kind (P : CanvasOperation -> Prop) (k : CanvasOperation -> bool)
    (l : list CanvasOperation) :
  (forall op, P op -> k op = true) -> Forall P l -> forallb k l = true.
Proof.
  intros H HP. apply forallb_forall. intros op Hin.
  rewrite Forall_forall in HP. auto.
Qed.

Lemma captureCanvasEdit_buffer (this : Streamer) :
  buffer (captureCanvasEdit this) = buffer this
  /\ generated (captureCanvasEdit this) = generated this.
Proof.
  unfold captureCanvasEdit.
  destruct (_ || _); [|auto].
  destruct (exec canvasEditPattern (buffer this) 0); auto.
Qed.

(** The six loops of a call, one after the other, and what they push. *)
Lemma processChunk_scans (this : Streamer) (chunk : string) :
  exists st1 st2 st3 st4 st5 st6 l1 l2 l3 l4 l5 l6 this',
    ScansShape addNodeWithContentPattern buildAddNodeWithContent
               (startScan this chunk) st1 l1
    /\ ScansShape addNodeSelfClosingPattern buildAddNodeSelfClosing st1 st2 l2
    /\ ScansShape updateNodePattern buildUpdateNode st2 st3 l3
    /\ ScansShape deleteNodePattern buildDeleteNode st3 st4 l4
    /\ ScansShape addEdgePattern buildAddEdge st4 st5 l5
    /\ ScansShape deleteEdgePattern buildDeleteEdge st5 st6 l6
    /\ processChunk this chunk
       = Some (this', l1 ++ l2 ++ l3 ++ l4 ++ l5 ++ l6)
    /\ buffer this' = sc_buffer st6
    /\ Forall (Built addNodeWithContentPattern buildAddNodeWithContent) l1
    /\ Forall (Built addNodeSelfClosingPattern buildAddNodeSelfClosing) l2
    /\ Forall (Built updateNodePattern buildUpdateNode) l3
    /\ Forall (Built deleteNodePattern buildDeleteNode) l4
    /\ Forall (Built addEdgePattern buildAddEdge) l5
    /\ Forall (Built deleteEdgePattern buildDeleteEdge) l6.
Proof.
  destruct (scanShape_spec addNodeWithContentPattern buildAddNodeWithContent
              (startScan this chunk) eq_refl eq_refl)
    as (st1 & l1 & S1 & B1).
  destruct (scanShape_spec addNodeSelfClosingPattern buildAddNodeSelfClosing
              st1 eq_refl (proj1 (proj2 (proj2 S1)))) as (st2 & l2 & S2 & B2).
  destruct (scanShape_spec updateNodePattern buildUpdateNode
              st2 eq_refl (proj1 (proj2 (proj2 S2)))) as (st3 & l3 & S3 & B3).
  destruct (scanShape_spec deleteNodePattern buildDeleteNode
              st3 eq_refl (proj1 (proj2 (proj2 S3)))) as (st4 & l4 & S4 & B4).
  destruct (scanShape_spec addEdgePattern buildAddEdge
              st4 eq_refl (proj1 (proj2 (proj2 S4)))) as (st5 & l5 & S5 & B5).
  destruct (scanShape_spec deleteEdgePattern buildDeleteEdge
              st5 eq_refl (proj1 (proj2 (proj2 S5)))) as (st6 & l6 & S6 & B6).
  exists st1, st2, st3, st4, st5, st6, l1, l2, l3, l4, l5, l6.
  eexists.
  repeat (split; [eassumption|]).
  split; [|split; [|auto 10]].
  - unfold Streamer.processChunk, Streamer.extractCompletedOperations.
    match goal with
    | |- context [captureCanvasEdit ?t] =>
        destruct (captureCanvasEdit_buffer t) as [Hb Hg]; rewrite Hb, Hg
    end.
    cbn [buffer generated].
    change {| sc_buffer := buffer this ++ list_ascii_of_string chunk;
              sc_lastIndex := 0; sc_operations := [];
              sc_generated := generated this |}
      with (startScan this chunk).
    destruct S1 as (R1 & O1 & _), S2 as (R2 & O2 & _), S3 as (R3 & O3 & _),
             S4 as (R4 & O4 & _), S5 as (R5 & O5 & _), S6 as (R6 & O6 & _).
    rewrite R1. cbn [andThen]. rewrite R2. cbn [andThen].
    rewrite R3. cbn [andThen]. rewrite R4. cbn [andThen].
    rewrite R5. cbn [andThen]. rewrite R6.
    rewrite O6, O5, O4, O3, O2, O1. cbn [startScan sc_operations app].
    rewrite <- !app_assoc. reflexivity.
  - reflexivity.
Qed.


(** C5. Every call of [processChunk] returns: it runs the six loops in the
    order add_node with content, add_node self-closing, update_node,
    delete_node, add_edge, delete_edge, each on the buffer the loop before
    it left and each until the buffer is exhausted for its pattern, and
    the operations it yields are those of the first loop, then those of
    the second, and so on; the operations of a loop are of the kind of its
    shape.  So a [delete_node] tag placed before an [add_node] tag in one
    chunk is yielded after it, while two [delete_node] tags keep their
    order. *)
Theorem shape_priority_order (this : Streamer) (chunk : string) :
  (exists st1 st2 st3 st4 st5 st6 l1 l2 l3 l4 l5 l6 this',
     ScansShape addNodeWithContentPattern buildAddNodeWithContent
                (startScan this chunk) st1 l1
     /\ ScansShape addNodeSelfClosingPattern buildAddNodeSelfClosing st1 st2 l2
     /\ ScansShape updateNodePattern buildUpdateNode st2 st3 l3
     /\ ScansShape deleteNodePattern buildDeleteNode st3 st4 l4
     /\ ScansShape addEdgePattern buildAddEdge st4 st5 l5
     /\ ScansShape deleteEdgePattern buildDeleteEdge st5 st6 l6
     /\ processChunk this chunk
        = Some (this', l1 ++ l2 ++ l3 ++ l4 ++ l5 ++ l6)
     /\ buffer this' = sc_buffer st6
     /\ forallb isAddNode l1 = true
     /\ forallb isAddNode l2 = true
     /\ forallb isUpdateNode l3 = true
     /\ forallb isDeleteNode l4 = true
     /\ forallb isAddEdge l5 = true
     /\ forallb isDeleteEdge l6 = true)
  /\ option_map snd
       (processChunk fresh
          (q "<delete_node id='a'/><add_node id='b' type='group'/><delete_node id='c'/>"))
     = Some [OpAddNode
               (mkAddNode "b" "group" (JInt 0) (JInt 0) (JInt 200) (JInt 100)
                          None None None None None);
             OpDeleteNode "a"; OpDeleteNode "c"].
Proof.
  split; [|vm_compute; reflexivity].
  destruct (processChunk_scans this chunk)
    as (st1 & st2 & st3 & st4 & st5 & st6 & l1 & l2 & l3 & l4 & l5 & l6
        & this' & S1 & S2 & S3 & S4 & S5 & S6 & Hrun & Hbuf
        & B1 & B2 & B3 & B4 & B5 & B6).
  destruct built_kinds as (K1 & K2 & K3 & K4 & K5 & K6).
  exists st1, st2, st3, st4, st5, st6, l1, l2, l3, l4, l5, l6, this'.
  repeat (split; [assumption|]).
  split; [exact (Forall_kind _ _ _ K1 B1)|].
  split; [exact (Forall_kind _ _ _ K2 B2)|].
  split; [exact (Forall_kind _ _ _ K3 B3)|].
  split; [exact (Forall_kind _ _ _ K4 B4)|].
  split; [exact (Forall_kind _ _ _ K5 B5)|].
  exact (Forall_kind _ _ _ K6 B6).
Qed.

(** *** Numeric attributes *)

Lemma digit_not_white (c : ascii) : isDigit c = true -> isWhite c = false.
Proof.
  unfold isDigit, isWhite. intros H.
  apply andb_true_iff in H. destruct H as [H1 H2].
  apply Nat.leb_le in H1, H2. cbn [existsb].
  repeat match goal with
         | |- context [Nat.eqb (code c) ?n] =>
             rewrite (proj2 (Nat.eqb_neq (code c) n)) by lia
         end.
  reflexivity.
Qed.

Lemma skipWhite_head (c : ascii) (s : list ascii) :
  isWhite c = false -> skipWhite (c :: s) = c :: s.
Proof. intros H. simpl. now rewrite H. Qed.

Lemma spanDigits_app (ds rest : list ascii) :
  forallb isDigit ds = true ->
  match rest with [] => True | c :: _ => isDigit c = false end ->
  spanDigits (ds ++ rest) = (ds, rest).
Proof.
  intros Hds Hrest. induction ds as [|d ds IH]; simpl.
  - destruct rest as [|c rest]; [reflexivity|]. simpl. now rewrite Hrest.
  - simpl in Hds. apply andb_true_iff in Hds. destruct Hds as [Hd Hds].
    rewrite Hd, (IH Hds). reflexivity.
Qed.

Lemma str_cons (c : ascii) (s : list ascii) :
  str (c :: s) = String c (str s).
Proof. reflexivity. Qed.

Lemma or_else_nonempty (l : list ascii) (d : string) :
  l <> [] ->
  list_ascii_of_string (or_else (Some (string_of_list_ascii l)) d) = l.
Proof.
  destruct l as [|c l]; [congruence|]. intros _.
  change (string_of_list_ascii (c :: l))
    with (String c (string_of_list_ascii l)).
  cbn [or_else list_ascii_of_string].
  now rewrite list_ascii_of_string_of_list_ascii.
Qed.

Lemma skipWhite_app (w s : list ascii) :
  forallb isWhite w = true -> skipWhite (w ++ s) = skipWhite s.
Proof.
  induction w as [|c w IH]; simpl; intros H; [reflexivity|].
  apply andb_true_iff in H. destruct H as [Hc Hw]. rewrite Hc. auto.
Qed.

Lemma skipWhite_sign (negative plusSign : bool) (s : list ascii) :
  match s with [] => True | c :: _ => isWhite c = false end ->
  skipWhite (signText negative plusSign ++ s) = signText negative plusSign ++ s.
Proof.
  destruct negative; [reflexivity|]. destruct plusSign; [reflexivity|].
  destruct s as [|c s]; [reflexivity|]. apply skipWhite_head.
Qed.

Lemma not_sign (c : ascii) :
  isDigit c = true -> Ascii.eqb c "-" = false /\ Ascii.eqb c "+" = false.
Proof.
  intros H. split.
  - destruct (Ascii.eqb c "-") eqn:E; [|reflexivity].
    apply Ascii.eqb_eq in E. subst c. discriminate.
  - destruct (Ascii.eqb c "+") eqn:E; [|reflexivity].
    apply Ascii.eqb_eq in E. subst c. discriminate.
Qed.

(** [toNumber] rounds as the binary64 format of the Standard Library
    does, on the samples, for both signs. *)
Lemma toNumber_rounds_as_binary64 :
  map (toNumber false) roundingSamples
  = map (fun z => specNumber (binary_normalize 53 1024 z 0 false))
        roundingSamples
  /\ map (toNumber true) roundingSamples
     = map (fun z => specNumber (binary_normalize 53 1024 (- z) 0 true))
           roundingSamples.
Proof. split; vm_compute; reflexivity. Qed.

(** A positive integer up to 2^53 is a double. *)
Lemma nearestDouble_small (a : Z) :
  (0 < a <= 2 ^ 53)%Z -> nearestDouble a = a.
Proof.
  intros [Hpos Hle]. unfold nearestDouble.
  destruct (Z.eq_dec a (2 ^ 53)) as [->|Hne]; [reflexivity|].
  assert (Hlog : (Z.log2 a < 53)%Z) by (apply Z.log2_lt_pow2; lia).
  destruct (Z.leb_spec (Z.log2 a - 52) 0); [reflexivity | lia].
Qed.

(** Beyond 2^53 the nearest double ends in zero bits behind the 53
    leading ones, and is at most half the weight of the last of them away
    from the integer. *)
Lemma nearestDouble_close (a : Z) :
  (2 ^ 53 < a)%Z ->
  (2 * Z.abs (nearestDouble a - a) <= 2 ^ (Z.log2 a - 52))%Z
  /\ (nearestDouble a mod 2 ^ (Z.log2 a - 52) = 0)%Z.
Proof.
  intros Hbig. unfold nearestDouble.
  assert (Hlog : (53 <= Z.log2 a)%Z).
  { apply Z.log2_le_pow2; lia. }
  set (e := (Z.log2 a - 52)%Z).
  assert (He : (0 < e)%Z) by (unfold e; lia).
  destruct (Z.leb_spec e 0); [lia|].
  assert (Hpow : (2 ^ e = 2 * 2 ^ (e - 1))%Z).
  { replace e with (Z.succ (e - 1)) at 1 by lia.
    apply Z.pow_succ_r. lia. }
  assert (Hhalf : (0 < 2 ^ (e - 1))%Z) by (apply Z.pow_pos_nonneg; lia).
  pose proof (Z.div_mod a (2 ^ e) ltac:(lia)) as Hdm.
  pose proof (Z.mod_pos_bound a (2 ^ e) ltac:(lia)) as Hmod.
  set (mantissa := (a / 2 ^ e)%Z) in *.
  set (cut := (a mod 2 ^ e)%Z) in *.
  set (half := (2 ^ (e - 1))%Z) in *.
  split.
  - destruct ((half <? cut)%Z || ((half =? cut)%Z && Z.odd mantissa)) eqn:Hup.
    + assert (half <= cut)%Z.
      { apply orb_true_iff in Hup. destruct Hup as [Hup|Hup].
        - apply Z.ltb_lt in Hup. lia.
        - apply andb_true_iff in Hup. destruct Hup as [Hup _].
          apply Z.eqb_eq in Hup. lia. }
      nia.
    + assert (cut <= half)%Z.
      { apply orb_false_iff in Hup. destruct Hup as [Hup _].
        apply Z.ltb_ge in Hup. lia. }
      nia.
  - apply Z.mod_mul. lia.
Qed.

(** What [toNumber] returns, by the size of the integer. *)
Lemma toNumber_cases (negative : bool) (a : Z) :
  ((0 < a <= 2 ^ 53)%Z ->
   toNumber negative a = JInt ((if negative then -1 else 1) * a))
  /\ (a = 0%Z -> toNumber negative a = if negative then JNegZero else JInt 0)
  /\ ((2 ^ 53 < a)%Z ->
      toNumber negative a = JInfinity negative
      \/ exists r,
           toNumber negative a = JInt ((if negative then -1 else 1) * r)
           /\ (2 * Z.abs (r - a) <= 2 ^ (Z.log2 a - 52))%Z
           /\ (r mod 2 ^ (Z.log2 a - 52) = 0)%Z).
Proof.
  assert (Hsign : forall r,
            JInt (if negative then (- r)%Z else r)
            = JInt ((if negative then -1 else 1) * r)).
  { intros r. f_equal. destruct negative; lia. }
  split; [|split].
  - intros Ha. unfold toNumber.
    rewrite (proj2 (Z.eqb_neq a 0)) by lia.
    rewrite (nearestDouble_small a Ha).
    assert (Hsmall : (2 ^ 53 < 2 ^ 1024)%Z) by reflexivity.
    rewrite (proj2 (Z.leb_gt (2 ^ 1024) a)) by lia.
    apply Hsign.
  - intros ->. reflexivity.
  - intros Ha. unfold toNumber.
    assert (Hpos : (0 < 2 ^ 53)%Z) by reflexivity.
    rewrite (proj2 (Z.eqb_neq a 0)) by lia.
    destruct (2 ^ 1024 <=? nearestDouble a)%Z; [now left|].
    right. exists (nearestDouble a).
    split; [apply Hsign | exact (nearestDouble_close a Ha)].
Qed.

(** A numeric field read with [parseInt(a || d, 10)], where the text [d]
    denotes the integer [default]. *)
Lemma numeric_field (a : option string) (d : string) (default : Z) :
  parseInt d = JInt default ->
  numericAttribute a default (parseInt (or_else a d)).
Proof.
  intros Hd. split; [|split].
  - intros [-> | ->]; exact Hd.
  - intros w negative plusSign ds rest -> Hw Hne Hds Hrest.
    destruct ds as [|d0 ds]; [congruence|].
    assert (Hd0 : isDigit d0 = true)
      by (simpl in Hds; now apply andb_true_iff in Hds).
    assert (Hspan : spanDigits ((d0 :: ds) ++ rest) = (d0 :: ds, rest))
      by now apply spanDigits_app.
    destruct (not_sign d0 Hd0) as [Hminus Hplus].
    assert (Hvalue : parseInt
                       (or_else
                          (Some (string_of_list_ascii
                                   (w ++ signText negative plusSign
                                      ++ (d0 :: ds) ++ rest))) d)
                     = toNumber negative (digitsValue (d0 :: ds))).
    { unfold parseInt.
      rewrite or_else_nonempty
        by (destruct w, negative, plusSign; discriminate).
      rewrite skipWhite_app by assumption.
      rewrite skipWhite_sign by now apply digit_not_white.
      destruct negative; [|destruct plusSign]; cbn [signText app].
      + rewrite Ascii.eqb_refl.
        change (d0 :: ds ++ rest) with ((d0 :: ds) ++ rest).
        now rewrite Hspan.
      + change (Ascii.eqb "+" "-") with false. rewrite Ascii.eqb_refl.
        change (d0 :: ds ++ rest) with ((d0 :: ds) ++ rest).
        now rewrite Hspan.
      + rewrite Hminus, Hplus.
        change (d0 :: ds ++ rest) with ((d0 :: ds) ++ rest).
        now rewrite Hspan. }
    rewrite Hvalue. split; [reflexivity|].
    exact (toNumber_cases negative (digitsValue (d0 :: ds))).
  - intros w negative plusSign rest -> Hne Hw Hrest.
    unfold parseInt.
    rewrite or_else_nonempty by assumption.
    rewrite skipWhite_app by assumption.
    assert (Hnodigit : fst (spanDigits rest) = []).
    { destruct rest as [|c rest]; [reflexivity|].
      cbn [spanDigits]. now rewrite (proj1 Hrest). }
    destruct negative; [|destruct plusSign]; cbn [signText app] in *.
    + rewrite skipWhite_head by reflexivity.
      rewrite Ascii.eqb_refl. now rewrite Hnodigit.
    + rewrite skipWhite_head by reflexivity.
      change (Ascii.eqb "+" "-") with false. rewrite Ascii.eqb_refl.
      now rewrite Hnodigit.
    + destruct rest as [|c rest]; [reflexivity|].
      destruct Hrest as (Hdig & Hsign).
      destruct (Hsign eq_refl) as (Hwhite & Hplus & Hminus).
      rewrite skipWhite_head by assumption.
      apply Ascii.eqb_neq in Hplus, Hminus. rewrite Hminus, Hplus.
      cbn [spanDigits]. now rewrite Hdig.
Qed.

(** C6 (amended). Every [add_node] operation that [processChunk] yields is
    built from the attributes of a match of one of the two [add_node]
    patterns, and its [x], [y], [width] and [height] are read from the
    attributes of those names with [parseInt]: the field is the default
    (0, 0, 200, 100) when the attribute is absent or empty; the Number
    for the integer its leading signed digits denote when it starts with
    them, which is that integer up to 2^53 and the nearest double (or an
    infinity) beyond; and [NaN] when it starts with a character that is
    neither white space, a sign nor a digit. *)
Theorem add_node_numeric_attributes (this this' : Streamer) (chunk : string)
    (ops : list CanvasOperation) (op : AddNodeOperation) :
  processChunk this chunk = Some (this', ops) ->
  In (OpAddNode op) ops ->
  exists m attrs,
    (BuiltFrom addNodeWithContentPattern buildAddNodeWithContent
               m attrs (OpAddNode op)
     \/ BuiltFrom addNodeSelfClosingPattern buildAddNodeSelfClosing
                  m attrs (OpAddNode op))
    /\ an_id op = defined (attr "id" attrs)
    /\ numericAttribute (attr "x" attrs) 0 (an_x op)
    /\ numericAttribute (attr "y" attrs) 0 (an_y op)
    /\ numericAttribute (attr "width" attrs) 200 (an_width op)
    /\ numericAttribute (attr "height" attrs) 100 (an_height op).
Proof.
  intros Hrun Hin.
  destruct (processChunk_scans this chunk)
    as (st1 & st2 & st3 & st4 & st5 & st6 & l1 & l2 & l3 & l4 & l5 & l6
        & this0 & _ & _ & _ & _ & _ & _ & Hrun' & _
        & B1 & B2 & B3 & B4 & B5 & B6).
  rewrite Hrun in Hrun'. injection Hrun' as _ ->.
  destruct built_kinds as (_ & _ & K3 & K4 & K5 & K6).
  assert (Hfields : forall attrs content,
    an_id (addNodeOf attrs content) = defined (attr "id" attrs)
    /\ numericAttribute (attr "x" attrs) 0 (an_x (addNodeOf attrs content))
    /\ numericAttribute (attr "y" attrs) 0 (an_y (addNodeOf attrs content))
    /\ numericAttribute (attr "width" attrs) 200
                        (an_width (addNodeOf attrs content))
    /\ numericAttribute (attr "height" attrs) 100
                        (an_height (addNodeOf attrs content))).
  { intros attrs content. cbn [addNodeOf an_id an_x an_y an_width an_height].
    split; [reflexivity|].
    split; [apply numeric_field; reflexivity|].
    split; [apply numeric_field; reflexivity|].
    split; apply numeric_field; reflexivity. }
  assert (Hother : forall (k : CanvasOperation -> bool) P l,
    (forall o, P o -> k o = true) -> Forall P l ->
    k (OpAddNode op) = false -> ~ In (OpAddNode op) l).
  { intros k P l Hk HP Hno Hl. rewrite Forall_forall in HP.
    specialize (Hk _ (HP _ Hl)). congruence. }
  rewrite !in_app_iff in Hin.
  destruct Hin as [Hin|[Hin|[Hin|[Hin|[Hin|Hin]]]]].
  - rewrite Forall_forall in B1. destruct (B1 _ Hin) as (m & attrs & Hb).
    destruct (built_addNodeWithContent _ _ _ Hb) as (content & E).
    injection E as ->. exists m, attrs. split; [now left | apply Hfields].
  - rewrite Forall_forall in B2. destruct (B2 _ Hin) as (m & attrs & Hb).
    pose proof (built_addNodeSelfClosing _ _ _ Hb) as E.
    injection E as ->. exists m, attrs. split; [now right | apply Hfields].
  - now destruct (Hother _ _ _ K3 B3 eq_refl Hin).
  - now destruct (Hother _ _ _ K4 B4 eq_refl Hin).
  - now destruct (Hother _ _ _ K5 B5 eq_refl Hin).
  - now destruct (Hother _ _ _ K6 B6 eq_refl Hin).
Qed.

End StreamerFacts.

Section StreamerRuns.
Import Streamer.

(** [parseInt] on a few texts. *)
Example parseInt_samples :
  parseInt "42" = JInt 42
  /\ parseInt " -7px" = JInt (-7)
  /\ parseInt "+15.9" = JInt 15
  /\ parseInt "abc" = JNaN
  /\ parseInt "- 5" = JNaN
  /\ parseInt EmptyString = JNaN
  /\ parseInt "-0" = JNegZero
  /\ parseInt "9007199254740992" = JInt 9007199254740992
  /\ parseInt "9007199254740993" = JInt 9007199254740992
  /\ parseInt "-9007199254740995" = JInt (-9007199254740996)
  /\ parseInt "100000000000000000000000" = JInt 99999999999999991611392
  /\ parseInt (string_of_list_ascii ("1"%char :: repeat "0"%char 309))
     = JInfinity false.
Proof. repeat split; vm_compute; reflexivity. Qed.

(** The captures of the attribute pattern, and of the pattern for
    [add_node] with content, on small inputs. *)
Example attribute_samples :
  parseAttributes (list_ascii_of_string (q "id='n1' x='10' note x='20'"))
  = Some [("x", "20"); ("x", "10"); ("id", "n1")]
  /\ option_map (fun m => (m_index m, str (group 1 m), str (group 2 m)))
       (exec addNodeWithContentPattern
          (list_ascii_of_string (q "..<add_node id='t'> a <b> c </add_node>"))
          0)
     = Some (2, q "id='t'", " a <b> c ").
Proof. split; vm_compute; reflexivity. Qed.

Lemma add_node_numeric_attributes_witness :
  exists m attrs,
    (BuiltFrom addNodeWithContentPattern buildAddNodeWithContent
               m attrs (OpAddNode groupWithBadX)
     \/ BuiltFrom addNodeSelfClosingPattern buildAddNodeSelfClosing
                  m attrs (OpAddNode groupWithBadX))
    /\ an_id groupWithBadX = defined (attr "id" attrs)
    /\ numericAttribute (attr "x" attrs) 0 (an_x groupWithBadX)
    /\ numericAttribute (attr "y" attrs) 0 (an_y groupWithBadX)
    /\ numericAttribute (attr "width" attrs) 200 (an_width groupWithBadX)
    /\ numericAttribute (attr "height" attrs) 100 (an_height groupWithBadX).
Proof.
  apply (add_node_numeric_attributes sampleEdgeId fresh
           {| buffer := []; currentCanvasPath := None;
              summary := EmptyString; generated := 0 |}
           (q "<add_node id='a' type='group' x='abc' width='300'/>")
           [OpAddNode groupWithBadX]).
  - vm_compute. reflexivity.
  - left. reflexivity.
Defined.

(** C6, as stated, fails: the tag [<add_node id=a type=group x=abc
    width=300/>] (attribute values in double quotes) has an [x] that is
    not parsable as an integer, and the operation yielded for it has
    [x = NaN], not the default 0.  And the tag [<add_node id=b type=group
    x=9007199254740993/>] has an [x] that is the integer 2^53 + 1, and
    the operation yielded for it has the double [x = 2^53], not the
    integer value of the attribute. *)
Lemma numeric_fallback_unparsable_is_nan :
  option_map snd
    (processChunk sampleEdgeId fresh
       (q "<add_node id='a' type='group' x='abc' width='300'/>"))
  = Some [OpAddNode groupWithBadX]
  /\ an_x groupWithBadX = JNaN
  /\ an_x groupWithBadX <> JInt 0
  /\ option_map snd
       (processChunk sampleEdgeId fresh
          (q "<add_node id='b' type='group' x='9007199254740993'/>"))
     = Some [OpAddNode groupWithBigX]
  /\ an_x groupWithBigX = JInt (2 ^ 53)
  /\ an_x groupWithBigX <> JInt 9007199254740993.
Proof.
  split; [vm_compute; reflexivity|]. split; [reflexivity|].
  split; [discriminate|].
  split; [vm_compute; reflexivity|]. split; [reflexivity | discriminate].
Qed.

(** C1. The operations depend on where the chunks are cut.  A
    self-closing [add_node] tag for the group [g] followed by an
    [add_node] tag with the content [hi] for the text node [t], fed in one
    call, yields one operation: the group [g] with the whole opening tag of
    [t] and [hi] as its content, because the pattern for [add_node] with
    content takes the self-closing tag for an opening tag.  Fed in two
    chunks, cut between the two tags, the same text yields the group [g]
    without content and the text node [t]. *)
Theorem chunk_boundary_changes_operations :
  let first := q "<add_node id='g' type='group'/>" in
  let second := q "<add_node id='t' type='text'>hi</add_node>" in
  let node := fun id type content =>
    OpAddNode (mkAddNode id type (JInt 0) (JInt 0) (JInt 200) (JInt 100)
                         content None None None None) in
  option_map snd (feedAll sampleEdgeId fresh [(first ++ second)%string])
    = Some [node "g" "group" (Some (q "<add_node id='t' type='text'>hi"))]
  /\ option_map snd (feedAll sampleEdgeId fresh [first; second])
     = Some [node "g" "group" None; node "t" "text" (Some "hi")].
Proof. split; vm_compute; reflexivity. Qed.

End StreamerRuns.

(** * Further properties *)

(** ** The operation executor: single operations *)

Section ExecutorMore.
Import Executor.

Lemma hasNode_push (id : string) (d : CanvasData) (n : CanvasNode) :
  hasNode id d = true -> hasNode id (pushNode d n) = true.
Proof.
  unfold hasNode, pushNode. simpl. rewrite existsb_app. intros ->.
  reflexivity.
Qed.

Lemma findIndex_last {A : Type} (p : A -> bool) (l : list A) (a : A) :
  existsb p l = false -> p a = true ->
  findIndex p (l ++ [a]) = Some (length l).
Proof.
  induction l as [|b l IH]; simpl; intros Hl Ha.
  - now rewrite Ha.
  - apply orb_false_iff in Hl. destruct Hl as [Hb Hl].
    now rewrite Hb, (IH Hl Ha).
Qed.

Lemma filter_all {A : Type} (p : A -> bool) (l : list A) :
  (forall a, In a l -> p a = true) -> filter p l = l.
Proof.
  induction l as [|a l IH]; simpl; intros H; [reflexivity|].
  rewrite (H a (or_introl eq_refl)). f_equal. apply IH. auto.
Qed.

(** What a successful AddNode does: the document had no node of that id
    and gets one more node, at the end. *)
Lemma add_node_success (d d' : CanvasData) (op : AddNodeOperation)
    (r : OperationResult) :
  executeAddNode d op = (d', r) -> success r = true ->
  hasNode (an_id op) d = false
  /\ r = ok [an_id op]
  /\ exists k, d' = pushNode d (newNode op k)
       /\ match k with
          | KText => an_nodeType op = "text"
          | KFile => an_nodeType op = "file" /\ truthy (an_file op) = true
          | KLink => an_nodeType op = "link" /\ truthy (an_url op) = true
          | KGroup => an_nodeType op = "group"
          end.
Proof.
  unfold executeAddNode. intros Hrun Hok.
  destruct (hasNode (an_id op) d);
    [injection Hrun as <- <-; discriminate|].
  split; [reflexivity|].
  destruct (String.eqb (an_nodeType op) "text") eqn:Et.
  { injection Hrun as <- <-. split; [reflexivity|]. exists KText.
    split; [reflexivity | now apply String.eqb_eq]. }
  destruct (String.eqb (an_nodeType op) "file") eqn:Ef.
  { destruct (truthy (an_file op)) eqn:E; simpl in Hrun;
      injection Hrun as <- <-; [|discriminate].
    split; [reflexivity|]. exists KFile.
    split; [reflexivity | split; [now apply String.eqb_eq | reflexivity]]. }
  destruct (String.eqb (an_nodeType op) "link") eqn:El.
  { destruct (truthy (an_url op)) eqn:E; simpl in Hrun;
      injection Hrun as <- <-; [|discriminate].
    split; [reflexivity|]. exists KLink.
    split; [reflexivity | split; [now apply String.eqb_eq | reflexivity]]. }
  destruct (String.eqb (an_nodeType op) "group") eqn:Eg.
  { injection Hrun as <- <-. split; [reflexivity|]. exists KGroup.
    split; [reflexivity | now apply String.eqb_eq]. }
  injection Hrun as <- <-. discriminate.
Qed.

(** X1. AddNode succeeds exactly when no node has the id and the kind is
    text or group, or file with a non-empty file, or link with a non-empty
    url.  A file node without file and a link node without url are
    refused with their own errors, any other kind with the unknown-type
    error; a refused operation leaves the document as it is. *)
Theorem add_node_success_conditions (d : CanvasData) (op : AddNodeOperation) :
  (success (snd (executeAddNode d op)) = true <->
   (forall n, In n (nodes d) -> n_id n <> an_id op)
   /\ (an_nodeType op = "text" \/ an_nodeType op = "group"
       \/ (an_nodeType op = "file" /\ truthy (an_file op) = true)
       \/ (an_nodeType op = "link" /\ truthy (an_url op) = true)))
  /\ ((forall n, In n (nodes d) -> n_id n <> an_id op) ->
      (an_nodeType op = "file" -> truthy (an_file op) = false ->
       executeAddNode d op = (d, failure "File path required for file node"))
      /\ (an_nodeType op = "link" -> truthy (an_url op) = false ->
          executeAddNode d op = (d, failure "URL required for link node"))
      /\ (an_nodeType op <> "text" -> an_nodeType op <> "file" ->
          an_nodeType op <> "link" -> an_nodeType op <> "group" ->
          executeAddNode d op
          = (d, failure ("Unknown node type: " ++ an_nodeType op)))).
Proof.
  split.
  - split.
    + intros Hok.
      destruct (executeAddNode d op) as [d' r] eqn:Hrun. simpl in Hok.
      destruct (add_node_success _ _ _ _ Hrun Hok) as (Hno & _ & k & _ & Hk).
      split; [now apply hasNode_false|].
      destruct k; tauto.
    + intros [Hno Hkind]. apply hasNode_false in Hno.
      unfold executeAddNode. rewrite Hno.
      destruct Hkind as [E|[E|[[E Ht]|[E Ht]]]]; rewrite E; simpl;
        try rewrite Ht; reflexivity.
  - intros Hno. apply hasNode_false in Hno. unfold executeAddNode.
    rewrite Hno. split; [|split].
    + intros -> ->. reflexivity.
    + intros -> ->. reflexivity.
    + intros Ht Hf Hl Hg.
      apply String.eqb_neq in Ht, Hf, Hl, Hg. now rewrite Ht, Hf, Hl, Hg.
Qed.

Lemma add_node_success_conditions_witness :
  executeAddNode triangle
    (mkAddNode "L" "link" (JInt 0) (JInt 0) (JInt 1) (JInt 1)
               None None None None None)
  = (triangle, failure "URL required for link node").
Proof.
  apply (proj2 (add_node_success_conditions triangle _)).
  - intros n [<-|[<-|[<-|[]]]]; discriminate.
  - reflexivity.
  - reflexivity.
Defined.


(** X2. AddEdge succeeds exactly when both endpoints are ids of nodes of
    the document.  The source is checked first: its error is reported when
    both are missing.  On success the nodes are untouched and the edge is
    appended with the given fields, [fromSide] and [toSide] defaulting to
    [right] and [left] when absent or empty. *)
Theorem add_edge_endpoint_validation (d : CanvasData) (op : AddEdgeOperation) :
  ((forall n, In n (nodes d) -> n_id n <> ae_fromNode op) ->
   executeAddEdge d op
   = (d, failure ("Source node " ++ dq ++ ae_fromNode op ++ dq ++ " not found")))
  /\ ((exists n, In n (nodes d) /\ n_id n = ae_fromNode op) ->
      (forall n, In n (nodes d) -> n_id n <> ae_toNode op) ->
      executeAddEdge d op
      = (d, failure ("Target node " ++ dq ++ ae_toNode op ++ dq ++ " not found")))
  /\ ((exists n, In n (nodes d) /\ n_id n = ae_fromNode op) ->
      (exists n, In n (nodes d) /\ n_id n = ae_toNode op) ->
      executeAddEdge d op
      = ({| nodes := nodes d;
            edges := edges d ++
              [{| e_id := ae_id op;
                  e_fromNode := ae_fromNode op;
                  e_toNode := ae_toNode op;
                  e_fromSide :=
                    Some (if truthy (ae_fromSide op)
                          then defined (ae_fromSide op) else "right");
                  e_toSide :=
                    Some (if truthy (ae_toSide op)
                          then defined (ae_toSide op) else "left");
                  e_label := ae_label op;
                  e_color := ae_color op |}] |},
         ok [ae_id op]))
  /\ (success (snd (executeAddEdge d op)) = true <->
      (exists n, In n (nodes d) /\ n_id n = ae_fromNode op)
      /\ (exists n, In n (nodes d) /\ n_id n = ae_toNode op)).
Proof.
  unfold executeAddEdge.
  split; [|split; [|split]].
  - intros H. apply hasNode_false in H. now rewrite H.
  - intros Hf Ht. apply hasNode_true in Hf. apply hasNode_false in Ht.
    now rewrite Hf, Ht.
  - intros Hf Ht. apply hasNode_true in Hf, Ht. rewrite Hf, Ht. simpl.
    unfold newEdge. repeat f_equal.
    + destruct (ae_fromSide op) as [[|c s]|]; reflexivity.
    + destruct (ae_toSide op) as [[|c s]|]; reflexivity.
  - rewrite <- !hasNode_true.
    destruct (hasNode (ae_fromNode op) d), (hasNode (ae_toNode op) d);
      simpl; intuition discriminate.
Qed.

Lemma add_edge_endpoint_validation_witness :
  executeAddEdge triangle
    (mkAddEdge "e9" "A" "Z" None None None None)
  = (triangle, failure ("Target node " ++ dq ++ "Z" ++ dq ++ " not found")).
Proof.
  apply (proj1 (proj2 (add_edge_endpoint_validation triangle
                         (mkAddEdge "e9" "A" "Z" None None None None)))).
  - exists (textNode "A"). split; [simpl; auto | reflexivity].
  - intros n [<-|[<-|[<-|[]]]]; discriminate.
Defined.

(** X3. DeleteEdge fails with the not-found error, and changes nothing,
    when no edge has the id.  Otherwise it takes the first edge of that id
    out of the array and leaves the nodes and the other edges as they are;
    when edge ids are unique, no edge of that id is left. *)
Theorem delete_edge_removes_edge (d : CanvasData) (id : string) :
  ((forall e, In e (edges d) -> e_id e <> id) ->
   executeDeleteEdge d id
   = (d, failure ("Edge with ID " ++ dq ++ id ++ dq ++ " not found")))
  /\ ((exists e, In e (edges d) /\ e_id e = id) ->
      exists l1 e l2,
        edges d = l1 ++ e :: l2 /\ e_id e = id
        /\ (forall e', In e' l1 -> e_id e' <> id)
        /\ executeDeleteEdge d id
           = ({| nodes := nodes d; edges := l1 ++ l2 |}, ok [id])
        /\ (NoDup (map e_id (edges d)) ->
            forall e', In e' (l1 ++ l2) -> e_id e' <> id)).
Proof.
  unfold executeDeleteEdge. split.
  - intros H.
    assert (E : findIndex (fun e => String.eqb (e_id e) id) (edges d) = None).
    { apply findIndex_None.
      destruct (existsb _ (edges d)) eqn:Ex; [|reflexivity].
      apply existsb_exists in Ex. destruct Ex as (e & Hin & He).
      apply String.eqb_eq in He. now destruct (H e Hin). }
    now rewrite E.
  - intros (e0 & Hin0 & He0).
    assert (Ex : existsb (fun e => String.eqb (e_id e) id) (edges d) = true).
    { apply existsb_exists. exists e0. split; [assumption|].
      now apply String.eqb_eq. }
    destruct (findIndex_found _ _ Ex) as (i & Hi).
    destruct (findIndex_Some _ _ _ Hi) as (l1 & e & l2 & Hsplit & Hlen & He & Hl1).
    apply String.eqb_eq in He.
    exists l1, e, l2. rewrite Hi, Hsplit, <- Hlen, splice1_middle.
    split; [reflexivity|]. split; [assumption|]. split.
    { intros e' He'. apply String.eqb_neq. auto. }
    split; [reflexivity|].
    intros Hnd e' He' Hid. rewrite map_app in Hnd. simpl in Hnd.
    apply NoDup_remove_2 in Hnd. apply Hnd.
    rewrite He, <- Hid, <- map_app. now apply in_map.
Qed.

Lemma delete_edge_removes_edge_witness :
  executeDeleteEdge triangle "e7"
  = (triangle, failure ("Edge with ID " ++ dq ++ "e7" ++ dq ++ " not found")).
Proof.
  apply (proj1 (delete_edge_removes_edge triangle "e7")).
  intros e [<-|[<-|[<-|[]]]]; discriminate.
Defined.

(** X4. An operation that fails leaves the document exactly as it was,
    whatever the operation and the reason. *)
Theorem failed_operation_changes_nothing (d : CanvasData)
    (operation : CanvasOperation) :
  success (snd (dispatch d operation)) = false ->
  fst (dispatch d operation) = d.
Proof. apply dispatch_failure_unchanged. Qed.

Lemma failed_operation_changes_nothing_witness :
  fst (dispatch triangle (OpDeleteNode "Z")) = triangle.
Proof.
  apply (failed_operation_changes_nothing triangle (OpDeleteNode "Z")).
  reflexivity.
Defined.

(** X5. Every operation other than AddEdge keeps node ids pairwise
    distinct and edge ids pairwise distinct, whether it succeeds or fails;
    AddEdge does so when its id is not the id of an edge of the
    document. *)
Theorem operations_keep_ids_unique (d : CanvasData)
    (operation : CanvasOperation) :
  uniqueIds d ->
  match operation with
  | OpAddEdge op => forall e, In e (edges d) -> e_id e <> ae_id op
  | _ => True
  end ->
  uniqueIds (fst (dispatch d operation)).
Proof.
  intros Hu Hfresh.
  apply (unique_ids_preserved d _ operation (snd (dispatch d operation)));
    [now destruct (dispatch d operation) | assumption |].
  destruct operation; try exact I.
  unfold hasEdge. destruct (existsb _ (edges d)) eqn:E; [|reflexivity].
  apply existsb_exists in E. destruct E as (e & Hin & He).
  apply String.eqb_eq in He. now destruct (Hfresh e Hin).
Qed.

Lemma operations_keep_ids_unique_witness :
  uniqueIds (fst (dispatch triangle (OpDeleteNode "A"))).
Proof.
  apply (operations_keep_ids_unique triangle (OpDeleteNode "A")).
  - split; simpl; repeat constructor; simpl; intuition discriminate.
  - exact I.
Defined.

Lemma hasNode_ids (id : string) (d : CanvasData) :
  hasNode id d = true <-> In id (map n_id (nodes d)).
Proof.
  rewrite hasNode_true, in_map_iff.
  split; intros (n & H1 & H2); exists n; auto.
Qed.

Lemma hasNode_same_ids (id : string) (d d' : CanvasData) :
  map n_id (nodes d') = map n_id (nodes d) -> hasNode id d' = hasNode id d.
Proof.
  intros H.
  pose proof (hasNode_ids id d) as H1. pose proof (hasNode_ids id d') as H2.
  rewrite H in H2.
  destruct (hasNode id d), (hasNode id d'); try reflexivity.
  - apply (proj2 H2), (proj1 H1). reflexivity.
  - symmetry. apply (proj2 H1), (proj1 H2). reflexivity.
Qed.

(** X6. Referential integrity is an invariant of the executor: if every
    edge of the document starts and ends at a node of the document, this
    is still so after any operation, successful or not.  AddEdge checks
    its endpoints and DeleteNode takes the edges of the node with it. *)
Theorem referential_integrity_preserved (d : CanvasData)
    (operation : CanvasOperation) :
  connected d -> connected (fst (dispatch d operation)).
Proof.
  unfold connected. intros Hc.
  destruct (dispatch d operation) as [d' r] eqn:Hrun. simpl.
  destruct (success r) eqn:Hok.
  2:{ pose proof (dispatch_failure_unchanged d operation) as Hsame.
      rewrite Hrun in Hsame. simpl in Hsame. now rewrite (Hsame Hok). }
  destruct operation as [op|op|id|op|id]; simpl in Hrun.
  - destruct (add_node_success _ _ _ _ Hrun Hok) as (_ & _ & k & -> & _).
    intros e He. simpl in He. destruct (Hc e He) as [Hf Ht].
    split; now apply hasNode_push.
  - unfold executeUpdateNode in Hrun.
    destruct (findIndex _ (nodes d)) as [i|] eqn:Hi;
      [|injection Hrun as <- <-; discriminate].
    destruct (findIndex_Some _ _ _ Hi) as (l1 & n & l2 & Hsplit & Hlen & _).
    rewrite Hsplit, <- Hlen, nth_error_middle, setAt_middle in Hrun.
    injection Hrun as <- _. intros e He. simpl in He.
    assert (Hids : forall i0,
      hasNode i0 {| nodes := l1 ++ applyUpdates n (un_updates op) :: l2;
                    edges := edges d |} = hasNode i0 d).
    { intros i0. apply hasNode_same_ids. simpl.
      rewrite Hsplit, !map_app. simpl. now rewrite applyUpdates_id. }
    rewrite !Hids. auto.
  - unfold executeDeleteNode in Hrun.
    destruct (findIndex _ (nodes d)) as [i|] eqn:Hi;
      [|injection Hrun as <- <-; discriminate].
    destruct (findIndex_Some _ _ _ Hi)
      as (l1 & n & l2 & Hsplit & Hlen & Hid & _).
    apply String.eqb_eq in Hid.
    rewrite Hsplit, <- Hlen, splice1_middle in Hrun.
    injection Hrun as <- _. intros e He. simpl in He.
    apply filter_In in He. destruct He as [He Hkeep].
    unfold touches in Hkeep.
    apply negb_true_iff, orb_false_iff in Hkeep.
    destruct Hkeep as [Hfrom Hto]. apply String.eqb_neq in Hfrom, Hto.
    destruct (Hc e He) as [Hf Ht].
    assert (Hstay : forall i0, i0 <> id -> hasNode i0 d = true ->
      hasNode i0 {| nodes := l1 ++ l2;
                    edges := filter (fun e => negb (touches id e)) (edges d) |}
      = true).
    { intros i0 Hne Hhas. apply hasNode_true in Hhas.
      destruct Hhas as (m & Hm & Hmid). apply hasNode_true. exists m.
      split; [|assumption]. simpl. rewrite Hsplit in Hm.
      apply in_app_or in Hm. apply in_or_app.
      destruct Hm as [Hm|[Hm|Hm]]; auto. subst m. congruence. }
    split; apply Hstay; assumption.
  - unfold executeAddEdge in Hrun.
    destruct (hasNode (ae_fromNode op) d) eqn:Hf;
      [|injection Hrun as <- <-; discriminate].
    destruct (hasNode (ae_toNode op) d) eqn:Ht;
      [|injection Hrun as <- <-; discriminate].
    injection Hrun as <- _. intros e He. simpl in He.
    assert (Hsame : forall i0,
      hasNode i0 {| nodes := nodes d; edges := edges d ++ [newEdge op] |}
      = hasNode i0 d) by reflexivity.
    rewrite !Hsame. apply in_app_or in He. destruct He as [He|[<-|[]]]; auto.
  - unfold executeDeleteEdge in Hrun.
    destruct (findIndex _ (edges d)) as [i|] eqn:Hi;
      [|injection Hrun as <- <-; discriminate].
    destruct (findIndex_Some _ _ _ Hi) as (l1 & e0 & l2 & Hsplit & Hlen & _).
    rewrite Hsplit, <- Hlen, splice1_middle in Hrun.
    injection Hrun as <- _. intros e He. simpl in He.
    assert (Hsame : forall i0,
      hasNode i0 {| nodes := nodes d; edges := l1 ++ l2 |} = hasNode i0 d)
      by reflexivity.
    rewrite !Hsame. apply Hc. rewrite Hsplit.
    apply in_app_or in He. apply in_or_app. simpl. tauto.
Qed.

Lemma triangle_connected : connected triangle.
Proof. intros e [<-|[<-|[<-|[]]]]; split; reflexivity. Qed.

Lemma referential_integrity_preserved_witness :
  connected (fst (dispatch triangle (OpDeleteNode "A"))).
Proof.
  apply (referential_integrity_preserved triangle (OpDeleteNode "A")).
  exact triangle_connected.
Defined.


Lemma canvas_eta (d : CanvasData) :
  {| nodes := nodes d; edges := edges d |} = d.
Proof. now destruct d. Qed.

(** X7. Adding a node and then deleting it gives the document back: if
    AddNode succeeds on a document none of whose edges names the new id as
    an endpoint, DeleteNode of that id succeeds on the result, reports
    only that id, and returns the original document. *)
Theorem add_then_delete_node (d d1 : CanvasData) (op : AddNodeOperation)
    (r : OperationResult) :
  executeAddNode d op = (d1, r) -> success r = true ->
  (forall e, In e (edges d) ->
     e_fromNode e <> an_id op /\ e_toNode e <> an_id op) ->
  executeDeleteNode d1 (an_id op) = (d, ok [an_id op]).
Proof.
  intros Hrun Hok Hedges.
  destruct (add_node_success _ _ _ _ Hrun Hok) as (Hno & _ & k & -> & _).
  unfold executeDeleteNode, pushNode. simpl.
  rewrite findIndex_last; [|exact Hno | simpl; apply String.eqb_refl].
  change (nodes d ++ [newNode op k]) with (nodes d ++ newNode op k :: []).
  rewrite splice1_middle, app_nil_r.
  rewrite filter_all, filter_none.
  - simpl. now rewrite canvas_eta.
  - intros e He. destruct (Hedges e He) as [Hf Ht]. unfold touches.
    apply String.eqb_neq in Hf, Ht. now rewrite Hf, Ht.
  - intros e He. destruct (Hedges e He) as [Hf Ht]. unfold touches.
    apply String.eqb_neq in Hf, Ht. now rewrite Hf, Ht.
Qed.

Lemma add_then_delete_node_witness :
  executeDeleteNode
    (fst (executeAddNode triangle
            (mkAddNode "D" "group" (JInt 0) (JInt 0) (JInt 9) (JInt 9)
                       None None None (Some "box") None)))
    "D"
  = (triangle, ok ["D"]).
Proof.
  apply (add_then_delete_node triangle _
           (mkAddNode "D" "group" (JInt 0) (JInt 0) (JInt 9) (JInt 9)
                      None None None (Some "box") None)
           (ok ["D"])).
  - reflexivity.
  - reflexivity.
  - intros e [<-|[<-|[<-|[]]]]; split; discriminate.
Defined.

(** X8. Adding an edge and then deleting it gives the document back: if
    AddEdge succeeds with an id that no edge of the document has,
    DeleteEdge of that id succeeds on the result and returns the original
    document. *)
Theorem add_then_delete_edge (d d1 : CanvasData) (op : AddEdgeOperation)
    (r : OperationResult) :
  executeAddEdge d op = (d1, r) -> success r = true ->
  (forall e, In e (edges d) -> e_id e <> ae_id op) ->
  executeDeleteEdge d1 (ae_id op) = (d, ok [ae_id op]).
Proof.
  intros Hrun Hok Hfresh. unfold executeAddEdge in Hrun.
  destruct (negb (hasNode (ae_fromNode op) d));
    [injection Hrun as <- <-; discriminate|].
  destruct (negb (hasNode (ae_toNode op) d));
    [injection Hrun as <- <-; discriminate|].
  injection Hrun as <- _. unfold executeDeleteEdge. simpl.
  rewrite findIndex_last.
  - change (edges d ++ [newEdge op]) with (edges d ++ newEdge op :: []).
    rewrite splice1_middle, app_nil_r. now rewrite canvas_eta.
  - destruct (existsb _ (edges d)) eqn:E; [|reflexivity].
    apply existsb_exists in E. destruct E as (e & Hin & He).
    apply String.eqb_eq in He. now destruct (Hfresh e Hin).
  - simpl. apply String.eqb_refl.
Qed.

Lemma add_then_delete_edge_witness :
  executeDeleteEdge
    (fst (executeAddEdge triangle (mkAddEdge "e4" "A" "C" None None None None)))
    "e4"
  = (triangle, ok ["e4"]).
Proof.
  apply (add_then_delete_edge triangle _
           (mkAddEdge "e4" "A" "C" None None None None) (ok ["e4"])).
  - reflexivity.
  - reflexivity.
  - intros e [<-|[<-|[<-|[]]]]; discriminate.
Defined.

(** X9. AddNode cannot be repeated: after a successful AddNode the same
    operation fails with the duplicate-id error and changes nothing, so the
    document holds exactly one node of that id. *)
Theorem add_node_twice_rejected (d d1 : CanvasData) (op : AddNodeOperation)
    (r : OperationResult) :
  executeAddNode d op = (d1, r) -> success r = true ->
  executeAddNode d1 op
  = (d1, failure ("Node with ID " ++ dq ++ an_id op ++ dq ++ " already exists"))
  /\ length (nodesWithId (an_id op) d1) = 1.
Proof.
  intros Hrun Hok.
  destruct (add_node_success _ _ _ _ Hrun Hok) as (Hno & _ & k & -> & _).
  split.
  - unfold executeAddNode at 1.
    assert (Hhas : hasNode (an_id op) (pushNode d (newNode op k)) = true).
    { unfold hasNode, pushNode. simpl. rewrite existsb_app. simpl.
      rewrite String.eqb_refl. now rewrite orb_true_r. }
    now rewrite Hhas.
  - unfold nodesWithId, pushNode. simpl. rewrite filter_app. simpl.
    rewrite String.eqb_refl, filter_none; [reflexivity|].
    intros n Hn. apply String.eqb_neq.
    apply (proj1 (hasNode_false _ _) Hno n Hn).
Qed.

Lemma add_node_twice_rejected_witness :
  length (nodesWithId "n1"
            (fst (executeAddNode triangle
                    (mkAddNode "n1" "text" (JInt 0) (JInt 0) (JInt 9) (JInt 9)
                               (Some "hi") None None None None)))) = 1.
Proof.
  apply (add_node_twice_rejected triangle _
           (mkAddNode "n1" "text" (JInt 0) (JInt 0) (JInt 9) (JInt 9)
                      (Some "hi") None None None None)
           (ok ["n1"])).
  - reflexivity.
  - reflexivity.
Defined.

Lemma applyUpdates_twice (n : CanvasNode) (u : NodeUpdates) :
  applyUpdates (applyUpdates n u) u = applyUpdates n u.
Proof.
  destruct u as [ux uy uw uh uc ucol ul], n as [i k x y w h t f l lb c].
  destruct ux, uy, uw, uh, ucol, uc, ul, k; reflexivity.
Qed.

(** X10. UpdateNode is idempotent: running the same update a second time
    returns the same result and leaves the document the first run
    produced. *)
Theorem update_node_idempotent (d : CanvasData) (op : UpdateNodeOperation) :
  executeUpdateNode (fst (executeUpdateNode d op)) op
  = executeUpdateNode d op.
Proof.
  unfold executeUpdateNode at 2 3.
  destruct (findIndex _ (nodes d)) as [i|] eqn:Hi.
  - destruct (findIndex_Some _ _ _ Hi)
      as (l1 & n & l2 & Hsplit & Hlen & Hid & Hl1).
    rewrite Hsplit, <- Hlen, nth_error_middle, setAt_middle. simpl.
    unfold executeUpdateNode. simpl.
    assert (Hi' : findIndex (fun n0 => String.eqb (n_id n0) (un_id op))
                    (l1 ++ applyUpdates n (un_updates op) :: l2)
                  = Some (length l1)).
    { clear - Hid Hl1. induction l1 as [|a l1 IH]; simpl.
      - now rewrite applyUpdates_id, Hid.
      - rewrite (Hl1 a (or_introl eq_refl)), IH; auto.
        intros b Hb. apply Hl1. now right. }
    rewrite Hi', nth_error_middle, setAt_middle, applyUpdates_twice.
    reflexivity.
  - simpl. unfold executeUpdateNode. now rewrite Hi.
Qed.

End ExecutorMore.

(** ** The operation executor: batches and storage *)

Section BatchMore.
Import Executor.

Variable Vault : Type.
Variable getAbstractFileByPath : Vault -> string -> option AbstractFile.
Variable vault_read : Vault -> string -> option string.
Variable vault_modify : Vault -> string -> string -> Vault * bool.
Variable JSON_parse : string -> option CanvasData.
Variable JSON_stringify : CanvasData -> string.

Local Abbreviation readCanvasFile :=
  (readCanvasFile Vault getAbstractFileByPath vault_read JSON_parse).
Local Abbreviation executeCanvasOperation :=
  (executeCanvasOperation Vault getAbstractFileByPath vault_read
     vault_modify JSON_parse JSON_stringify).
Local Abbreviation executeCanvasOperations :=
  (executeCanvasOperations Vault getAbstractFileByPath vault_read
     vault_modify JSON_parse JSON_stringify).

(** X11. A batch is the composition of its parts: running the operations
    [ops1 ++ ops2] on a document leaves the document that [ops2] leaves
    when run on what [ops1] left, and returns the results of [ops1]
    followed by those of [ops2]. *)
Theorem run_operations_compose (d : CanvasData)
    (ops1 ops2 : list CanvasOperation) :
  runOperations d (ops1 ++ ops2)
  = (fst (runOperations (fst (runOperations d ops1)) ops2),
     snd (runOperations d ops1)
       ++ snd (runOperations (fst (runOperations d ops1)) ops2)).
Proof.
  revert d. induction ops1 as [|op ops1 IH]; intros d.
  - simpl. now destruct (runOperations d ops2).
  - change ((op :: ops1) ++ ops2) with (op :: ops1 ++ ops2).
    rewrite !runOperations_cons, IH. reflexivity.
Qed.

(** X12. A batch keeps referential integrity: if every edge of the
    document starts and ends at a node of the document, so it is in the
    document the batch leaves, whatever the operations and whichever of
    them fail. *)
Theorem batch_keeps_referential_integrity (ops : list CanvasOperation)
    (d : CanvasData) :
  connected d -> connected (fst (runOperations d ops)).
Proof.
  revert d. induction ops as [|op ops IH]; intros d Hc; [exact Hc|].
  rewrite runOperations_cons. simpl.
  apply IH. now apply referential_integrity_preserved.
Qed.

(** X13. When the canvas file cannot be read, a batch returns one single
    failure, whatever the number of operations, with [allSuccess] false,
    and writes nothing; this is the case in particular when the path names
    no file, a folder, or a file whose path does not end in [.canvas]. *)
Theorem batch_on_unreadable_file (w : World Vault) (canvasPath : string)
    (operations : list CanvasOperation) :
  (readCanvasFile (w_vault _ w) canvasPath = None ->
   executeCanvasOperations w canvasPath operations
   = (w, {| results := [failure ("Failed to read canvas: " ++ canvasPath)];
            allSuccess := false |}))
  /\ ((forall path,
         getAbstractFileByPath (w_vault _ w) canvasPath = Some (TFile path) ->
         endsWith path ".canvas" = false) ->
      readCanvasFile (w_vault _ w) canvasPath = None).
Proof.
  split.
  - intros H. unfold Executor.executeCanvasOperations. now rewrite H.
  - intros H. unfold Executor.readCanvasFile.
    destruct (getAbstractFileByPath (w_vault Vault w) canvasPath)
      as [[path|path]|]; try reflexivity.
    now rewrite (H path eq_refl).
Qed.

(** X14. [executeCanvasOperation] on one operation and
    [executeCanvasOperations] on the batch of that one operation leave the
    same vault and make the same calls of [writeCanvasFile]; the batch has
    one result, with the same [success] and [error] as the single result,
    and [allSuccess] is that [success].  The two results are equal when
    the operation succeeds and is written. *)
Theorem single_operation_as_batch (w : World Vault) (canvasPath : string)
    (operation : CanvasOperation) :
  let single := executeCanvasOperation w canvasPath operation in
  let batch := executeCanvasOperations w canvasPath [operation] in
  fst batch = fst single
  /\ allSuccess (snd batch) = success (snd single)
  /\ exists r,
       results (snd batch) = [r]
       /\ success r = success (snd single)
       /\ error r = error (snd single)
       /\ (success (snd single) = true -> r = snd single).
Proof.
  unfold Executor.executeCanvasOperation, Executor.executeCanvasOperations.
  destruct (readCanvasFile (w_vault Vault w) canvasPath) as [d|].
  2:{ simpl. split; [reflexivity|]. split; [reflexivity|].
      eexists. split; [reflexivity|]. auto. }
  unfold runOperations. simpl.
  destruct (dispatch d operation) as [d' r]. simpl.
  rewrite !orb_false_r, andb_true_r.
  destruct (success r) eqn:Hok.
  - destruct (writeCanvasFile Vault getAbstractFileByPath vault_modify
                JSON_stringify w canvasPath d') as [w' written].
    destruct written; simpl.
    + split; [reflexivity|]. split; [congruence|].
      exists r. auto.
    + split; [reflexivity|]. split; [reflexivity|].
      eexists. split; [reflexivity|]. unfold downgrade. rewrite Hok. simpl.
      repeat split. discriminate.
  - simpl. split; [reflexivity|]. split; [congruence|].
    exists r. auto.
Qed.

End BatchMore.

Lemma batch_keeps_referential_integrity_witness :
  Executor.connected
    (fst (Executor.runOperations Executor.triangle
            [OpDeleteNode "B"; OpAddEdge (mkAddEdge "e5" "B" "C" None None None None)])).
Proof.
  apply batch_keeps_referential_integrity.
  exact triangle_connected.
Defined.

Lemma batch_on_unreadable_file_witness :
  Executor.executeCanvasOperations bool Executor.toyFile Executor.toyRead
    Executor.toyModify Executor.toyParse Executor.toyStringify
    Executor.toyWorld "notes.md" Executor.sampleBatch
  = (Executor.toyWorld,
     {| Executor.results :=
          [Executor.failure ("Failed to read canvas: " ++ "notes.md")];
        Executor.allSuccess := false |}).
Proof.
  apply (proj1 (batch_on_unreadable_file bool Executor.toyFile
                  Executor.toyRead Executor.toyModify Executor.toyParse
                  Executor.toyStringify Executor.toyWorld "notes.md"
                  Executor.sampleBatch)).
  reflexivity.
Defined.

(** ** The canvas loader *)

Section LoaderMore.
Import Loader.

Variable randomUUID : nat -> string.

Local Abbreviation deriveGroupEdges := (deriveGroupEdges randomUUID).
Local Abbreviation containsEdges := (containsEdges randomUUID).

(** X15. The edges [deriveGroupEdges] appends never touch the edges that
    were there, and each of them goes from the id of a group node of the
    document to the id of a node of the document with another id: no
    synthetic edge is a loop or dangles, and none has a side. *)
Theorem derived_edges_link_group_to_other_node (nodes : list RichNode)
    (edges : list CanvasEdge) (calls : nat) :
  exists derived,
    fst (deriveGroupEdges nodes edges calls) = edges ++ derived
    /\ forall e, In e derived ->
         fromNode e <> toNode e
         /\ fromSide e = None /\ toSide e = None
         /\ exists g n,
              In g nodes /\ type g = group /\ In n nodes
              /\ fromNode e = id g /\ toNode e = id n.
Proof.
  exists (containsEdges calls (containments nodes)).
  split; [now rewrite deriveGroupEdges_spec|].
  intros e He.
  assert (Hsides : forall c ps, In e (containsEdges c ps) ->
            fromSide e = None /\ toSide e = None).
  { intros c ps. revert c.
    induction ps as [|[g n] ps IH]; intros c; simpl; [tauto|].
    intros [<-|H]; [auto | eauto]. }
  destruct (in_containsEdges _ _ _ _ He) as (g & n & Hp & Hf & Ht & _).
  apply in_containments in Hp. destruct Hp as (Hg & Hk & Hn & Hne & _).
  split; [congruence|]. split; [exact (proj1 (Hsides _ _ He))|].
  split; [exact (proj2 (Hsides _ _ He))|].
  exists g, n. auto.
Qed.

Lemma containsEdges_ids (c : nat) (ps : list (RichNode * RichNode)) :
  map eid (containsEdges c ps) = map randomUUID (seq c (length ps)).
Proof.
  revert c. induction ps as [|[g n] ps IH]; intros c; simpl; [reflexivity|].
  now rewrite IH.
Qed.

Lemma distinct_images {A B : Type} (f : A -> B) (l : list A) :
  (forall a b, f a = f b -> a = b) -> NoDup l -> NoDup (map f l).
Proof.
  intros Hinj Hl. induction Hl as [|a l Hnotin Hl IH]; simpl; constructor;
    [|assumption].
  intros Hin. apply in_map_iff in Hin. destruct Hin as (b & Hb & Hin).
  apply Hinj in Hb. now subst b.
Qed.

(** X16. The ids of the appended edges are the identifiers the generator
    returns, one call per edge and in order, and the returned count is the
    count of calls made; so when the generator never repeats itself, the
    appended edges have pairwise distinct ids. *)
Theorem derived_edge_ids (nodes : list RichNode) (edges : list CanvasEdge)
    (calls : nat) :
  exists derived,
    fst (deriveGroupEdges nodes edges calls) = edges ++ derived
    /\ snd (deriveGroupEdges nodes edges calls) = calls + length derived
    /\ map eid derived = map randomUUID (seq calls (length derived))
    /\ ((forall i j, randomUUID i = randomUUID j -> i = j) ->
        NoDup (map eid derived)).
Proof.
  exists (containsEdges calls (containments nodes)).
  rewrite deriveGroupEdges_spec. simpl.
  assert (Hlen : length (containsEdges calls (containments nodes))
                 = length (containments nodes)).
  { rewrite <- (length_map eid), containsEdges_ids, length_map.
    apply length_seq. }
  split; [reflexivity|]. split; [now rewrite Hlen|].
  split; [now rewrite containsEdges_ids, Hlen|].
  intros Hinj. rewrite containsEdges_ids.
  apply distinct_images; [exact Hinj | apply seq_NoDup].
Qed.

(** X17. [deriveGroupEdges] appends at most one edge per pair of a group
    and a node; a document without group node gets no synthetic edge and
    makes no call of the generator. *)
Theorem derived_edges_bound (nodes : list RichNode)
    (edges : list CanvasEdge) (calls : nat) :
  length (fst (deriveGroupEdges nodes edges calls))
    <= length edges + length (filter isGroup nodes) * length nodes
  /\ (filter isGroup nodes = [] ->
      deriveGroupEdges nodes edges calls = (edges, calls)).
Proof.
  split.
  - rewrite deriveGroupEdges_spec. simpl. rewrite length_app.
    apply Nat.add_le_mono_l.
    assert (Hlen : forall c ps, length (containsEdges c ps) = length ps).
    { intros c ps. rewrite <- (length_map eid), containsEdges_ids, length_map.
      apply length_seq. }
    rewrite Hlen. unfold containments.
    induction (filter isGroup nodes) as [|g gs IH]; simpl; [lia|].
    rewrite length_app, length_map.
    pose proof (filter_length_le (contained g) nodes). lia.
  - intros H. unfold Loader.deriveGroupEdges. now rewrite H.
Qed.

End LoaderMore.

Lemma tallyUUID_injective (i j : nat) :
  Loader.tallyUUID i = Loader.tallyUUID j -> i = j.
Proof.
  unfold Loader.tallyUUID. intros H.
  apply (f_equal list_ascii_of_string) in H.
  rewrite !list_ascii_of_string_of_list_ascii in H.
  apply (f_equal (@length ascii)) in H. now rewrite !repeat_length in H.
Qed.

Lemma derived_edge_ids_witness :
  exists derived,
    fst (Loader.deriveGroupEdges Loader.tallyUUID Loader.sampleNodes [] 0)
      = [] ++ derived
    /\ NoDup (map Loader.eid derived).
Proof.
  destruct (derived_edge_ids Loader.tallyUUID Loader.sampleNodes [] 0)
    as (derived & Hd & _ & _ & Hnd).
  exists derived. split; [exact Hd | exact (Hnd tallyUUID_injective)].
Defined.

Lemma derived_edges_bound_witness :
  Loader.deriveGroupEdges Loader.sampleUUID
    [Loader.sampleNode "card" Loader.text 0 0 10 10;
     Loader.sampleNode "doc" Loader.file 0 0 10 10] [] 7
  = ([], 7).
Proof.
  apply (proj2 (derived_edges_bound Loader.sampleUUID _ [] 7)). reflexivity.
Defined.

(** ** The canvas loader: [load] *)

Section LoadMore.
Import Loader.

Variable Vault : Type.
Variable vault_read : Vault -> string -> option string.
Variable vault_cachedRead : Vault -> string -> option string.
Variable getAbstractFileByPath : Vault -> string -> option Executor.AbstractFile.
Variable JSON_parse :
  string -> option (option (list RichNode) * option (list CanvasEdge)).
Variable randomUUID : nat -> string.

Local Abbreviation enrich :=
  (enrich Vault vault_cachedRead getAbstractFileByPath).
Local Abbreviation load :=
  (load Vault vault_read vault_cachedRead getAbstractFileByPath JSON_parse
        randomUUID).

Lemma promiseAll_Some {A B : Type} (f : A -> option B) (l : list A)
    (r : list B) :
  promiseAll (map f l) = Some r -> Forall2 (fun a b => f a = Some b) l r.
Proof.
  revert r. induction l as [|a l IH]; simpl; intros r H.
  - injection H as <-. constructor.
  - destruct (f a) as [b|] eqn:E; [|discriminate].
    destruct (promiseAll (map f l)) as [r'|]; [|discriminate].
    injection H as <-. constructor; auto.
Qed.

Lemma promiseAll_None {A B : Type} (f : A -> option B) (l : list A) (a : A) :
  In a l -> f a = None -> promiseAll (map f l) = None.
Proof.
  induction l as [|b l IH]; simpl; [tauto|].
  intros [->|Hin] Ha.
  - now rewrite Ha.
  - destruct (f b); [|reflexivity]. now rewrite (IH Hin Ha).
Qed.

(** What [enrich] returns differs from the node only in [content]. *)
Lemma enrich_content (vault : Vault) (n rn : RichNode) :
  enrich vault n = Some rn ->
  rn = withContent n (content rn)
  /\ (type n = text ->
      content rn = match ntext n with Some t => t | None => EmptyString end)
  /\ (type n = link \/ type n = group -> content rn = EmptyString)
  /\ (type n = file ->
      match nfile n with
      | Some (String c rest) =>
          match getAbstractFileByPath vault (String c rest) with
          | Some (Executor.TFile path) =>
              vault_cachedRead vault path = Some (content rn)
          | _ => content rn = EmptyString
          end
      | _ => content rn = EmptyString
      end).
Proof.
  unfold Loader.enrich. intros H.
  assert (Hshape : forall c, Some (withContent n c) = Some rn ->
            rn = withContent n (content rn) /\ content rn = c).
  { intros c E. injection E as <-. split; reflexivity. }
  destruct (type n) eqn:Hk.
  - assert (Hfile : rn = withContent n (content rn)
              /\ match nfile n with
                 | Some (String c rest) =>
                     match getAbstractFileByPath vault (String c rest) with
                     | Some (Executor.TFile path) =>
                         vault_cachedRead vault path = Some (content rn)
                     | _ => content rn = EmptyString
                     end
                 | _ => content rn = EmptyString
                 end).
    { destruct (nfile n) as [[|c rest]|];
        try exact (Hshape _ H).
      destruct (getAbstractFileByPath vault (String c rest)) as [[p|p]|];
        try exact (Hshape _ H).
      destruct (vault_cachedRead vault p) as [md|]; [|discriminate].
      destruct (Hshape _ H) as [E1 E2]. split; [exact E1 | now rewrite E2]. }
    destruct Hfile as [E1 E2].
    split; [exact E1|]. split; [discriminate|].
    split; [intros [E|E]; discriminate | intros _; exact E2].
  - assert (E : Some (withContent n
                 (match ntext n with Some t => t | None => EmptyString end))
                = Some rn) by (destruct (nfile n) as [[|? ?]|]; exact H).
    destruct (Hshape _ E) as [E1 E2].
    split; [exact E1|]. split; [intros _; exact E2|].
    split; [intros [E'|E']; discriminate | discriminate].
  - assert (E : Some (withContent n EmptyString) = Some rn)
      by (destruct (nfile n) as [[|? ?]|]; exact H).
    destruct (Hshape _ E) as [E1 E2].
    split; [exact E1|]. split; [discriminate|].
    split; [intros _; exact E2 | discriminate].
  - assert (E : Some (withContent n EmptyString) = Some rn)
      by (destruct (nfile n) as [[|? ?]|]; exact H).
    destruct (Hshape _ E) as [E1 E2].
    split; [exact E1|]. split; [discriminate|].
    split; [intros _; exact E2 | discriminate].
Qed.

(** X18. A successful [load] returns the parsed nodes in their order, each
    changed in its [content] only: the text of a text node, the empty text
    for a link or a group and for a file node without a readable note, the
    cached content of the note otherwise.  Its edges are the parsed edges
    followed by the synthetic edges derived from the enriched nodes, and
    absent [nodes] or [edges] count as empty. *)
Theorem load_enriches_nodes (vault : Vault) (path : string) (calls : nat)
    (canvas : CanvasData) (calls' : nat) :
  load vault path calls = Some (canvas, calls') ->
  exists raw parsedNodes parsedEdges,
    vault_read vault path = Some raw
    /\ JSON_parse raw = Some (parsedNodes, parsedEdges)
    /\ Forall2
         (fun n rn =>
            rn = withContent n (content rn)
            /\ (type n = text ->
                content rn
                = match ntext n with Some t => t | None => EmptyString end)
            /\ (type n = link \/ type n = group -> content rn = EmptyString)
            /\ (type n = file ->
                match nfile n with
                | Some (String c rest) =>
                    match getAbstractFileByPath vault (String c rest) with
                    | Some (Executor.TFile p) =>
                        vault_cachedRead vault p = Some (content rn)
                    | _ => content rn = EmptyString
                    end
                | _ => content rn = EmptyString
                end))
         (match parsedNodes with Some l => l | None => [] end)
         (nodes canvas)
    /\ (edges canvas, calls')
       = deriveGroupEdges randomUUID (nodes canvas)
           (match parsedEdges with Some l => l | None => [] end) calls
    /\ map id (nodes canvas)
       = map id (match parsedNodes with Some l => l | None => [] end).
Proof.
  unfold Loader.load. intros H.
  destruct (vault_read vault path) as [raw|] eqn:Hr; [|discriminate].
  destruct (JSON_parse raw) as [[parsedNodes parsedEdges]|] eqn:Hp;
    [|discriminate].
  destruct (promiseAll _) as [richNodes|] eqn:Hall; [|discriminate].
  destruct (deriveGroupEdges randomUUID richNodes _ calls)
    as [allEdges n'] eqn:Hd.
  injection H as <- <-. simpl.
  exists raw, parsedNodes, parsedEdges.
  split; [reflexivity|]. split; [exact Hp|].
  apply promiseAll_Some in Hall.
  assert (Hrich : Forall2 (fun n rn => rn = withContent n (content rn))
            (match parsedNodes with Some l => l | None => [] end) richNodes).
  { eapply Forall2_impl; [|exact Hall].
    intros n rn Hn. exact (proj1 (enrich_content vault n rn Hn)). }
  split; [|split].
  - eapply Forall2_impl; [|exact Hall].
    intros n rn Hn. exact (enrich_content vault n rn Hn).
  - now rewrite Hd.
  - clear - Hrich. induction Hrich as [|n rn l l' E _ IH]; simpl;
      [reflexivity|].
    rewrite IH, E. reflexivity.
Qed.

(** X19. [load] waits for all the notes: it fails when the file cannot be
    read, when its content does not parse, and as soon as the cached read
    of the note of one file node is rejected, however many other nodes
    there are. *)
Theorem load_fails_with_one_note (vault : Vault) (path : string)
    (calls : nat) :
  (vault_read vault path = None -> load vault path calls = None)
  /\ (forall raw,
        vault_read vault path = Some raw -> JSON_parse raw = None ->
        load vault path calls = None)
  /\ (forall raw parsedNodes parsedEdges n c rest p,
        vault_read vault path = Some raw ->
        JSON_parse raw = Some (Some parsedNodes, parsedEdges) ->
        In n parsedNodes ->
        type n = file -> nfile n = Some (String c rest) ->
        getAbstractFileByPath vault (String c rest) = Some (Executor.TFile p) ->
        vault_cachedRead vault p = None ->
        load vault path calls = None).
Proof.
  unfold Loader.load. split; [|split].
  - intros ->. reflexivity.
  - intros raw -> ->. reflexivity.
  - intros raw parsedNodes parsedEdges n c rest p -> -> Hin Hk Hf Hg Hr.
    rewrite (promiseAll_None _ parsedNodes n Hin); [reflexivity|].
    unfold Loader.enrich. now rewrite Hk, Hf, Hg, Hr.
Qed.

(** The own property of a key is the last node of the array with that
    id. *)
Lemma ownProperty_entries (key : string) (l : list RichNode) :
  match ownProperty key (map (fun n => (id n, n)) l) with
  | Some n =>
      id n = key
      /\ exists l1 l2,
           l = l1 ++ n :: l2 /\ forall m, In m l2 -> id m <> key
  | None => forall n, In n l -> id n <> key
  end.
Proof.
  induction l as [|a l IH]; simpl; [tauto|].
  destruct (ownProperty key (map (fun n => (id n, n)) l)) as [m|].
  - destruct IH as (Hid & l1 & l2 & -> & Hlast).
    split; [exact Hid|]. exists (a :: l1), l2. auto.
  - destruct (String.eqb (id a) key) eqn:E.
    + apply String.eqb_eq in E. split; [exact E|]. exists [], l. auto.
    + apply String.eqb_neq in E. intros n [<-|Hn]; auto.
Qed.

Lemma prototype_name (key : string) :
  existsb (String.eqb key) objectPrototypeNames = true
  <-> In key objectPrototypeNames.
Proof.
  rewrite existsb_exists. split.
  - intros (name & Hin & E). apply String.eqb_eq in E. now subst.
  - intros Hin. exists key. split; [exact Hin | apply String.eqb_refl].
Qed.

(** X20. Reading the [byId] index of a loaded canvas at a key gives the
    last node of the canvas with that id when there is one.  When no node
    has that id, it gives the member of [Object.prototype] of that name
    if the key is one of its property names, [constructor] for one, and
    [undefined] otherwise.  When node ids are unique, every node is found
    under its id. *)
Theorem load_index_by_id (vault : Vault) (path : string) (calls : nat)
    (canvas : CanvasData) (calls' : nat) :
  load vault path calls = Some (canvas, calls') ->
  (forall key,
     match lookupById key (byId canvas) with
     | OwnNode n =>
         id n = key
         /\ exists l1 l2,
              nodes canvas = l1 ++ n :: l2
              /\ forall m, In m l2 -> id m <> key
     | Inherited name =>
         name = key /\ In key objectPrototypeNames
         /\ forall n, In n (nodes canvas) -> id n <> key
     | Undefined =>
         ~ In key objectPrototypeNames
         /\ forall n, In n (nodes canvas) -> id n <> key
     end)
  /\ (forall key,
        (exists n, lookupById key (byId canvas) = OwnNode n)
        <-> exists n, In n (nodes canvas) /\ id n = key)
  /\ (NoDup (map id (nodes canvas)) ->
      forall n, In n (nodes canvas) ->
        lookupById (id n) (byId canvas) = OwnNode n)
  /\ ((forall n, In n (nodes canvas) -> id n <> "constructor") ->
      lookupById "constructor" (byId canvas) = Inherited "constructor").
Proof.
  intros H.
  assert (Hidx : byId canvas = map (fun n => (id n, n)) (nodes canvas)).
  { unfold Loader.load in H.
    destruct (vault_read vault path) as [raw|]; [|discriminate].
    destruct (JSON_parse raw) as [[pn pe]|]; [|discriminate].
    destruct (promiseAll _) as [richNodes|]; [|discriminate].
    destruct (deriveGroupEdges randomUUID richNodes _ calls).
    now injection H as <- _. }
  rewrite Hidx.
  assert (Hkey : forall key,
    match lookupById key (map (fun n => (id n, n)) (nodes canvas)) with
    | OwnNode n =>
        id n = key
        /\ exists l1 l2,
             nodes canvas = l1 ++ n :: l2
             /\ forall m, In m l2 -> id m <> key
    | Inherited name =>
        name = key /\ In key objectPrototypeNames
        /\ forall n, In n (nodes canvas) -> id n <> key
    | Undefined =>
        ~ In key objectPrototypeNames
        /\ forall n, In n (nodes canvas) -> id n <> key
    end).
  { intros key. unfold lookupById.
    pose proof (ownProperty_entries key (nodes canvas)) as Hown.
    destruct (ownProperty key (map (fun n => (id n, n)) (nodes canvas)))
      as [m|]; [exact Hown|].
    destruct (existsb (String.eqb key) objectPrototypeNames) eqn:E.
    - apply prototype_name in E. auto.
    - split; [|exact Hown]. intros Hin. apply prototype_name in Hin.
      congruence. }
  split; [exact Hkey|]. split; [|split].
  - intros key. specialize (Hkey key). split.
    + intros (n & E). rewrite E in Hkey.
      destruct Hkey as (Hid & l1 & l2 & Hsplit & _).
      exists n. split; [|exact Hid].
      rewrite Hsplit. apply in_or_app. right. now left.
    + intros (n & Hn & Hid).
      destruct (lookupById key (map (fun n => (id n, n)) (nodes canvas)))
        as [m|name|].
      * now exists m.
      * now destruct (proj2 (proj2 Hkey) n Hn).
      * now destruct (proj2 Hkey n Hn).
  - intros Hnd n Hn. specialize (Hkey (id n)).
    destruct (lookupById (id n) (map (fun n => (id n, n)) (nodes canvas)))
      as [m|name|].
    + destruct Hkey as (Hid & l1 & l2 & Hsplit & _). f_equal.
      apply (same_id_same_node (nodes canvas)); auto.
      rewrite Hsplit. apply in_or_app. right. now left.
    + now destruct (proj2 (proj2 Hkey) n Hn).
    + now destruct (proj2 Hkey n Hn).
  - intros Hnone. unfold lookupById.
    pose proof (ownProperty_entries "constructor" (nodes canvas)) as Hown.
    destruct (ownProperty "constructor"
                (map (fun n => (id n, n)) (nodes canvas))) as [m|];
      [|reflexivity].
    destruct Hown as (Hid & l1 & l2 & Hsplit & _).
    destruct (Hnone m); [|exact Hid].
    rewrite Hsplit. apply in_or_app. right. now left.
Qed.

End LoadMore.

Lemma load_enriches_nodes_witness :
  exists canvas calls',
    Loader.toyLoad true = Some (canvas, calls')
    /\ map Loader.id (Loader.nodes canvas) = ["doc"; "card"; "box"].
Proof.
  destruct (Loader.toyLoad true) as [[canvas calls']|] eqn:H;
    [|vm_compute in H; discriminate].
  exists canvas, calls'. split; [reflexivity|].
  destruct (load_enriches_nodes _ _ _ _ _ _ _ _ _ _ _ H)
    as (raw & pn & pe & _ & Hp & _ & _ & Hids).
  injection Hp as <- _. exact Hids.
Defined.

Lemma load_fails_with_one_note_witness : Loader.toyLoad false = None.
Proof.
  refine (proj2 (proj2 (load_fails_with_one_note bool _ _ _ _
                          Loader.sampleUUID false "c.canvas" 0))
            "{}" Loader.toyCanvasNodes None
            (nth 0 Loader.toyCanvasNodes (Loader.sampleNode "" Loader.text 0 0 0 0))
            "a"%char ".md" "a.md" _ _ _ _ _ _ _);
    try reflexivity.
  simpl. auto.
Defined.

Lemma load_index_by_id_witness :
  exists canvas calls',
    Loader.toyLoad true = Some (canvas, calls')
    /\ (forall n, In n (Loader.nodes canvas) ->
          Loader.lookupById (Loader.id n) (Loader.byId canvas)
          = Loader.OwnNode n)
    /\ Loader.lookupById "constructor" (Loader.byId canvas)
       = Loader.Inherited "constructor".
Proof.
  destruct (Loader.toyLoad true) as [[canvas calls']|] eqn:H;
    [|vm_compute in H; discriminate].
  exists canvas, calls'. split; [reflexivity|].
  destruct (load_index_by_id _ _ _ _ _ _ _ _ _ _ _ H)
    as (_ & _ & Hunique & Hproto).
  vm_compute in H. injection H as <- _. split.
  - apply Hunique. simpl.
    repeat constructor; simpl; intuition discriminate.
  - apply Hproto. simpl. intros n [<-|[<-|[<-|[]]]]; discriminate.
Defined.

(** ** The streaming parser: what the patterns match *)

Section PatternFacts.
Import Streamer.

Lemma rmatch_lit (t : string) (s : list ascii) (c : caps) (k : Continuation)
    (res : MatchState) :
  rmatch (lit t) s c k = Some res ->
  exists s', s = list_ascii_of_string t ++ s' /\ k s' c = Some res.
Proof.
  revert s. induction t as [|a t IH]; intros s H; simpl in H.
  - exists s. auto.
  - destruct s as [|b s]; [discriminate|].
    destruct (Ascii.eqb a b) eqn:E; [|discriminate].
    apply Ascii.eqb_eq in E. subst b.
    destruct (IH _ H) as (s' & -> & Hk). exists s'. auto.
Qed.

Lemma rmatch_chr (a : ascii) (s : list ascii) (c : caps) (k : Continuation)
    (res : MatchState) :
  rmatch (Chr a) s c k = Some res ->
  exists s', s = a :: s' /\ k s' c = Some res.
Proof.
  simpl. destruct s as [|b s]; [discriminate|].
  destruct (Ascii.eqb a b) eqn:E; [|discriminate].
  apply Ascii.eqb_eq in E. subst b. eauto.
Qed.

Lemma rmatch_seq (r1 r2 : regex) (s : list ascii) (c : caps)
    (k : Continuation) :
  rmatch (Seq r1 r2) s c k = rmatch r1 s c (fun s' c' => rmatch r2 s' c' k).
Proof. reflexivity. Qed.

Lemma rmatch_grp (n : nat) (r : regex) (s : list ascii) (c : caps)
    (k : Continuation) :
  rmatch (Grp n r) s c k
  = rmatch r s c
      (fun s' c' => k s' ((n, firstn (length s - length s') s) :: c')).
Proof. reflexivity. Qed.

Lemma rmatch_eps (s : list ascii) (c : caps) (k : Continuation) :
  rmatch Eps s c k = k s c.
Proof. reflexivity. Qed.

Lemma rmatch_cls_cons (p : ascii -> bool) (b : ascii) (s : list ascii)
    (c : caps) (k : Continuation) :
  rmatch (Cls p) (b :: s) c k = if p b then k s c else None.
Proof. reflexivity. Qed.

(** A greedy [*] over a character class reads characters of the class. *)
Lemma starLoop_cls (p : ascii -> bool) (k : Continuation) (res : MatchState) :
  forall n s c,
    starLoop (rmatch (Cls p)) k n s c = Some res ->
    exists pre s',
      s = pre ++ s' /\ forallb p pre = true /\ k s' c = Some res.
Proof.
  induction n as [|n IH]; intros s c H; cbn [starLoop] in H.
  - exists [], s. auto.
  - destruct s as [|b s1]; [exists [], []; auto|].
    rewrite rmatch_cls_cons in H.
    destruct (p b) eqn:Hb; [|exists [], (b :: s1); auto].
    assert (Hlt : Nat.ltb (length s1) (length (b :: s1)) = true)
      by (apply Nat.ltb_lt; simpl; lia).
    rewrite Hlt in H.
    destruct (starLoop (rmatch (Cls p)) k n s1 c) as [res'|] eqn:E.
    + injection H as ->. destruct (IH _ _ E) as (pre & s' & -> & Hp & Hk).
      exists (b :: pre), s'. simpl. rewrite Hb. auto.
    + exists [], (b :: s1). auto.
Qed.

Lemma rmatch_plus_cls (p : ascii -> bool) (s : list ascii) (c : caps)
    (k : Continuation) (res : MatchState) :
  rmatch (plus (Cls p)) s c k = Some res ->
  exists pre s',
    pre <> [] /\ s = pre ++ s' /\ forallb p pre = true /\ k s' c = Some res.
Proof.
  unfold plus. intros H.
  change (rmatch (Cls p) s c (fun s' c' => rmatch (Star (Cls p)) s' c' k)
          = Some res) in H.
  destruct s as [|b s1]; [discriminate|].
  rewrite rmatch_cls_cons in H.
  destruct (p b) eqn:Hb; [|discriminate].
  change (starLoop (rmatch (Cls p)) k (length s1) s1 c = Some res) in H.
  destruct (starLoop_cls _ _ _ _ _ _ H) as (pre & s' & -> & Hp & Hk).
  exists (b :: pre), s'. simpl. rewrite Hb. repeat split; auto. discriminate.
Qed.

Lemma rmatch_star_cls (p : ascii -> bool) (s : list ascii) (c : caps)
    (k : Continuation) (res : MatchState) :
  rmatch (Star (Cls p)) s c k = Some res ->
  exists pre s', s = pre ++ s' /\ forallb p pre = true /\ k s' c = Some res.
Proof.
  intros H.
  change (starLoop (rmatch (Cls p)) k (length s) s c = Some res) in H.
  exact (starLoop_cls _ _ _ _ _ _ H).
Qed.

Lemma firstn_consumed (pre s' : list ascii) :
  firstn (length (pre ++ s') - length s') (pre ++ s') = pre.
Proof.
  rewrite length_app, Nat.add_sub. rewrite firstn_app, Nat.sub_diag.
  rewrite firstn_all. simpl. apply app_nil_r.
Qed.

(** A match of a self-closing pattern: the tag, white space, an attribute
    text without [/], and [/>]. *)
Lemma selfClosing_match (tag : string) (s s' : list ascii) (c' : caps) :
  rmatch (selfClosing tag) s [] (fun s' c' => Some (s', c')) = Some (s', c') ->
  exists w g,
    s = list_ascii_of_string tag ++ w ++ g ++ list_ascii_of_string "/>" ++ s'
    /\ w <> [] /\ forallb isWhite w = true
    /\ g <> [] /\ forallb (isNot "/") g = true
    /\ c' = [(1, g)].
Proof.
  unfold selfClosing, seqs. cbn [fold_right]. intros H.
  rewrite rmatch_seq in H.
  apply rmatch_lit in H. destruct H as (s1 & -> & H).
  rewrite rmatch_seq in H.
  apply rmatch_plus_cls in H. destruct H as (w & s2 & Hw & -> & Hws & H).
  rewrite rmatch_seq, rmatch_grp in H.
  apply rmatch_plus_cls in H. destruct H as (g & s3 & Hg & -> & Hgs & H).
  rewrite rmatch_seq in H.
  apply rmatch_lit in H. destruct H as (s4 & -> & H).
  rewrite rmatch_eps in H. injection H as <- <-.
  exists w, g. rewrite firstn_consumed. repeat split; auto.
Qed.

(** A match of the attribute pattern: a name of word characters, [=], and
    a value between double quotes that holds no double quote. *)
Lemma attrPattern_match (s s' : list ascii) (c' : caps) :
  rmatch attrPattern s [] (fun s' c' => Some (s', c')) = Some (s', c') ->
  exists name value,
    s = name ++ "="%char :: dquote :: value ++ dquote :: s'
    /\ name <> [] /\ forallb isWord name = true
    /\ forallb (isNot dquote) value = true
    /\ c' = [(2, value); (1, name)].
Proof.
  unfold attrPattern, seqs. cbn [fold_right]. intros H.
  rewrite rmatch_seq, rmatch_grp in H.
  apply rmatch_plus_cls in H. destruct H as (name & s1 & Hn & -> & Hns & H).
  rewrite rmatch_seq in H.
  apply rmatch_chr in H. destruct H as (s2 & -> & H).
  rewrite rmatch_seq in H.
  apply rmatch_chr in H. destruct H as (s3 & -> & H).
  rewrite rmatch_seq, rmatch_grp in H.
  apply rmatch_star_cls in H. destruct H as (value & s4 & -> & Hv & H).
  rewrite rmatch_seq in H.
  apply rmatch_chr in H. destruct H as (s5 & -> & H).
  rewrite rmatch_eps in H. injection H as <- <-.
  exists name, value. rewrite !firstn_consumed. repeat split; auto.
Qed.

(** A match of the pattern of [extractCanvasPath]. *)
Lemma canvasPathPattern_match (s s' : list ascii) (c' : caps) :
  rmatch canvasPathPattern s [] (fun s' c' => Some (s', c')) = Some (s', c') ->
  exists w path,
    s = list_ascii_of_string "<canvas_edit" ++ w
        ++ list_ascii_of_string "path=" ++ dquote :: path ++ dquote :: s'
    /\ w <> [] /\ forallb isWhite w = true
    /\ path <> [] /\ forallb (isNot dquote) path = true
    /\ c' = [(1, path)].
Proof.
  unfold canvasPathPattern, seqs. cbn [fold_right]. intros H.
  rewrite rmatch_seq in H.
  apply rmatch_lit in H. destruct H as (s1 & -> & H).
  rewrite rmatch_seq in H.
  apply rmatch_plus_cls in H. destruct H as (w & s2 & Hw & -> & Hws & H).
  rewrite rmatch_seq in H.
  apply rmatch_lit in H. destruct H as (s3 & -> & H).
  rewrite rmatch_seq in H.
  apply rmatch_chr in H. destruct H as (s4 & -> & H).
  rewrite rmatch_seq, rmatch_grp in H.
  apply rmatch_plus_cls in H. destruct H as (path & s5 & Hp & -> & Hps & H).
  rewrite rmatch_seq in H.
  apply rmatch_chr in H. destruct H as (s6 & -> & H).
  rewrite rmatch_eps in H. injection H as <- <-.
  exists w, path. rewrite firstn_consumed. repeat split; auto.
Qed.

(** [search] returns the result of matching at some position of the
    input. *)
Lemma search_found (r : regex) (s : list ascii) (i : nat) (m : RegExpMatch) :
  search r s i = Some m ->
  exists pre rest s',
    s = pre ++ rest
    /\ rmatch r rest [] (fun s' c' => Some (s', c')) = Some (s', m_groups m)
    /\ m_text m = firstn (length rest - length s') rest.
Proof.
  revert i. induction s as [|a s IH]; intros i H; rewrite search_unfold in H.
  - destruct (rmatch r [] [] _) as [[s' c']|] eqn:E; [|discriminate].
    injection H as <-. exists [], [], s'. auto.
  - destruct (rmatch r (a :: s) [] _) as [[s' c']|] eqn:E.
    + injection H as <-. exists [], (a :: s), s'. auto.
    + destruct (IH _ H) as (pre & rest & s' & -> & Hm & Ht).
      exists (a :: pre), rest, s'. auto.
Qed.

Lemma exec_found (r : regex) (input : list ascii) (i : nat) (m : RegExpMatch) :
  exec r input i = Some m ->
  exists pre rest s',
    input = pre ++ rest
    /\ rmatch r rest [] (fun s' c' => Some (s', c')) = Some (s', m_groups m)
    /\ m_text m = firstn (length rest - length s') rest.
Proof.
  unfold exec. destruct (Nat.ltb (length input) i); [discriminate|].
  intros H. destruct (search_found _ _ _ _ H) as (pre & rest & s' & E & Hm & Ht).
  exists (firstn i input ++ pre), rest, s'.
  rewrite <- app_assoc, <- E, firstn_skipn. auto.
Qed.




End PatternFacts.

(** ** The streaming parser: utility functions *)

Section UtilityFacts.
Import Streamer.

Lemma isPrefix_app (p s : list ascii) : isPrefix p (p ++ s) = true.
Proof.
  induction p as [|a p IH]; simpl; [reflexivity|].
  now rewrite Ascii.eqb_refl, IH.
Qed.

Lemma includes_prefix (p s : list ascii) :
  isPrefix p s = true -> includes p s = true.
Proof. intros H. destruct s; simpl; now rewrite H. Qed.

Lemma includes_app (p pre s : list ascii) :
  includes p (pre ++ p ++ s) = true.
Proof.
  induction pre as [|a pre IH].
  - change ([] ++ p ++ s) with (p ++ s).
    apply includes_prefix, isPrefix_app.
  - simpl. rewrite IH. apply orb_true_r.
Qed.

(** X21. When [extractCanvasPath] finds a path, [containsCanvasEdit] holds
    of the same text, and the path is not empty and holds no double
    quote: it is the text between the quotes of [path=...] that follows,
    after white space, the first [<canvas_edit].  So a text on which
    [containsCanvasEdit] fails has no path. *)
Theorem extract_path_implies_contains (text path : string) :
  extractCanvasPath text = Some path ->
  containsCanvasEdit text = true
  /\ path <> EmptyString
  /\ forallb (isNot dquote) (list_ascii_of_string path) = true
  /\ exists before w after,
       list_ascii_of_string text
       = before ++ list_ascii_of_string "<canvas_edit" ++ w
         ++ list_ascii_of_string "path=" ++ dquote
            :: list_ascii_of_string path ++ dquote :: after
       /\ w <> [] /\ forallb isWhite w = true.
Proof.
  unfold extractCanvasPath, containsCanvasEdit.
  destruct (exec canvasPathPattern (list_ascii_of_string text) 0)
    as [m|] eqn:E; [|discriminate].
  intros H. injection H as <-.
  destruct (exec_found _ _ _ _ E) as (pre & rest & s' & Htext & Hm & _).
  destruct (canvasPathPattern_match _ _ _ Hm)
    as (w & p & -> & Hw & Hws & Hp & Hq & Hcaps).
  unfold group. rewrite Hcaps. simpl capture. unfold str.
  rewrite list_ascii_of_string_of_list_ascii, Htext.
  split; [apply includes_app|]. split.
  { destruct p; [congruence | discriminate]. }
  split; [assumption|].
  exists pre, w, s'. split; [reflexivity|]. split; assumption.
Qed.

Lemma extract_path_implies_contains_witness :
  containsCanvasEdit (q "say <canvas_edit path='a b.canvas' summary='s'>") = true.
Proof.
  apply (extract_path_implies_contains
           (q "say <canvas_edit path='a b.canvas' summary='s'>")
           "a b.canvas").
  vm_compute. reflexivity.
Defined.

End UtilityFacts.

(** ** The streaming parser: what a call yields and keeps *)

Section StreamerMore.
Import Streamer.

Variable generatedEdgeId : nat -> string.

Local Abbreviation buildAddEdge := (buildAddEdge generatedEdgeId).
Local Abbreviation processChunk := (processChunk generatedEdgeId).
Local Abbreviation feedAll := (feedAll generatedEdgeId).

(** Every operation a call yields is built by one of the six loops from a
    match of its pattern. *)
Lemma processChunk_built (this this' : Streamer) (chunk : string)
    (ops : list CanvasOperation) (op : CanvasOperation) :
  processChunk this chunk = Some (this', ops) -> In op ops ->
  Built addNodeWithContentPattern buildAddNodeWithContent op
  \/ Built addNodeSelfClosingPattern buildAddNodeSelfClosing op
  \/ Built updateNodePattern buildUpdateNode op
  \/ Built deleteNodePattern buildDeleteNode op
  \/ Built addEdgePattern buildAddEdge op
  \/ Built deleteEdgePattern buildDeleteEdge op.
Proof.
  intros Hrun Hin.
  destruct (processChunk_scans generatedEdgeId this chunk)
    as (st1 & st2 & st3 & st4 & st5 & st6 & l1 & l2 & l3 & l4 & l5 & l6
        & this0 & _ & _ & _ & _ & _ & _ & Hrun' & _
        & B1 & B2 & B3 & B4 & B5 & B6).
  rewrite Hrun in Hrun'. injection Hrun' as _ ->.
  rewrite Forall_forall in B1, B2, B3, B4, B5, B6.
  rewrite !in_app_iff in Hin.
  destruct Hin as [Hin|[Hin|[Hin|[Hin|[Hin|Hin]]]]]; auto 10.
Qed.

Lemma truthy_defined (o : option string) :
  truthy o = true -> defined o <> EmptyString.
Proof. destruct o as [[|c s]|]; simpl; discriminate. Qed.

(** X22. An operation is yielded only with its identifying attributes: an
    [add_node] has a non-empty id and a non-empty type, an [update_node],
    a [delete_node] and a [delete_edge] a non-empty id, an [add_edge]
    non-empty endpoints.  A tag that lacks them yields nothing. *)
Theorem yielded_operations_are_identified (this this' : Streamer)
    (chunk : string) (ops : list CanvasOperation) (op : CanvasOperation) :
  processChunk this chunk = Some (this', ops) -> In op ops ->
  match op with
  | OpAddNode a => an_id a <> EmptyString /\ an_nodeType a <> EmptyString
  | OpUpdateNode u => un_id u <> EmptyString
  | OpDeleteNode id => id <> EmptyString
  | OpAddEdge e =>
      ae_fromNode e <> EmptyString /\ ae_toNode e <> EmptyString
  | OpDeleteEdge id => id <> EmptyString
  end.
Proof.
  intros Hrun Hin.
  destruct (processChunk_built _ _ _ _ _ Hrun Hin)
    as [H|[H|[H|[H|[H|H]]]]];
    destruct H as (m & attrs & _ & _ & gen & gen' & H).
  - unfold buildAddNodeWithContent in H.
    destruct (truthy (attr "id" attrs)) eqn:E1; [|discriminate].
    destruct (truthy (attr "type" attrs)) eqn:E2; [|discriminate].
    injection H as <- _. simpl. split; now apply truthy_defined.
  - unfold buildAddNodeSelfClosing in H.
    destruct (truthy (attr "id" attrs)) eqn:E1; [|discriminate].
    destruct (truthy (attr "type" attrs)) eqn:E2; [|discriminate].
    injection H as <- _. simpl. split; now apply truthy_defined.
  - unfold buildUpdateNode in H.
    destruct (truthy (attr "id" attrs)) eqn:E1; [|discriminate].
    injection H as <- _. simpl. now apply truthy_defined.
  - unfold buildDeleteNode in H.
    destruct (truthy (attr "id" attrs)) eqn:E1; [|discriminate].
    injection H as <- _. now apply truthy_defined.
  - unfold Streamer.buildAddEdge in H.
    destruct (truthy (attr "from" attrs)) eqn:E1; [|discriminate].
    destruct (truthy (attr "to" attrs)) eqn:E2; [|discriminate].
    simpl in H. destruct (truthy (attr "id" attrs));
      injection H as <- _; simpl; split; now apply truthy_defined.
  - unfold buildDeleteEdge in H.
    destruct (truthy (attr "id" attrs)) eqn:E1; [|discriminate].
    injection H as <- _. now apply truthy_defined.
Qed.

(** A prefix can be split off. *)
Lemma isPrefix_split (p s : list ascii) :
  isPrefix p s = true -> s = p ++ skipn (length p) s.
Proof.
  revert s. induction p as [|a p IH]; intros s H; [reflexivity|].
  destruct s as [|b s]; [discriminate|]. simpl in H.
  apply andb_true_iff in H. destruct H as [E H].
  apply Ascii.eqb_eq in E. subst b. simpl. f_equal. now apply IH.
Qed.

(** [replace] with a text that occurs takes one occurrence out. *)
Lemma replaceFirst_cut (t b : list ascii) (i : nat) :
  isPrefix t (skipn i b) = true -> CutOut t b (replaceFirst t b).
Proof.
  revert i. induction b as [|a b IH]; intros i H.
  - rewrite skipn_nil in H. destruct t; [|discriminate].
    exists [], []. split; reflexivity.
  - cbn [replaceFirst]. destruct (isPrefix t (a :: b)) eqn:E.
    + exists [], (skipn (length t) (a :: b)). split; [|reflexivity].
      exact (isPrefix_split _ _ E).
    + destruct i as [|i]; [simpl in H; congruence|].
      destruct (IH i H) as (pre & post & Hb & Hb').
      exists (a :: pre), post. simpl. now rewrite <- Hb, <- Hb'.
Qed.

Lemma CutAll_app (ts1 ts2 : list (list ascii)) (b b1 b2 : list ascii) :
  CutAll ts1 b b1 -> CutAll ts2 b1 b2 -> CutAll (ts1 ++ ts2) b b2.
Proof.
  revert b. induction ts1 as [|t ts1 IH]; intros b H1 H2; simpl in *.
  - now subst b1.
  - destruct H1 as (b0 & Hcut & Hrest). exists b0. eauto.
Qed.

Lemma CutAll_length (ts : list (list ascii)) (b b' : list ascii) :
  CutAll ts b b' ->
  length b' + list_sum (map (@length ascii) ts) = length b.
Proof.
  revert b. induction ts as [|t ts IH]; intros b H; simpl in *.
  - subst. lia.
  - destruct H as (b1 & (pre & post & -> & ->) & Hrest).
    apply IH in Hrest. rewrite !length_app in *. lia.
Qed.

(** A loop takes out of the buffer the matched texts of the operations it
    pushes, and nothing else. *)
Lemma whileExec_cuts (pattern : regex) (build : Builder) :
  forall fuel st st',
    whileExec fuel pattern build st = Some st' ->
    exists ms l,
      sc_operations st' = sc_operations st ++ l
      /\ Forall2 (fun m op => exists attrs, BuiltFrom pattern build m attrs op)
                 ms l
      /\ CutAll (map m_text ms) (sc_buffer st) (sc_buffer st').
Proof.
  induction fuel as [|fuel IH]; intros st st' H; [discriminate|].
  cbn [whileExec] in H.
  destruct (exec pattern (sc_buffer st) (sc_lastIndex st)) as [m|] eqn:E.
  - destruct (exec_bounds _ _ _ _ E) as (_ & _ & Hocc & _).
    destruct (parseAttributes (group 1 m)) as [attrs|] eqn:Hattrs;
      [|discriminate].
    destruct (build attrs m (sc_generated st)) as [[op gen']|] eqn:Hb.
    + destruct (IH _ _ H) as (ms & l & Hops & Hbuilt & Hcut).
      cbn [sc_buffer sc_operations] in *.
      exists (m :: ms), (op :: l).
      split; [now rewrite Hops, <- app_assoc|]. split.
      * constructor; [|exact Hbuilt].
        exists attrs. split; [eauto|]. split; [exact Hattrs | eauto].
      * simpl. exists (replaceFirst (m_text m) (sc_buffer st)).
        split; [exact (replaceFirst_cut _ _ _ Hocc) | exact Hcut].
    + destruct (IH _ _ H) as (ms & l & Hops & Hbuilt & Hcut).
      exists ms, l. auto.
  - injection H as <-. exists [], []. simpl. rewrite app_nil_r.
    repeat split. constructor.
Qed.

Lemma starLoop_suffix
    (body : list ascii -> caps -> Continuation -> option MatchState)
    (k : Continuation) (res : MatchState) :
  (forall s c k', body s c k' = Some res ->
     exists pre s' c', s = pre ++ s' /\ k' s' c' = Some res) ->
  forall n s c,
    starLoop body k n s c = Some res ->
    exists pre s' c', s = pre ++ s' /\ k s' c' = Some res.
Proof.
  intros Hbody. induction n as [|n IH]; intros s c H; simpl in H.
  - exists [], s, c. auto.
  - destruct (body s c _) as [res'|] eqn:E.
    + injection H as ->.
      destruct (Hbody _ _ _ E) as (pre1 & s1 & c1 & -> & Hk).
      destruct (Nat.ltb (length s1) (length (pre1 ++ s1))); [|discriminate].
      destruct (IH _ _ Hk) as (pre2 & s2 & c2 & -> & Hk2).
      exists (pre1 ++ pre2), s2, c2. now rewrite <- app_assoc.
    + exists [], s, c. auto.
Qed.

(** A successful match hands to its continuation a suffix of the input. *)
Lemma rmatch_suffix (r : regex) :
  forall s c k res,
    rmatch r s c k = Some res ->
    exists pre s' c', s = pre ++ s' /\ k s' c' = Some res.
Proof.
  induction r as [|a|p|r1 IH1 r2 IH2|r1 IH1|r1 IH1|n r1 IH1|r1 IH1];
    intros s c k res H; simpl in H.
  - exists [], s, c. auto.
  - destruct s as [|b s']; [discriminate|].
    destruct (Ascii.eqb a b); [|discriminate].
    exists [b], s', c. auto.
  - destruct s as [|b s']; [discriminate|].
    destruct (p b); [|discriminate].
    exists [b], s', c. auto.
  - destruct (IH1 _ _ _ _ H) as (pre1 & s1 & c1 & -> & H1).
    destruct (IH2 _ _ _ _ H1) as (pre2 & s2 & c2 & -> & H2).
    exists (pre1 ++ pre2), s2, c2. now rewrite <- app_assoc.
  - exact (starLoop_suffix (rmatch r1) k res
             (fun s0 c0 k' Hb => IH1 s0 c0 k' res Hb) (length s) s c H).
  - destruct (rmatch r1 s c _) as [res'|] eqn:E.
    + injection H as ->.
      destruct (IH1 _ _ _ _ E) as (pre1 & s1 & c1 & -> & Hk).
      destruct (Nat.ltb (length s1) (length (pre1 ++ s1))); [|discriminate].
      eauto.
    + exists [], s, c. auto.
  - destruct (IH1 _ _ _ _ H) as (pre1 & s1 & c1 & -> & Hk). eauto.
  - destruct (rmatch r1 s c _); [discriminate|].
    exists [], s, c. auto.
Qed.

(** A match of the pattern for [add_node] with content. *)
Lemma addNodeWithContent_match (s s' : list ascii) (c' : caps) :
  rmatch addNodeWithContentPattern s [] (fun s' c' => Some (s', c'))
  = Some (s', c') ->
  exists w g inner,
    s = list_ascii_of_string "<add_node" ++ w ++ g ++ ">"%char :: inner
        ++ list_ascii_of_string "</add_node>" ++ s'
    /\ w <> [] /\ forallb isWhite w = true
    /\ g <> [] /\ forallb (isNot ">") g = true.
Proof.
  unfold addNodeWithContentPattern, seqs. cbn [fold_right]. intros H.
  rewrite rmatch_seq in H.
  apply rmatch_lit in H. destruct H as (s1 & -> & H).
  rewrite rmatch_seq in H.
  apply rmatch_plus_cls in H. destruct H as (w & s2 & Hw & -> & Hws & H).
  rewrite rmatch_seq, rmatch_grp in H.
  apply rmatch_plus_cls in H. destruct H as (g & s3 & Hg & -> & Hgs & H).
  rewrite rmatch_seq in H.
  apply rmatch_chr in H. destruct H as (s4 & -> & H).
  rewrite rmatch_seq, rmatch_grp in H.
  apply rmatch_suffix in H. destruct H as (inner & s5 & c5 & -> & H).
  rewrite rmatch_seq in H.
  apply rmatch_lit in H. destruct H as (s6 & -> & H).
  rewrite rmatch_eps in H. injection H as <- _.
  exists w, g, inner. repeat split; auto.
Qed.

Lemma exec_text (r : regex) (input : list ascii) (i : nat) (m : RegExpMatch) :
  exec r input i = Some m ->
  exists rest s',
    rmatch r rest [] (fun s' c' => Some (s', c')) = Some (s', m_groups m)
    /\ m_text m = firstn (length rest - length s') rest.
Proof.
  intros H. destruct (exec_found _ _ _ _ H) as (pre & rest & s' & _ & Hm & Ht).
  eauto.
Qed.

Lemma selfClosing_isTag (t : string) (input : list ascii) (i : nat)
    (m : RegExpMatch) :
  exec (selfClosing (String "<" t)) input i = Some m -> isTag (m_text m).
Proof.
  intros H. destruct (exec_text _ _ _ _ H) as (rest & s' & Hm & ->).
  destruct (selfClosing_match _ _ _ _ Hm) as (w & g & -> & _).
  exists (list_ascii_of_string t ++ w ++ g ++ ["/"%char]).
  replace (list_ascii_of_string (String "<" t) ++ w ++ g
             ++ list_ascii_of_string "/>" ++ s')
    with (("<"%char :: (list_ascii_of_string t ++ w ++ g ++ ["/"%char])
           ++ [">"%char]) ++ s').
  - apply firstn_consumed.
  - simpl. rewrite <- !app_assoc. reflexivity.
Qed.

Lemma addNodeWithContent_isTag (input : list ascii) (i : nat)
    (m : RegExpMatch) :
  exec addNodeWithContentPattern input i = Some m -> isTag (m_text m).
Proof.
  intros H. destruct (exec_text _ _ _ _ H) as (rest & s' & Hm & ->).
  destruct (addNodeWithContent_match _ _ _ Hm) as (w & g & inner & -> & _).
  exists (list_ascii_of_string "add_node" ++ w ++ g ++ ">"%char :: inner
          ++ list_ascii_of_string "</add_node").
  replace (list_ascii_of_string "<add_node" ++ w ++ g ++ ">"%char :: inner
           ++ list_ascii_of_string "</add_node>" ++ s')
    with (("<"%char :: (list_ascii_of_string "add_node" ++ w ++ g
                        ++ ">"%char :: inner
                        ++ list_ascii_of_string "</add_node")
           ++ [">"%char]) ++ s').
  - apply firstn_consumed.
  - simpl. rewrite <- !app_assoc. simpl. rewrite <- !app_assoc. reflexivity.
Qed.

Lemma TagOf_isTag (m : RegExpMatch) (op : CanvasOperation) :
  TagOf generatedEdgeId m op -> isTag (m_text m).
Proof.
  intros (attrs & [H|[H|[H|[H|[H|H]]]]]);
    destruct H as ((input & i & E) & _).
  - exact (addNodeWithContent_isTag _ _ _ E).
  - exact (selfClosing_isTag _ _ _ _ E).
  - exact (selfClosing_isTag _ _ _ _ E).
  - exact (selfClosing_isTag _ _ _ _ E).
  - exact (selfClosing_isTag _ _ _ _ E).
  - exact (selfClosing_isTag _ _ _ _ E).
Qed.

(** X23. A call takes out of the buffer the tags of the operations it
    yields and nothing else: the buffer it leaves is the old buffer with
    the chunk appended, out of which the matched texts of the yielded
    operations have been taken one after the other, each of them a text of
    the buffer that runs from a [<] to a [>] and that one of the six
    patterns matched.  All the other text stays, in its order; so the
    lengths add up, and when the call yields no operation the buffer is
    exactly the old buffer with the chunk appended.  A tag cut by the end
    of a chunk waits in the buffer for the next call. *)
Theorem unused_text_stays_in_buffer (this this' : Streamer) (chunk : string)
    (ops : list CanvasOperation) :
  processChunk this chunk = Some (this', ops) ->
  exists ms,
    Forall2 (TagOf generatedEdgeId) ms ops
    /\ CutAll (map m_text ms)
              (buffer this ++ list_ascii_of_string chunk) (buffer this')
    /\ Forall (fun m => isTag (m_text m)) ms
    /\ length (buffer this')
       + list_sum (map (fun m => length (m_text m)) ms)
       = length (buffer this) + String.length chunk
    /\ (ops = [] ->
        buffer this' = buffer this ++ list_ascii_of_string chunk).
Proof.
  intros Hrun.
  destruct (processChunk_scans generatedEdgeId this chunk)
    as (st1 & st2 & st3 & st4 & st5 & st6 & l1 & l2 & l3 & l4 & l5 & l6
        & this0 & S1 & S2 & S3 & S4 & S5 & S6 & Hrun' & Hbuf & _).
  rewrite Hrun in Hrun'. injection Hrun' as <- ->.
  assert (Hstep : forall pattern build st st' l,
    ScansShape pattern build st st' l ->
    exists ms,
      Forall2 (fun m op => exists attrs, BuiltFrom pattern build m attrs op)
              ms l
      /\ CutAll (map m_text ms) (sc_buffer st) (sc_buffer st')).
  { intros pattern build st st' l (Hscan & Hops & _).
    destruct (whileExec_cuts pattern build _ _ _ Hscan)
      as (ms & l' & Hops' & Hbuilt & Hcut).
    rewrite Hops in Hops'. apply app_inv_head in Hops'. subst l'.
    exists ms. auto. }
  destruct (Hstep _ _ _ _ _ S1) as (ms1 & B1 & C1).
  destruct (Hstep _ _ _ _ _ S2) as (ms2 & B2 & C2).
  destruct (Hstep _ _ _ _ _ S3) as (ms3 & B3 & C3).
  destruct (Hstep _ _ _ _ _ S4) as (ms4 & B4 & C4).
  destruct (Hstep _ _ _ _ _ S5) as (ms5 & B5 & C5).
  destruct (Hstep _ _ _ _ _ S6) as (ms6 & B6 & C6).
  cbn [startScan sc_buffer] in C1.
  assert (Htags : Forall2 (TagOf generatedEdgeId) (ms1 ++ ms2 ++ ms3 ++ ms4 ++ ms5 ++ ms6)
                    (l1 ++ l2 ++ l3 ++ l4 ++ l5 ++ l6)).
  { repeat apply Forall2_app;
      (eapply Forall2_impl; [|eassumption]);
      intros m op (attrs & Hb); exists attrs; auto 10. }
  assert (Hcuts : CutAll (map m_text (ms1 ++ ms2 ++ ms3 ++ ms4 ++ ms5 ++ ms6))
                    (buffer this ++ list_ascii_of_string chunk)
                    (buffer this')).
  { rewrite Hbuf, !map_app.
    repeat (eapply CutAll_app; [eassumption|]). exact C6. }
  exists (ms1 ++ ms2 ++ ms3 ++ ms4 ++ ms5 ++ ms6).
  split; [exact Htags|]. split; [exact Hcuts|]. split; [|split].
  - clear - Htags. induction Htags as [|m op ms ops Hm _ IH]; constructor;
      [exact (TagOf_isTag _ _ Hm) | exact IH].
  - apply CutAll_length in Hcuts. rewrite map_map in Hcuts.
    rewrite length_app in Hcuts.
    assert (Hchunk : length (list_ascii_of_string chunk) = String.length chunk).
    { clear. induction chunk as [|c r IH]; simpl; [reflexivity | now rewrite IH]. }
    lia.
  - intros Hnil. rewrite Hnil in Htags. inversion Htags as [E1 E2|]; subst.
    rewrite <- E1 in Hcuts. exact Hcuts.
Qed.





Lemma skipWhite_head_nonwhite (s : list ascii) :
  match skipWhite s with
  | c :: _ => isWhite c = false
  | [] => True
  end.
Proof.
  induction s as [|a s IH]; simpl; [exact I|].
  destruct (isWhite a) eqn:E; [exact IH | exact E].
Qed.

Lemma skipWhite_snoc (l : list ascii) (c : ascii) :
  isWhite c = false -> exists l', skipWhite (l ++ [c]) = l' ++ [c].
Proof.
  intros Hc. induction l as [|a l IH]; simpl.
  - rewrite Hc. now exists [].
  - destruct (isWhite a); [exact IH | now exists (a :: l)].
Qed.

(** [trim] leaves no white space at either end. *)
Lemma trim_ends (s : list ascii) :
  match trim s with c :: _ => isWhite c = false | [] => True end
  /\ match rev (trim s) with c :: _ => isWhite c = false | [] => True end.
Proof.
  unfold trim. split.
  - pose proof (skipWhite_head_nonwhite s) as H.
    destruct (skipWhite s) as [|c t]; [exact I|].
    simpl rev. destruct (skipWhite_snoc (rev t) c H) as (l' & ->).
    rewrite rev_app_distr. simpl. exact H.
  - rewrite rev_involutive. apply skipWhite_head_nonwhite.
Qed.

(** X25. The content of a yielded [add_node] is trimmed: it is absent, or
    it is a non-empty text that neither starts nor ends with white
    space.  An [add_node] whose inner text is empty or blank has no
    content. *)
Theorem text_content_is_trimmed (this this' : Streamer) (chunk : string)
    (ops : list CanvasOperation) (a : AddNodeOperation) (c : string) :
  processChunk this chunk = Some (this', ops) ->
  In (OpAddNode a) ops ->
  an_content a = Some c ->
  c <> EmptyString
  /\ match list_ascii_of_string c with
     | ch :: _ => isWhite ch = false
     | [] => True
     end
  /\ match rev (list_ascii_of_string c) with
     | ch :: _ => isWhite ch = false
     | [] => True
     end.
Proof.
  intros Hrun Hin Hc.
  destruct (processChunk_built _ _ _ _ _ Hrun Hin)
    as [H|[H|[H|[H|[H|H]]]]];
    destruct H as (m & attrs & _ & _ & gen & gen' & H).
  - unfold buildAddNodeWithContent in H.
    destruct (truthy (attr "id" attrs) && truthy (attr "type" attrs));
      [|discriminate].
    injection H as <-. cbn [addNodeOf an_content] in Hc.
    destruct (trim_ends (group 2 m)) as [Hhead Hlast].
    unfold str in Hc.
    destruct (string_of_list_ascii (trim (group 2 m))) as [|ch r] eqn:E;
      [discriminate|].
    injection Hc as <-. rewrite <- E.
    rewrite list_ascii_of_string_of_list_ascii.
    split; [rewrite E; discriminate | auto].
  - unfold buildAddNodeSelfClosing in H.
    destruct (truthy (attr "id" attrs) && truthy (attr "type" attrs));
      [|discriminate].
    injection H as <-. discriminate.
  - unfold buildUpdateNode in H.
    destruct (truthy (attr "id" attrs)); discriminate.
  - unfold buildDeleteNode in H.
    destruct (truthy (attr "id" attrs)); discriminate.
  - unfold Streamer.buildAddEdge in H.
    destruct (truthy (attr "from" attrs) && truthy (attr "to" attrs));
      [|discriminate].
    destruct (truthy (attr "id" attrs)); discriminate.
  - unfold buildDeleteEdge in H.
    destruct (truthy (attr "id" attrs)); discriminate.
Qed.


Lemma attr_In (key : string) (attrs : Attrs) (v : string) :
  attr key attrs = Some v -> exists k, In (k, v) attrs.
Proof.
  induction attrs as [|[k w] attrs IH]; simpl; [discriminate|].
  destruct (String.eqb k key).
  - intros H. injection H as ->. exists k. now left.
  - intros H. destruct (IH H) as (k' & Hk). exists k'. now right.
Qed.

Lemma parseAttributesLoop_values (t : list ascii) :
  forall fuel lastIndex acc attrs,
    parseAttributesLoop fuel t lastIndex acc = Some attrs ->
    (forall k v, In (k, v) acc -> incl (list_ascii_of_string v) t) ->
    forall k v, In (k, v) attrs -> incl (list_ascii_of_string v) t.
Proof.
  induction fuel as [|fuel IH]; intros lastIndex acc attrs H Hacc;
    [discriminate|].
  cbn [parseAttributesLoop] in H.
  destruct (exec attrPattern t lastIndex) as [m|] eqn:E.
  - apply (IH _ _ _ H).
    intros k v [Hnew|Hold]; [|eauto].
    injection Hnew as _ <-.
    destruct (exec_found _ _ _ _ E) as (pre & rest & s' & Ht & Hm & _).
    destruct (attrPattern_match _ _ _ Hm) as (name & value & Hrest & _ & _ & _ & Hc).
    unfold group, str. rewrite Hc. simpl capture.
    rewrite list_ascii_of_string_of_list_ascii.
    intros ch Hch. rewrite Ht, Hrest.
    apply in_or_app. right. apply in_or_app. right.
    right. right. apply in_or_app. now left.
  - injection H as <-. exact Hacc.
Qed.

(** The values [parseAttributes] returns are made of characters of the
    tag content. *)
Lemma parseAttributes_values (t : list ascii) (attrs : Attrs) (key v : string) :
  parseAttributes t = Some attrs -> attr key attrs = Some v ->
  incl (list_ascii_of_string v) t.
Proof.
  intros H Hv. destruct (attr_In _ _ _ Hv) as (k & Hin).
  apply (parseAttributesLoop_values t _ _ _ _ H) with (k := k);
    [intros ? ? [] | exact Hin].
Qed.

Lemma forallb_incl {A : Type} (p : A -> bool) (l t : list A) :
  forallb p t = true -> incl l t -> forallb p l = true.
Proof.
  intros Ht Hincl. apply forallb_forall. intros a Ha.
  rewrite forallb_forall in Ht. auto.
Qed.

(** The attributes read from a match of a self-closing pattern hold no
    [/]. *)
Lemma selfClosing_attributes (tag : string) (build : Builder)
    (m : RegExpMatch) (attrs : Attrs) (op : CanvasOperation) :
  BuiltFrom (selfClosing tag) build m attrs op ->
  forall key, slashFreeOpt (attr key attrs).
Proof.
  intros ((input & i & E) & Hattrs & _) key.
  destruct (attr key attrs) as [v|] eqn:Hv; [|exact I].
  destruct (exec_found _ _ _ _ E) as (pre & rest & s' & _ & Hm & _).
  destruct (selfClosing_match _ _ _ _ Hm) as (w & g & _ & _ & _ & _ & Hg & Hc).
  pose proof (parseAttributes_values _ _ _ _ Hattrs Hv) as Hincl.
  unfold group in Hincl. rewrite Hc in Hincl. simpl capture in Hincl.
  simpl. unfold slashFree. exact (forallb_incl _ _ _ Hg Hincl).
Qed.

Lemma slashFree_defined (o : option string) :
  slashFreeOpt o -> slashFree (defined o).
Proof. destruct o; simpl; [auto | reflexivity]. Qed.

Lemma slashFree_or_undefined (o : option string) :
  slashFreeOpt o -> slashFreeOpt (or_undefined o).
Proof. destruct o as [[|c s]|]; simpl; auto. Qed.

(** X26. No operation read from a self-closing tag other than [add_node]
    carries a [/]: the id and the content, color and label of a yielded
    [update_node], the id of a [delete_node] or [delete_edge], and the
    endpoints, sides, label and color of an [add_edge] hold none.  The
    five self-closing patterns stop at the first [/], so a tag with a [/]
    inside an attribute value is not read as that tag. *)
Theorem self_closing_operations_carry_no_slash (this this' : Streamer)
    (chunk : string) (ops : list CanvasOperation) (op : CanvasOperation) :
  processChunk this chunk = Some (this', ops) -> In op ops ->
  match op with
  | OpAddNode _ => True
  | OpUpdateNode u =>
      slashFree (un_id u)
      /\ slashFreeOpt (u_content (un_updates u))
      /\ slashFreeOpt (u_color (un_updates u))
      /\ slashFreeOpt (u_label (un_updates u))
  | OpDeleteNode id => slashFree id
  | OpAddEdge e =>
      slashFree (ae_fromNode e) /\ slashFree (ae_toNode e)
      /\ slashFreeOpt (ae_fromSide e) /\ slashFreeOpt (ae_toSide e)
      /\ slashFreeOpt (ae_label e) /\ slashFreeOpt (ae_color e)
  | OpDeleteEdge id => slashFree id
  end.
Proof.
  intros Hrun Hin.
  destruct (processChunk_built _ _ _ _ _ Hrun Hin)
    as [H|[H|[H|[H|[H|H]]]]];
    destruct H as (m & attrs & Hb).
  - destruct (built_addNodeWithContent _ _ _ Hb) as (content & ->). exact I.
  - rewrite (built_addNodeSelfClosing _ _ _ Hb). exact I.
  - pose proof (selfClosing_attributes _ _ _ _ _ Hb) as Hfree.
    destruct Hb as (_ & _ & gen & gen' & H). unfold buildUpdateNode in H.
    destruct (truthy (attr "id" attrs)); [|discriminate].
    injection H as <- _. simpl.
    repeat split; try apply slashFree_defined; apply Hfree.
  - pose proof (selfClosing_attributes _ _ _ _ _ Hb) as Hfree.
    destruct Hb as (_ & _ & gen & gen' & H). unfold buildDeleteNode in H.
    destruct (truthy (attr "id" attrs)); [|discriminate].
    injection H as <- _. apply slashFree_defined, Hfree.
  - pose proof (selfClosing_attributes _ _ _ _ _ Hb) as Hfree.
    destruct Hb as (_ & _ & gen & gen' & H).
    unfold Streamer.buildAddEdge in H.
    destruct (truthy (attr "from" attrs) && truthy (attr "to" attrs));
      [|discriminate].
    destruct (truthy (attr "id" attrs)); injection H as <- _; simpl;
      repeat split;
      try apply slashFree_defined; try apply slashFree_or_undefined;
      apply Hfree.
  - pose proof (selfClosing_attributes _ _ _ _ _ Hb) as Hfree.
    destruct Hb as (_ & _ & gen & gen' & H). unfold buildDeleteEdge in H.
    destruct (truthy (attr "id" attrs)); [|discriminate].
    injection H as <- _. apply slashFree_defined, Hfree.
Qed.

(** X27. The self-closing [add_node] loop pushes no operation that
    carries a [/]: id, type, file, url, label and color of every
    [add_node] it pushes hold none.  So a self-closing [add_node] whose
    file is a path with a folder, or whose url has a scheme, is not read
    by this loop. *)
Theorem self_closing_add_node_carries_no_slash (st st' : Scan)
    (l : list CanvasOperation) (a : AddNodeOperation) :
  sc_lastIndex st = 0 ->
  scanShape addNodeSelfClosingPattern buildAddNodeSelfClosing st = Some st' ->
  sc_operations st' = sc_operations st ++ l ->
  In (OpAddNode a) l ->
  an_content a = None
  /\ slashFree (an_id a) /\ slashFree (an_nodeType a)
  /\ slashFreeOpt (an_file a) /\ slashFreeOpt (an_url a)
  /\ slashFreeOpt (an_label a) /\ slashFreeOpt (an_color a).
Proof.
  intros Hli Hscan Hops Hin.
  destruct (scanShape_spec addNodeSelfClosingPattern buildAddNodeSelfClosing
              st eq_refl Hli) as (st2 & l2 & (Hscan2 & Hops2 & _) & Hbuilt).
  rewrite Hscan in Hscan2. injection Hscan2 as <-.
  rewrite Hops in Hops2. apply app_inv_head in Hops2. subst l2.
  rewrite Forall_forall in Hbuilt.
  destruct (Hbuilt _ Hin) as (m & attrs & Hb).
  pose proof (selfClosing_attributes _ _ _ _ _ Hb) as Hfree.
  pose proof (built_addNodeSelfClosing _ _ _ Hb) as E.
  injection E as ->. simpl.
  repeat split;
    try apply slashFree_defined; try apply slashFree_or_undefined;
    apply Hfree.
Qed.

End StreamerMore.

(** ** The streaming parser: runs *)

Section StreamerMoreRuns.
Import Streamer.

Lemma yielded_operations_are_identified_witness :
  "a" <> EmptyString.
Proof.
  assert (H : processChunk sampleEdgeId fresh (q "<delete_node id='a'/>")
              = Some (fresh, [OpDeleteNode "a"]))
    by (vm_compute; reflexivity).
  exact (yielded_operations_are_identified sampleEdgeId _ _ _ _
           (OpDeleteNode "a") H (or_introl eq_refl)).
Defined.

Lemma unused_text_stays_in_buffer_witness :
  exists ms,
    Forall2 (TagOf sampleEdgeId) ms [OpDeleteNode "a"]
    /\ CutAll (map m_text ms)
              (list_ascii_of_string (q "<delete_node id='a'/><add_no"))
              (list_ascii_of_string "<add_no").
Proof.
  assert (H : processChunk sampleEdgeId fresh
                (q "<delete_node id='a'/><add_no")
              = Some ({| buffer := list_ascii_of_string "<add_no";
                         currentCanvasPath := None; summary := EmptyString;
                         generated := 0 |}, [OpDeleteNode "a"]))
    by (vm_compute; reflexivity).
  destruct (unused_text_stays_in_buffer sampleEdgeId _ _ _ _ H)
    as (ms & Htags & Hcuts & _).
  exists ms. split; [exact Htags | exact Hcuts].
Defined.


Lemma text_content_is_trimmed_witness :
  "hi there" <> EmptyString.
Proof.
  assert (H : option_map snd
                (processChunk sampleEdgeId fresh
                   (q "<add_node id='t' type='text'>  hi there  </add_node>"))
              = Some [OpAddNode
                        (mkAddNode "t" "text" (JInt 0) (JInt 0) (JInt 200)
                           (JInt 100) (Some "hi there") None None None None)])
    by (vm_compute; reflexivity).
  destruct (processChunk sampleEdgeId fresh
              (q "<add_node id='t' type='text'>  hi there  </add_node>"))
    as [[this' ops]|] eqn:E; [|discriminate].
  simpl in H. injection H as ->.
  exact (proj1 (text_content_is_trimmed sampleEdgeId _ _ _ _ _ "hi there" E
                  (or_introl eq_refl) eq_refl)).
Defined.

Lemma self_closing_operations_carry_no_slash_witness :
  slashFreeOpt (Some "ab").
Proof.
  assert (H : option_map snd
                (processChunk sampleEdgeId fresh
                   (q "<update_node id='n' content='a/b'/><update_node id='m' content='ab'/>"))
              = Some [OpUpdateNode
                        (mkUpdateNode "m"
                           (mkUpdates None None None None (Some "ab") None None))])
    by (vm_compute; reflexivity).
  destruct (processChunk sampleEdgeId fresh
              (q "<update_node id='n' content='a/b'/><update_node id='m' content='ab'/>"))
    as [[this' ops]|] eqn:E; [|discriminate].
  simpl in H. injection H as ->.
  exact (proj1 (proj2
           (self_closing_operations_carry_no_slash sampleEdgeId _ _ _ _ _ E
              (or_introl eq_refl)))).
Defined.

Lemma self_closing_add_node_carries_no_slash_witness :
  slashFreeOpt (Some "a.md").
Proof.
  destruct (scanShape addNodeSelfClosingPattern buildAddNodeSelfClosing
              (startScan fresh
                 (q "<add_node id='f' type='file' file='dir/a.md'/><add_node id='g' type='file' file='a.md'/>")))
    as [st'|] eqn:E; [|vm_compute in E; discriminate].
  assert (Hops : sc_operations st'
                 = [] ++ [OpAddNode
                            (mkAddNode "g" "file" (JInt 0) (JInt 0) (JInt 200)
                               (JInt 100) None (Some "a.md") None None None)]).
  { vm_compute in E. injection E as <-. reflexivity. }
  exact (proj1 (proj2 (proj2 (proj2
           (self_closing_add_node_carries_no_slash
              (startScan fresh
                 (q "<add_node id='f' type='file' file='dir/a.md'/><add_node id='g' type='file' file='a.md'/>"))
              st' _ _ eq_refl E Hops (or_introl eq_refl)))))).
Defined.

End StreamerMoreRuns.
